(** * An in-memory publish/subscribe broker: registry, fan-out, replay ring,
      backpressure and the session handler.

    The development embeds [PubSubSystem] (src/pubsub.js) and the parts of
    [WebSocketHandler] (src/websocket-handler.js) that drive it, and proves
    the properties of the specification about them.

    Conventions of the embedding.
    - A JS [Map] is a [gmap]; a JS [Set] is the list of its elements in
      insertion order, without duplicates ([set_add], [set_delete]).
    - JS objects held by reference (the WebSocket of a subscriber record)
      live in a store, [sockets], and records hold handles into it, so two
      records bound to the same connection see the same transport.
    - A method that throws returns [Throw msg] together with the state as
      the mutations made before the throw left it.
    - [new Date().toISOString()] is read once per top-level call and passed
      in as [now].
    - The configuration is the validated struct of the specification:
      capacities are natural numbers, the policy is one of two values. *)

From stdpp Require Import gmap strings list fin_maps.
From Stdlib Require Import ZArith Lia.

Open Scope string_scope.
Open Scope list_scope.
Open Scope nat_scope.

(** ** Data *)

Inductive BackpressurePolicy := DROP_OLDEST | DISCONNECT.

(** The opaque published message: [{id, payload}]. *)
Record Message := { id : string; payload : string }.

(** [publishedMessage]: [{type: 'event', topic, message, ts}]. *)
Record Event := { ev_topic : string; ev_message : Message; ev_ts : string }.

(** Frames the server writes to a transport. *)
Inductive Frame :=
| f_event (e : Event)
| f_info_topic_deleted (topic ts : string)
| f_info_connected (client_id ts : string)
| f_ack (request_id : option string) (topic ts : string)
| f_error (request_id : option string) (code message ts : string)
| f_pong (request_id : option string) (ts : string).

(** The transport, an external collaborator.  [readyState] is the
    WebSocket ready state (1 is OPEN, 2 CLOSING, 3 CLOSED); [sendBudget] is
    the number of frames [send] still accepts before it throws; [sent] is
    what was written so far; [closeCall] records a [close(code, reason)]. *)
Record WebSocket := {
  readyState : nat;
  sendBudget : nat;
  sent : list Frame;
  closeCall : option (nat * string)
}.

Definition closedSocket : WebSocket :=
  {| readyState := 3; sendBudget := 0; sent := []; closeCall := None |}.

#[global] Instance WebSocket_inhabited : Inhabited WebSocket :=
  populate closedSocket.

(** [ws.send(frame)]: [None] when it throws.  The registry tests
    [readyState] itself before every send. *)
Definition ws_send (f : Frame) (w : WebSocket) : option WebSocket :=
  match sendBudget w with
  | O => None
  | S b => Some {| readyState := readyState w; sendBudget := b;
                   sent := sent w ++ [f]; closeCall := closeCall w |}
  end.

(** [ws.close(code, reason)]: the socket starts closing. *)
Definition ws_close (code : nat) (reason : string) (w : WebSocket) : WebSocket :=
  {| readyState := 2; sendBudget := sendBudget w; sent := sent w;
     closeCall := Some (code, reason) |}.

(** Topic record: [{subscribers: Set, messageHistory: Array}].  The field
    [subscribers] is named [tsubscribers] here, the system record having a
    field of that name. *)
Record Topic := {
  tsubscribers : list string;
  messageHistory : list Event
}.

(** Subscriber record: [{ws, topics: Set, queue: Array}]; [ws] is a handle
    into [sockets], and the field [topics] is named [stopics]. *)
Record Subscriber := {
  ws : nat;
  stopics : list string;
  queue : list Event
}.

Record TopicStats := { messages : nat; nsubscribers : nat }.

Record Stats := {
  totalMessages : nat;
  totalSubscribers : Z;
  topicStats : gmap string TopicStats
}.

Record PubSubSystem := {
  maxQueueSize : nat;
  ringBufferSize : nat;
  backpressurePolicy : BackpressurePolicy;
  topics : gmap string Topic;
  subscribers : gmap string Subscriber;
  stats : Stats;
  sockets : gmap nat WebSocket
}.

(** Outcome of a call: a value or a thrown [Error(msg)]. *)
Inductive result (A : Type) :=
| Ok (a : A)
| Throw (msg : string).
Arguments Ok {A} a.
Arguments Throw {A} msg.

Inductive Reply :=
| created (topic : string)
| deleted (topic : string)
| subscribed (topic clientId : string)
| unsubscribed (topic clientId : string)
| published (topic : string) (subscribersReached : Z)
            (failedDeliveries : list (string * string)).

(** ** JS helpers *)

(** [Set.prototype.add] and [Set.prototype.delete] on an insertion-ordered
    set. *)
Definition set_add (x : string) (s : list string) : list string :=
  if decide (x ∈ s) then s else s ++ [x].

Definition set_delete (x : string) (s : list string) : list string :=
  filter (λ y, y ≠ x) s.

(** [Array.prototype.shift]: drops the first element, if any. *)
Definition shift {A} (l : list A) : list A := tail l.

(** [Array.prototype.slice(start)] for an integer [start]. *)
Definition slice {A} (start : Z) (l : list A) : list A :=
  let len := Z.of_nat (length l) in
  let from := if (start <? 0)%Z then Z.max (len + start) 0 else Z.min start len in
  drop (Z.to_nat from) l.

(** [x || d] on a numeric option: [undefined] and [0] are falsy. *)
Definition or_default (x : option nat) (d : nat) : nat :=
  match x with
  | Some (S n) => S n
  | _ => d
  end.

(** ** State updates *)

Definition with_topics (f : gmap string Topic → gmap string Topic)
    (st : PubSubSystem) : PubSubSystem :=
  {| maxQueueSize := maxQueueSize st; ringBufferSize := ringBufferSize st;
     backpressurePolicy := backpressurePolicy st;
     topics := f (topics st); subscribers := subscribers st;
     stats := stats st; sockets := sockets st |}.

Definition with_subscribers (f : gmap string Subscriber → gmap string Subscriber)
    (st : PubSubSystem) : PubSubSystem :=
  {| maxQueueSize := maxQueueSize st; ringBufferSize := ringBufferSize st;
     backpressurePolicy := backpressurePolicy st;
     topics := topics st; subscribers := f (subscribers st);
     stats := stats st; sockets := sockets st |}.

Definition with_stats (f : Stats → Stats) (st : PubSubSystem) : PubSubSystem :=
  {| maxQueueSize := maxQueueSize st; ringBufferSize := ringBufferSize st;
     backpressurePolicy := backpressurePolicy st;
     topics := topics st; subscribers := subscribers st;
     stats := f (stats st); sockets := sockets st |}.

Definition with_sockets (f : gmap nat WebSocket → gmap nat WebSocket)
    (st : PubSubSystem) : PubSubSystem :=
  {| maxQueueSize := maxQueueSize st; ringBufferSize := ringBufferSize st;
     backpressurePolicy := backpressurePolicy st;
     topics := topics st; subscribers := subscribers st;
     stats := stats st; sockets := f (sockets st) |}.

Definition with_topicStats (f : gmap string TopicStats → gmap string TopicStats)
    (s : Stats) : Stats :=
  {| totalMessages := totalMessages s; totalSubscribers := totalSubscribers s;
     topicStats := f (topicStats s) |}.

Definition set_tsubscribers (f : list string → list string) (t : Topic) : Topic :=
  {| tsubscribers := f (tsubscribers t); messageHistory := messageHistory t |}.

Definition set_messageHistory (f : list Event → list Event) (t : Topic) : Topic :=
  {| tsubscribers := tsubscribers t; messageHistory := f (messageHistory t) |}.

Definition set_stopics (f : list string → list string) (s : Subscriber) : Subscriber :=
  {| ws := ws s; stopics := f (stopics s); queue := queue s |}.

Definition set_queue (q : list Event) (s : Subscriber) : Subscriber :=
  {| ws := ws s; stopics := stopics s; queue := q |}.

Definition set_nsubscribers (n : nat) (s : TopicStats) : TopicStats :=
  {| messages := messages s; nsubscribers := n |}.

(** The socket behind a handle. *)
Definition socket (st : PubSubSystem) (w : nat) : WebSocket := sockets st !!! w.

(** ** PubSubSystem *)

Record Options := {
  opt_maxQueueSize : option nat;
  opt_ringBufferSize : option nat;
  opt_backpressurePolicy : option BackpressurePolicy
}.

(** [constructor(options = {})]. *)
Definition new_PubSubSystem (options : Options) : PubSubSystem :=
  {| maxQueueSize := or_default (opt_maxQueueSize options) 1000;
     ringBufferSize := or_default (opt_ringBufferSize options) 100;
     backpressurePolicy := default DROP_OLDEST (opt_backpressurePolicy options);
     topics := ∅; subscribers := ∅;
     stats := {| totalMessages := 0; totalSubscribers := 0; topicStats := ∅ |};
     sockets := ∅ |}.

(** [PubSubServer]'s constructor (src/server.js) applies the same defaults
    before it calls the one above. *)
Definition new_PubSubServer (options : Options) : PubSubSystem :=
  new_PubSubSystem
    {| opt_maxQueueSize := Some (or_default (opt_maxQueueSize options) 1000);
       opt_ringBufferSize := Some (or_default (opt_ringBufferSize options) 100);
       opt_backpressurePolicy :=
         Some (default DROP_OLDEST (opt_backpressurePolicy options)) |}.

(** [createTopic(topicName)]. *)
Definition createTopic (st : PubSubSystem) (topicName : string)
    : PubSubSystem * result Reply :=
  match topics st !! topicName with
  | Some _ => (st, Throw "TOPIC_ALREADY_EXISTS")
  | None =>
      let st1 := with_topics
        (insert topicName {| tsubscribers := []; messageHistory := [] |}) st in
      let st2 := with_stats (with_topicStats
        (insert topicName {| messages := 0; nsubscribers := 0 |})) st1 in
      (st2, Ok (created topicName))
  end.

(** [removeSubscriber(clientId)]. *)
Definition remove_from_topic (clientId : string) (st : PubSubSystem)
    (topicName : string) : PubSubSystem :=
  match topics st !! topicName with
  | Some topic =>
      let topic' := set_tsubscribers (set_delete clientId) topic in
      let st1 := with_topics (insert topicName topic') st in
      match topicStats (stats st1) !! topicName with
      | Some ts =>
          with_stats (with_topicStats (insert topicName
            (set_nsubscribers (length (tsubscribers topic')) ts))) st1
      | None => st1
      end
  | None => st
  end.

Definition dec_totalSubscribers (s : Stats) : Stats :=
  {| totalMessages := totalMessages s;
     totalSubscribers := (totalSubscribers s - 1)%Z;
     topicStats := topicStats s |}.

Definition inc_totalSubscribers (s : Stats) : Stats :=
  {| totalMessages := totalMessages s;
     totalSubscribers := (totalSubscribers s + 1)%Z;
     topicStats := topicStats s |}.

Definition inc_totalMessages (s : Stats) : Stats :=
  {| totalMessages := S (totalMessages s);
     totalSubscribers := totalSubscribers s;
     topicStats := topicStats s |}.

Definition removeSubscriber (st : PubSubSystem) (clientId : string) : PubSubSystem :=
  match subscribers st !! clientId with
  | None => st
  | Some subscriber =>
      let st1 := foldl (remove_from_topic clientId) st (stopics subscriber) in
      with_stats dec_totalSubscribers (with_subscribers (delete clientId) st1)
  end.

(** The [while] loop of [flushSubscriberQueue]: send the head, shift on
    success, stop at the first send that throws. *)
Fixpoint drain (q : list Event) (w : WebSocket) : list Event * WebSocket :=
  match q with
  | [] => ([], w)
  | message :: q' =>
      match ws_send (f_event message) w with
      | Some w' => drain q' w'
      | None => (q, w)
      end
  end.

(** [flushSubscriberQueue(clientId)]. *)
Definition flushSubscriberQueue (st : PubSubSystem) (clientId : string) : PubSubSystem :=
  match subscribers st !! clientId with
  | None => st
  | Some subscriber =>
      if decide (readyState (socket st (ws subscriber)) = 1) then
        let '(q, w) := drain (queue subscriber) (socket st (ws subscriber)) in
        with_sockets (insert (ws subscriber) w)
          (with_subscribers (insert clientId (set_queue q subscriber)) st)
      else st
  end.

(** [enqueueMessage(clientId, message)]. *)
Definition enqueueMessage (now : string) (st : PubSubSystem) (clientId : string)
    (message : Event) : PubSubSystem * result unit :=
  match subscribers st !! clientId with
  | None => (st, Throw "SUBSCRIBER_NOT_FOUND")
  | Some subscriber =>
      if decide (readyState (socket st (ws subscriber)) = 1) then
        let push q :=
          flushSubscriberQueue
            (with_subscribers
               (insert clientId (set_queue (q ++ [message]) subscriber)) st)
            clientId in
        if decide (maxQueueSize st ≤ length (queue subscriber)) then
          match backpressurePolicy st with
          | DROP_OLDEST => (push (shift (queue subscriber)), Ok ())
          | DISCONNECT =>
              let errorMessage :=
                f_error None "SLOW_CONSUMER" "Subscriber queue overflow" now in
              let st1 :=
                match ws_send errorMessage (socket st (ws subscriber)) with
                | Some w =>
                    with_sockets
                      (insert (ws subscriber) (ws_close 1008 "SLOW_CONSUMER" w)) st
                | None => st
                end in
              (removeSubscriber st1 clientId, Throw "SLOW_CONSUMER")
          end
        else (push (queue subscriber), Ok ())
      else (removeSubscriber st clientId, Throw "SUBSCRIBER_DISCONNECTED")
  end.

(** [deleteTopic(topicName)].  The first loop writes the [topic_deleted]
    frame straight to each open transport; the second detaches. *)
Definition notify_deleted (topicName now : string) (st : PubSubSystem)
    (clientId : string) : PubSubSystem :=
  match subscribers st !! clientId with
  | Some subscriber =>
      if decide (readyState (socket st (ws subscriber)) = 1) then
        match ws_send (f_info_topic_deleted topicName now)
                      (socket st (ws subscriber)) with
        | Some w => with_sockets (insert (ws subscriber) w) st
        | None => st
        end
      else st
  | None => st
  end.

Definition detach_topic (topicName : string) (st : PubSubSystem)
    (clientId : string) : PubSubSystem :=
  match subscribers st !! clientId with
  | Some subscriber =>
      with_subscribers
        (insert clientId (set_stopics (set_delete topicName) subscriber)) st
  | None => st
  end.

Definition deleteTopic (now : string) (st : PubSubSystem) (topicName : string)
    : PubSubSystem * result Reply :=
  match topics st !! topicName with
  | None => (st, Throw "TOPIC_NOT_FOUND")
  | Some topic =>
      let st1 := foldl (notify_deleted topicName now) st (tsubscribers topic) in
      let st2 := foldl (detach_topic topicName) st1 (tsubscribers topic) in
      let st3 := with_topics (delete topicName) st2 in
      let st4 := with_stats (with_topicStats (delete topicName)) st3 in
      (st4, Ok (deleted topicName))
  end.

(** The [for ... of messagesToReplay] loop of [subscribe]: the first
    [enqueueMessage] that throws ends it and the error propagates. *)
Fixpoint replay (now : string) (st : PubSubSystem) (clientId : string)
    (messagesToReplay : list Event) : PubSubSystem * result unit :=
  match messagesToReplay with
  | [] => (st, Ok ())
  | message :: rest =>
      match enqueueMessage now st clientId message with
      | (st', Ok _) => replay now st' clientId rest
      | (st', Throw msg) => (st', Throw msg)
      end
  end.

(** The part of [subscribe] before the statistics and the replay: lazy
    registration of the record and the two cross-references. *)
Definition join (st : PubSubSystem) (clientId : string) (ws0 : nat)
    (topicName : string) (topic : Topic) : PubSubSystem :=
  let st1 :=
    match subscribers st !! clientId with
    | None =>
        with_stats inc_totalSubscribers
          (with_subscribers
             (insert clientId {| ws := ws0; stopics := []; queue := [] |}) st)
    | Some _ => st
    end in
  let st2 := with_topics
    (insert topicName (set_tsubscribers (set_add clientId) topic)) st1 in
  with_subscribers (alter (set_stopics (set_add topicName)) clientId) st2.

(** [subscribe(clientId, ws, topicName, lastN = 0)].  Writing the
    subscriber count into a missing statistics entry is a [TypeError]. *)
Definition subscribe (now : string) (st : PubSubSystem) (clientId : string)
    (ws0 : nat) (topicName : string) (lastN : Z) : PubSubSystem * result Reply :=
  match topics st !! topicName with
  | None => (st, Throw "TOPIC_NOT_FOUND")
  | Some topic =>
      let st1 := join st clientId ws0 topicName topic in
      match topicStats (stats st1) !! topicName with
      | None => (st1, Throw "TypeError")
      | Some ts =>
          let size := length (set_add clientId (tsubscribers topic)) in
          let st2 := with_stats (with_topicStats
            (insert topicName (set_nsubscribers size ts))) st1 in
          if decide ((0 < lastN)%Z ∧ 0 < length (messageHistory topic)) then
            match replay now st2 clientId (slice (- lastN) (messageHistory topic)) with
            | (st3, Ok _) => (st3, Ok (subscribed topicName clientId))
            | (st3, Throw msg) => (st3, Throw msg)
            end
          else (st2, Ok (subscribed topicName clientId))
      end
  end.

(** [unsubscribe(clientId, topicName)]. *)
Definition unsubscribe (st : PubSubSystem) (clientId topicName : string)
    : PubSubSystem * result Reply :=
  match topics st !! topicName, subscribers st !! clientId with
  | Some topic, Some subscriber =>
      let topic' := set_tsubscribers (set_delete clientId) topic in
      let st1 := with_topics (insert topicName topic') st in
      let st2 := with_subscribers
        (insert clientId (set_stopics (set_delete topicName) subscriber)) st1 in
      let st3 :=
        match topicStats (stats st2) !! topicName with
        | Some ts =>
            with_stats (with_topicStats (insert topicName
              (set_nsubscribers (length (tsubscribers topic')) ts))) st2
        | None => st2
        end in
      (st3, Ok (unsubscribed topicName clientId))
  | _, _ => (st, Throw "SUBSCRIPTION_NOT_FOUND")
  end.

(** The fan-out loop of [publish] over the subscriber set of the topic.
    The only element [enqueueMessage] can delete from that set while the
    loop runs is the one being visited, so the loop visits the elements the
    set had when it started. *)
Fixpoint fanout (now : string) (st : PubSubSystem) (clientIds : list string)
    (publishedMessage : Event) : PubSubSystem * list (string * string) :=
  match clientIds with
  | [] => (st, [])
  | clientId :: rest =>
      match enqueueMessage now st clientId publishedMessage with
      | (st', Ok _) => fanout now st' rest publishedMessage
      | (st', Throw msg) =>
          let '(st'', failedDeliveries) := fanout now st' rest publishedMessage in
          (st'', (clientId, msg) :: failedDeliveries)
      end
  end.

(** [messageHistory.push(m)] followed by the overflow [shift]. *)
Definition ring_push (ringBufferSize : nat) (m : Event) (h : list Event) : list Event :=
  let h' := h ++ [m] in
  if decide (ringBufferSize < length h') then shift h' else h'.

Definition inc_messages (s : TopicStats) : TopicStats :=
  {| messages := S (messages s); nsubscribers := nsubscribers s |}.

(** [publish(topicName, message)]. *)
Definition publish (now : string) (st : PubSubSystem) (topicName : string)
    (message : Message) : PubSubSystem * result Reply :=
  match topics st !! topicName with
  | None => (st, Throw "TOPIC_NOT_FOUND")
  | Some topic =>
      let publishedMessage :=
        {| ev_topic := topicName; ev_message := message; ev_ts := now |} in
      let st1 := with_topics
        (insert topicName
           (set_messageHistory (ring_push (ringBufferSize st) publishedMessage) topic))
        st in
      let '(st2, failedDeliveries) :=
        fanout now st1 (tsubscribers topic) publishedMessage in
      let st3 := with_stats inc_totalMessages st2 in
      let st4 := with_stats (with_topicStats (alter inc_messages topicName)) st3 in
      let size :=
        match topics st2 !! topicName with
        | Some topic' => length (tsubscribers topic')
        | None => length (tsubscribers topic)
        end in
      (st4, Ok (published topicName
                  (Z.of_nat size - Z.of_nat (length failedDeliveries))%Z
                  failedDeliveries))
  end.

(** ** WebSocketHandler *)

(** An inbound frame after [JSON.parse]; a missing field is [None]. *)
Record ClientMessage := {
  m_type : option string;
  m_topic : option string;
  m_client_id : option string;
  m_last_n : option Z;
  m_request_id : option string;
  m_message : option Message
}.

(** JS truthiness of a string field: [undefined] and [''] are falsy. *)
Definition truthy (x : option string) : option string :=
  match x with
  | Some "" => None
  | _ => x
  end.

(** [ws.send(...)] inside [try { } catch { log }]. *)
Definition try_send (st : PubSubSystem) (w : nat) (f : Frame) : PubSubSystem :=
  match ws_send f (socket st w) with
  | Some w' => with_sockets (insert w w') st
  | None => st
  end.

(** [sendError(ws, code, message, requestId)]. *)
Definition sendError (now : string) (st : PubSubSystem) (w : nat)
    (code message : string) (requestId : option string) : PubSubSystem :=
  try_send st w (f_error requestId code message now).

(** The per-connection state set up by [handleConnection]: the transport
    and the identity the server generated for it ([uuidv4()]). *)
Record Session := { session_ws : nat; session_clientId : string }.

(** [handleConnection(ws, req)], given the freshly generated [clientId]. *)
Definition handleConnection (now : string) (st : PubSubSystem) (w : nat)
    (clientId : string) : PubSubSystem * Session :=
  (try_send st w (f_info_connected clientId now),
   {| session_ws := w; session_clientId := clientId |}).

(** The ['close'] listener registered by [handleConnection]; the transport
    has reached CLOSED when it runs. *)
Definition on_close (st : PubSubSystem) (s : Session) : PubSubSystem :=
  let st1 := with_sockets
    (insert (session_ws s)
       {| readyState := 3; sendBudget := 0;
          sent := sent (socket st (session_ws s));
          closeCall := closeCall (socket st (session_ws s)) |}) st in
  removeSubscriber st1 (session_clientId s).

(** The [try { op; ws.send(ack) } catch (error) { sendError(...) }] that
    the request handlers have in common; [known] is the error message that
    the handler maps to [TOPIC_NOT_FOUND].  When it is the acknowledgement
    that throws, the error frame that follows is refused as well. *)
Definition reply (now : string) (w : nat) (known topic : string)
    (request_id : option string) (r : PubSubSystem * result Reply) : PubSubSystem :=
  match r with
  | (st, Ok _) =>
      match ws_send (f_ack request_id topic now) (socket st w) with
      | Some w' => with_sockets (insert w w') st
      | None => sendError now st w "INTERNAL_ERROR" "send failed" request_id
      end
  | (st, Throw msg) =>
      let errorCode :=
        if decide (msg = known) then "TOPIC_NOT_FOUND" else "INTERNAL_ERROR" in
      sendError now st w errorCode msg request_id
  end.

(** [handleSubscribe(ws, message)]. *)
Definition handleSubscribe (now : string) (st : PubSubSystem) (w : nat)
    (message : ClientMessage) : PubSubSystem :=
  match truthy (m_topic message) with
  | None => sendError now st w "BAD_REQUEST" "Missing topic field" (m_request_id message)
  | Some topic =>
      match truthy (m_client_id message) with
      | None =>
          sendError now st w "BAD_REQUEST" "Missing client_id field" (m_request_id message)
      | Some client_id =>
          reply now w "TOPIC_NOT_FOUND" topic (m_request_id message)
            (subscribe now st client_id w topic (default 0%Z (m_last_n message)))
      end
  end.

(** [handleUnsubscribe(ws, message)]. *)
Definition handleUnsubscribe (now : string) (st : PubSubSystem) (w : nat)
    (message : ClientMessage) : PubSubSystem :=
  match truthy (m_topic message) with
  | None => sendError now st w "BAD_REQUEST" "Missing topic field" (m_request_id message)
  | Some topic =>
      match truthy (m_client_id message) with
      | None =>
          sendError now st w "BAD_REQUEST" "Missing client_id field" (m_request_id message)
      | Some client_id =>
          reply now w "SUBSCRIPTION_NOT_FOUND" topic (m_request_id message)
            (unsubscribe st client_id topic)
      end
  end.

(** [isValidUUID(str)]: the test of the regular expression
    [/^[0-9a-f]{8}-[0-9a-f]{4}-[1-5][0-9a-f]{3}-[89ab][0-9a-f]{3}-[0-9a-f]{12}$/i].
    The expression is a sequence of one-character classes between the two
    anchors, so a string matches when it has one character for each class,
    in order, and nothing more; the flag [i] lets a letter of a class match
    in either case. *)
Definition between (lo hi : nat) (c : Ascii.ascii) : bool :=
  (lo <=? Ascii.nat_of_ascii c) && (Ascii.nat_of_ascii c <=? hi).

(** [[0-9a-f]] under [i]: a digit, [a]-[f] or [A]-[F]. *)
Definition hex_class (c : Ascii.ascii) : bool :=
  between 48 57 c || between 97 102 c || between 65 70 c.

(** [[1-5]]. *)
Definition version_class (c : Ascii.ascii) : bool := between 49 53 c.

(** [[89ab]] under [i]: [8], [9], [a], [b], [A] or [B]. *)
Definition variant_class (c : Ascii.ascii) : bool :=
  between 56 57 c || between 97 98 c || between 65 66 c.

(** [-]. *)
Definition dash_class (c : Ascii.ascii) : bool := between 45 45 c.

Definition uuidRegex : list (Ascii.ascii → bool) :=
  replicate 8 hex_class ++ [dash_class]
  ++ replicate 4 hex_class ++ [dash_class]
  ++ [version_class] ++ replicate 3 hex_class ++ [dash_class]
  ++ [variant_class] ++ replicate 3 hex_class ++ [dash_class]
  ++ replicate 12 hex_class.

(** [regex.test(str)] for an anchored sequence of character classes. *)
Fixpoint test (regex : list (Ascii.ascii → bool)) (str : string) : bool :=
  match regex, str with
  | [], EmptyString => true
  | class :: regex', String c str' => class c && test regex' str'
  | _, _ => false
  end.

Definition isValidUUID (str : string) : bool := test uuidRegex str.

(** [handlePublish(ws, message)]. *)
Definition handlePublish (now : string) (st : PubSubSystem) (w : nat)
    (message : ClientMessage) : PubSubSystem :=
  match truthy (m_topic message) with
  | None => sendError now st w "BAD_REQUEST" "Missing topic field" (m_request_id message)
  | Some topic =>
      match m_message message with
      | None =>
          sendError now st w "BAD_REQUEST" "Missing message field" (m_request_id message)
      | Some payload0 =>
          reply now w "TOPIC_NOT_FOUND" topic (m_request_id message)
            (publish now st topic payload0)
      end
  end.

(** [handlePing(ws, message)]. *)
Definition handlePing (now : string) (st : PubSubSystem) (w : nat)
    (message : ClientMessage) : PubSubSystem :=
  try_send st w (f_pong (m_request_id message) now).

(** What [JSON.parse(data.toString())] makes of an inbound frame: it
    throws, or yields [null], or yields a value whose properties can be
    read (an object; a number, string, boolean or array has none of the
    properties the handler reads). *)
Inductive Received :=
| not_json
| json_null
| json_value (message : ClientMessage).

(** [handleMessage(ws, data)].  Reading [message.type] of [null] is a
    [TypeError], which the outer [catch] answers with INTERNAL_ERROR.  The
    [id] of a message is falsy when it is the empty string. *)
Definition handleMessage (now : string) (st : PubSubSystem) (w : nat)
    (data : Received) : PubSubSystem :=
  match data with
  | not_json => sendError now st w "BAD_REQUEST" "Invalid JSON format" None
  | json_null => sendError now st w "INTERNAL_ERROR" "Internal server error" None
  | json_value message =>
      match truthy (m_type message) with
      | None =>
          sendError now st w "BAD_REQUEST" "Missing message type" (m_request_id message)
      | Some type =>
          let invalid_id :=
            match m_message message with
            | Some msg =>
                bool_decide (type = "publish") && negb (bool_decide (id msg = ""))
                && negb (isValidUUID (id msg))
            | None => false
            end in
          if invalid_id then
            sendError now st w "BAD_REQUEST" "message.id must be a valid UUID"
              (m_request_id message)
          else if decide (type = "subscribe") then handleSubscribe now st w message
          else if decide (type = "unsubscribe") then handleUnsubscribe now st w message
          else if decide (type = "publish") then handlePublish now st w message
          else if decide (type = "ping") then handlePing now st w message
          else sendError now st w "BAD_REQUEST" ("Unknown message type: " +:+ type)
                 (m_request_id message)
      end
  end.

(** ** Runs of the system *)

(** The transport changes state on its own: the peer connects, stalls,
    resumes or goes away. *)
Definition transport (st : PubSubSystem) (w readyState0 sendBudget0 : nat)
    : PubSubSystem :=
  with_sockets
    (insert w {| readyState := readyState0; sendBudget := sendBudget0;
                 sent := sent (socket st w);
                 closeCall := closeCall (socket st w) |}) st.

Inductive Op :=
| op_createTopic (topicName : string)
| op_deleteTopic (now topicName : string)
| op_subscribe (now clientId : string) (ws0 : nat) (topicName : string) (lastN : Z)
| op_unsubscribe (clientId topicName : string)
| op_publish (now topicName : string) (message : Message)
| op_removeSubscriber (clientId : string)
| op_flushSubscriberQueue (clientId : string)
| op_transport (w readyState0 sendBudget0 : nat).

Definition step (st : PubSubSystem) (op : Op) : PubSubSystem :=
  match op with
  | op_createTopic t => (createTopic st t).1
  | op_deleteTopic now t => (deleteTopic now st t).1
  | op_subscribe now c w t n => (subscribe now st c w t n).1
  | op_unsubscribe c t => (unsubscribe st c t).1
  | op_publish now t m => (publish now st t m).1
  | op_removeSubscriber c => removeSubscriber st c
  | op_flushSubscriberQueue c => flushSubscriberQueue st c
  | op_transport w r b => transport st w r b
  end.

Definition run (ops : list Op) (st : PubSubSystem) : PubSubSystem :=
  foldl step st ops.

(** ** Membership *)

(** The pair [(clientId, topicName)] is joined: the topic exists and lists
    the client among its subscribers. *)
Definition joined (st : PubSubSystem) (clientId topicName : string) : Prop :=
  ∃ topic, topics st !! topicName = Some topic ∧ clientId ∈ tsubscribers topic.

(** ** Delivery steps

    [delivery st st'] says that [st'] differs from [st] at most in the
    contents of queues and in the transports: the registry (topics, the
    binding and the topic set of every record, statistics, configuration)
    is the same. *)
Record delivery (st st' : PubSubSystem) : Prop := {
  dl_topics : topics st' = topics st;
  dl_stats : stats st' = stats st;
  dl_maxQueueSize : maxQueueSize st' = maxQueueSize st;
  dl_ringBufferSize : ringBufferSize st' = ringBufferSize st;
  dl_policy : backpressurePolicy st' = backpressurePolicy st;
  dl_records : ∀ c,
    (λ s, (ws s, stopics s)) <$> subscribers st' !! c
    = (λ s, (ws s, stopics s)) <$> subscribers st !! c
}.

(** The state in which [enqueueMessage] calls [removeSubscriber] under the
    DISCONNECT policy: the error frame is written and the transport closed,
    unless [send] throws. *)
Definition slow_consumer (now : string) (st : PubSubSystem) (w : nat) : PubSubSystem :=
  match ws_send (f_error None "SLOW_CONSUMER" "Subscriber queue overflow" now)
                (socket st w) with
  | Some w' => with_sockets (insert w (ws_close 1008 "SLOW_CONSUMER" w')) st
  | None => st
  end.

(** The state after a successful [enqueueMessage] on a record whose queue
    is [q] once the policy has made room. *)
Definition pushed (st : PubSubSystem) (c : string) (s : Subscriber)
    (q : list Event) (m : Event) : PubSubSystem :=
  flushSubscriberQueue
    (with_subscribers (insert c (set_queue (q ++ [m]) s)) st) c.

(** The four ways through [enqueueMessage]. *)
Inductive enqueue_case (now : string) (st : PubSubSystem) (c : string) (m : Event)
    : PubSubSystem * result unit → Prop :=
| enq_not_found :
    subscribers st !! c = None →
    enqueue_case now st c m (st, Throw "SUBSCRIBER_NOT_FOUND")
| enq_disconnected s :
    subscribers st !! c = Some s →
    readyState (socket st (ws s)) ≠ 1 →
    enqueue_case now st c m (removeSubscriber st c, Throw "SUBSCRIBER_DISCONNECTED")
| enq_slow s :
    subscribers st !! c = Some s →
    readyState (socket st (ws s)) = 1 →
    maxQueueSize st ≤ length (queue s) →
    backpressurePolicy st = DISCONNECT →
    enqueue_case now st c m
      (removeSubscriber (slow_consumer now st (ws s)) c, Throw "SLOW_CONSUMER")
| enq_drop s :
    subscribers st !! c = Some s →
    readyState (socket st (ws s)) = 1 →
    maxQueueSize st ≤ length (queue s) →
    backpressurePolicy st = DROP_OLDEST →
    enqueue_case now st c m (pushed st c s (shift (queue s)) m, Ok ())
| enq_room s :
    subscribers st !! c = Some s →
    readyState (socket st (ws s)) = 1 →
    length (queue s) < maxQueueSize st →
    enqueue_case now st c m (pushed st c s (queue s) m, Ok ()).

(** ** Bidirectional membership (I1, I2) *)

(** Every client a topic lists has a record that lists the topic, and
    every topic a record lists exists and lists the client. *)
Record Membership (st : PubSubSystem) : Prop := {
  mem_topic : ∀ t tp c,
    topics st !! t = Some tp → c ∈ tsubscribers tp →
    ∃ s, subscribers st !! c = Some s ∧ t ∈ stopics s;
  mem_record : ∀ c s t,
    subscribers st !! c = Some s → t ∈ stopics s →
    ∃ tp, topics st !! t = Some tp ∧ c ∈ tsubscribers tp
}.

(** ** Configuration, statistics and queue bounds *)

(** The configuration is fixed at construction. *)
Definition same_config (st st' : PubSubSystem) : Prop :=
  maxQueueSize st' = maxQueueSize st
  ∧ ringBufferSize st' = ringBufferSize st
  ∧ backpressurePolicy st' = backpressurePolicy st.

(** Every topic has its statistics entry. *)
Definition StatsDom (st : PubSubSystem) : Prop :=
  ∀ t, is_Some (topics st !! t) → is_Some (topicStats (stats st) !! t).

(** I4: no outbound queue is longer than [maxQueueSize], which is positive. *)
Definition QueueBound (st : PubSubSystem) : Prop :=
  1 ≤ maxQueueSize st
  ∧ ∀ c s, subscribers st !! c = Some s → length (queue s) ≤ maxQueueSize st.

(** ** Publish streams and replay history *)

(** The suffix of [l] of length [k]; all of [l] when [l] is shorter. *)
Definition suffix_of_length {A} (k : nat) (l : list A) : list A :=
  drop (length l - k) l.

(** The publish stream of every existing topic: the events published to it
    since it was created, oldest first.  It is a function of the operations
    alone: a topic exists from its creation to its deletion. *)
Definition stream_step (g : gmap string (list Event)) (op : Op)
    : gmap string (list Event) :=
  match op with
  | op_createTopic t =>
      match g !! t with
      | None => <[t := []]> g
      | Some _ => g
      end
  | op_deleteTopic _ t => delete t g
  | op_publish now t m =>
      alter (λ l, l ++ [{| ev_topic := t; ev_message := m; ev_ts := now |}]) t g
  | _ => g
  end.

Definition streams (ops : list Op) : gmap string (list Event) :=
  foldl stream_step ∅ ops.

(** I3 with P2: the history of every topic is the suffix of its publish
    stream that fits the ring. *)
Definition History (st : PubSubSystem) (g : gmap string (list Event)) : Prop :=
  ∀ t, messageHistory <$> topics st !! t
       = suffix_of_length (ringBufferSize st) <$> g !! t.

(** ** Replay *)

(** A chain of successful [enqueueMessage] calls for one client: the
    events of the list are enqueued one after the other, none is refused. *)
Inductive enqueues (now c : string)
    : list Event → PubSubSystem → PubSubSystem → Prop :=
| enqueues_nil st : enqueues now c [] st st
| enqueues_cons m l st st1 st2 :
    enqueueMessage now st c m = (st1, Ok ()) →
    enqueues now c l st1 st2 →
    enqueues now c (m :: l) st st2.

(** The record [subscribe] works on: the one registered under [c], or the
    fresh one it creates around the transport [w]. *)
Definition record_of (st : PubSubSystem) (c : string) (w : nat) : Subscriber :=
  default {| ws := w; stopics := []; queue := [] |} (subscribers st !! c).

(** The last [min(n, |history|)] events of a topic's history. *)
Definition last_events (n : Z) (topic : Topic) : list Event :=
  suffix_of_length (Z.to_nat n `min` length (messageHistory topic))
    (messageHistory topic).

(** [subscribe now st c w t n] succeeds and enqueues exactly the events [l]
    for [c], in order: after the registration (state [st1], transports
    untouched) comes a chain of successful enqueues of [l]; the record ends
    joined to [t] and bound to the transport it was bound to; no other
    transport is written to; and when the queue had room for [l], what the
    client has been sent and is still owed grew by exactly [l]. *)
Definition subscribe_enqueues (now : string) (st : PubSubSystem) (c : string)
    (w : nat) (t : string) (n : Z) (l : list Event) : Prop :=
  let s0 := record_of st c w in
  ∃ st1 st' s',
    subscribe now st c w t n = (st', Ok (subscribed t c))
    ∧ subscribers st1 !! c = Some (set_stopics (set_add t) s0)
    ∧ sockets st1 = sockets st
    ∧ enqueues now c l st1 st'
    ∧ subscribers st' !! c = Some s'
    ∧ ws s' = ws s0
    ∧ t ∈ stopics s'
    ∧ (∀ x, x ≠ ws s0 → socket st' x = socket st x)
    ∧ (length (queue s0) + length l ≤ maxQueueSize st →
       sent (socket st' (ws s0)) ++ (f_event <$> queue s')
       = sent (socket st (ws s0)) ++ (f_event <$> (queue s0 ++ l))).

(** ** Topic deletion *)

(** The number of clients of [l] whose record is bound to the transport [w]. *)
Definition bound_to (st : PubSubSystem) (w : nat) (l : list string) : nat :=
  length (filter (λ c, ws <$> subscribers st !! c = Some w) l).

(** A transport after [k] more frames [f] were written to it. *)
Definition after_frames (k : nat) (f : Frame) (x : WebSocket) : WebSocket :=
  {| readyState := readyState x; sendBudget := sendBudget x - k;
     sent := sent x ++ replicate k f; closeCall := closeCall x |}.

(** The number of [topic_deleted] frames a transport takes when [n] of the
    notified clients are bound to it: none unless it is open, and no more
    than it accepts. *)
Definition notified (x : WebSocket) (n : nat) : nat :=
  if decide (readyState x = 1) then n `min` sendBudget x else 0.

(** ** Sets without duplicates *)

(** A JS [Set] holds no element twice: neither does any subscriber set or
    topic set of the registry. *)
Definition NoDupSets (st : PubSubSystem) : Prop :=
  (∀ t tp, topics st !! t = Some tp → NoDup (tsubscribers tp))
  ∧ (∀ c s, subscribers st !! c = Some s → NoDup (stopics s)).

(** ** Observability *)


(** [getHealth()]: [{uptime_sec, topics, subscribers}].  [startTime] is the
    clock reading the constructor stored, [now] the one [getHealth] takes. *)
Record Health := {
  uptime_sec : Z;
  health_topics : nat;
  health_subscribers : nat
}.

Definition getHealth (startTime now : Z) (st : PubSubSystem) : Health :=
  {| uptime_sec := ((now - startTime) / 1000)%Z;
     health_topics := size (topics st);
     health_subscribers := size (subscribers st) |}.

(** The statistics entry of every topic counts the publishes since the
    topic was created and the subscribers it has now; there is no entry
    for a topic that does not exist. *)
Definition StatsAgree (st : PubSubSystem) (g : gmap string (list Event)) : Prop :=
  ∀ t, topicStats (stats st) !! t
       = match topics st !! t, g !! t with
         | Some tp, Some s =>
             Some {| messages := length s;
                     nsubscribers := length (tsubscribers tp) |}
         | _, _ => None
         end.

(** ** Bindings *)

(** Every record of [st'] was already a record of [st], bound to the same
    transport: no record was created or bound anew. *)
Definition bindings_kept (st st' : PubSubSystem) : Prop :=
  ∀ c s', subscribers st' !! c = Some s' →
          ∃ s, subscribers st !! c = Some s ∧ ws s = ws s'.

(** ** Shutdown *)

(** [gracefulShutdown()].  Its two loops run over the entries of the map
    [subscribers] in the order the map iterates, the order in which the
    records were inserted: [order] is that list of client ids.
    [flushSubscriberQueue] returns no promise, so what the first loop
    collects is settled when the function awaits it and the second loop
    follows the first with no other operation between them.  The flag
    [isShuttingDown] is written by this function and read nowhere. *)
Definition flush_open (st : PubSubSystem) (clientId : string) : PubSubSystem :=
  match subscribers st !! clientId with
  | Some subscriber =>
      if decide (readyState (socket st (ws subscriber)) = 1)
      then flushSubscriberQueue st clientId
      else st
  | None => st
  end.

Definition close_open (st : PubSubSystem) (clientId : string) : PubSubSystem :=
  match subscribers st !! clientId with
  | Some subscriber =>
      if decide (readyState (socket st (ws subscriber)) = 1)
      then with_sockets
             (insert (ws subscriber)
                (ws_close 1001 "Server shutting down" (socket st (ws subscriber))))
             st
      else st
  | None => st
  end.

Definition gracefulShutdown (order : list string) (st : PubSubSystem) : PubSubSystem :=
  foldl close_open (foldl flush_open st order) order.

(** ** The subscriber counter *)

(** [stats.totalSubscribers] is the number of subscriber records. *)
Definition Counted (st : PubSubSystem) : Prop :=
  totalSubscribers (stats st) = Z.of_nat (size (subscribers st)).

(** ** Letter case *)

(** The character [-]. *)
Definition dash : Ascii.ascii := Ascii.ascii_of_nat 45.

(** A string with its ASCII letters in lower case, and in upper case. *)
Definition lower (c : Ascii.ascii) : Ascii.ascii :=
  if between 65 90 c then Ascii.ascii_of_nat (Ascii.nat_of_ascii c + 32) else c.

Definition upper (c : Ascii.ascii) : Ascii.ascii :=
  if between 97 122 c then Ascii.ascii_of_nat (Ascii.nat_of_ascii c - 32) else c.

Fixpoint map_string (f : Ascii.ascii → Ascii.ascii) (str : string) : string :=
  match str with
  | EmptyString => EmptyString
  | String c str' => String (f c) (map_string f str')
  end.

(** ** The registry seen by a session *)

(** The registry: topics, subscriber records and statistics, that is the
    state but for the configuration and the transports. *)
Definition registry (st : PubSubSystem)
    : gmap string Topic * gmap string Subscriber * Stats :=
  (topics st, subscribers st, stats st).

(** ** Sample data *)

Definition U (n : string) : Message := {| id := n; payload := "{}" |}.

Definition E (topic n ts : string) : Event :=
  {| ev_topic := topic; ev_message := U n; ev_ts := ts |}.

Definition default_options : Options :=
  {| opt_maxQueueSize := None; opt_ringBufferSize := None;
     opt_backpressurePolicy := None |}.

(** One topic, one open connection, one subscriber. *)
Definition ops_one_subscriber : list Op :=
  [op_createTopic "orders"; op_transport 1 1 100;
   op_subscribe "t0" "a" 1 "orders" 0].

(** A ring of two slots and three publishes. *)
Definition options_ring2 : Options :=
  {| opt_maxQueueSize := None; opt_ringBufferSize := Some 2;
     opt_backpressurePolicy := None |}.

Definition ops_three_publishes : list Op :=
  [op_createTopic "orders";
   op_publish "t1" "orders" (U "U1");
   op_publish "t2" "orders" (U "U2");
   op_publish "t3" "orders" (U "U3")].

(** A queue of two slots under DROP_OLDEST, a stalled transport (open, but
    [send] throws) and two publishes: the queue is full. *)
Definition options_queue2 : Options :=
  {| opt_maxQueueSize := Some 2; opt_ringBufferSize := None;
     opt_backpressurePolicy := Some DROP_OLDEST |}.

Definition ops_stalled : list Op :=
  [op_createTopic "orders"; op_transport 1 1 0;
   op_subscribe "t0" "a" 1 "orders" 0;
   op_publish "t1" "orders" (U "E1");
   op_publish "t2" "orders" (U "E2")].

(** A subscriber whose transport has gone away, alone and next to a
    healthy one. *)
Definition ops_closed_subscriber : list Op :=
  [op_createTopic "orders"; op_transport 1 1 100;
   op_subscribe "t0" "a" 1 "orders" 0;
   op_transport 1 3 0].

Definition ops_closed_and_open : list Op :=
  [op_createTopic "orders"; op_transport 1 1 100; op_transport 2 1 100;
   op_subscribe "t0" "a" 1 "orders" 0;
   op_subscribe "t0" "b" 2 "orders" 0;
   op_transport 1 3 0].

(** A client connects, is assigned the identity [srv-1] by the server,
    subscribes under its own [client_id] [a], and the connection closes. *)
Definition subscribe_request (topic client_id : string) (last_n : option Z)
    : ClientMessage :=
  {| m_type := Some "subscribe"; m_topic := Some topic;
     m_client_id := Some client_id; m_last_n := last_n;
     m_request_id := Some "r1"; m_message := None |}.

Definition session_then_close : PubSubSystem :=
  let st0 := run [op_createTopic "orders"; op_transport 1 1 100]
                 (new_PubSubSystem default_options) in
  let '(st1, session) := handleConnection "t0" st0 1 "srv-1" in
  let st2 := handleSubscribe "t1" st1 1 (subscribe_request "orders" "a" None) in
  on_close st2 session.

(** Two topics; [a] has joined [other] only. *)
Definition ops_other_topic : list Op :=
  [op_createTopic "orders"; op_createTopic "other"; op_transport 1 1 100;
   op_subscribe "t0" "a" 1 "other" 0].

(** Three publishes, then a connection that is open but stalled. *)
Definition ops_history_stalled : list Op :=
  ops_three_publishes ++ [op_transport 1 1 0].

(** Three publishes, then a healthy connection. *)
Definition ops_history_open : list Op :=
  ops_three_publishes ++ [op_transport 1 1 100].

Definition options_disconnect1 : Options :=
  {| opt_maxQueueSize := Some 1; opt_ringBufferSize := None;
     opt_backpressurePolicy := Some DISCONNECT |}.

Definition options_ring0 : Options :=
  {| opt_maxQueueSize := None; opt_ringBufferSize := Some 0;
     opt_backpressurePolicy := None |}.

Definition ops_one_publish : list Op :=
  [op_createTopic "orders"; op_publish "t1" "orders" (U "U1");
   op_transport 1 1 100].

(** One subscriber on a connection that is open but stalled. *)
Definition ops_stalled_subscriber : list Op :=
  [op_createTopic "orders"; op_transport 1 1 0;
   op_subscribe "t0" "a" 1 "orders" 0].

(** Two subscribers of one topic on one healthy connection. *)
Definition ops_two_on_one_socket : list Op :=
  [op_createTopic "orders"; op_transport 1 1 100;
   op_subscribe "t0" "a" 1 "orders" 0;
   op_subscribe "t0" "b" 1 "orders" 0].

(** [a] is registered over connection 1; connection 2 is another, healthy
    one; the topic has three events to replay. *)
Definition ops_registered_then_history : list Op :=
  [op_createTopic "orders"; op_createTopic "other";
   op_transport 1 1 100; op_transport 2 1 100;
   op_subscribe "t0" "a" 1 "other" 0;
   op_publish "t1" "orders" (U "U1");
   op_publish "t2" "orders" (U "U2");
   op_publish "t3" "orders" (U "U3")].

(** The same, and then the connection goes away. *)
Definition ops_stalled_then_closed : list Op :=
  ops_stalled ++ [op_transport 1 3 0].

(** A full queue of one slot under DISCONNECT, over a stalled connection
    and over one that still takes frames. *)
Definition ops_full_queue (sendBudget0 : nat) : list Op :=
  [op_createTopic "orders"; op_transport 1 1 0;
   op_subscribe "t0" "a" 1 "orders" 0;
   op_publish "t1" "orders" (U "E1");
   op_transport 1 1 sendBudget0].

(** Two topics with one subscriber each, on separate healthy connections. *)
Definition ops_two_topics : list Op :=
  [op_createTopic "orders"; op_createTopic "other";
   op_transport 1 1 100; op_transport 2 1 100;
   op_subscribe "t0" "a" 1 "orders" 0;
   op_subscribe "t0" "b" 2 "other" 0].

Definition publish_request (topic : string) (message : Message) : ClientMessage :=
  {| m_type := Some "publish"; m_topic := Some topic; m_client_id := None;
     m_last_n := None; m_request_id := Some "r2"; m_message := Some message |}.

Definition unsubscribe_request (topic client_id : string) : ClientMessage :=
  {| m_type := Some "unsubscribe"; m_topic := Some topic;
     m_client_id := Some client_id; m_last_n := None;
     m_request_id := Some "r3"; m_message := None |}.

Definition sample_uuid : string := "123e4567-e89b-42d3-A456-426614174000".

(** * Properties *)

(** ** Sets as insertion-ordered lists *)

Lemma elem_of_set_add x y (s : list string) :
  y ∈ set_add x s ↔ y = x ∨ y ∈ s.
Proof.
  unfold set_add. case_decide as Hx.
  - split; [auto | intros [-> | ?]; done].
  - rewrite elem_of_app, list_elem_of_singleton. tauto.
Qed.

Lemma elem_of_set_delete x y (s : list string) :
  y ∈ set_delete x s ↔ y ≠ x ∧ y ∈ s.
Proof. unfold set_delete. by rewrite list_elem_of_filter. Qed.

Lemma set_delete_notin x (s : list string) : x ∉ s → set_delete x s = s.
Proof.
  intros Hx. unfold set_delete. induction s as [|y s IH]; [done|].
  rewrite filter_cons. case_decide as Hy.
  - f_equal. apply IH. intros ?. apply Hx. by right.
  - exfalso. apply Hx. subst. by left.
Qed.

Lemma set_delete_idemp x (s : list string) :
  set_delete x (set_delete x s) = set_delete x s.
Proof. apply set_delete_notin. rewrite elem_of_set_delete. tauto. Qed.

Lemma NoDup_set_add x (s : list string) : NoDup s → NoDup (set_add x s).
Proof.
  intros Hs. unfold set_add. case_decide; [done|].
  apply NoDup_app. split_and!; [done| |apply NoDup_singleton].
  intros y Hy ->%list_elem_of_singleton. done.
Qed.

Lemma NoDup_set_delete x (s : list string) : NoDup s → NoDup (set_delete x s).
Proof. apply NoDup_filter. Qed.

(** ** What each operation touches *)

Lemma set_tsubscribers_idemp c (tp : Topic) :
  set_tsubscribers (set_delete c) (set_tsubscribers (set_delete c) tp)
  = set_tsubscribers (set_delete c) tp.
Proof. destruct tp. unfold set_tsubscribers. simpl. by rewrite set_delete_idemp. Qed.

Lemma remove_from_topic_topics c st x t :
  topics (remove_from_topic c st x) !! t
  = if decide (t = x) then set_tsubscribers (set_delete c) <$> topics st !! t
    else topics st !! t.
Proof.
  unfold remove_from_topic.
  destruct (topics st !! x) as [tp|] eqn:E; simpl.
  - destruct (topicStats (stats st) !! x); simpl;
      case_decide; subst; rewrite ?lookup_insert_eq, ?E; try done;
      by rewrite lookup_insert_ne.
  - case_decide; subst; by rewrite ?E.
Qed.

Lemma remove_from_topic_frame c st x :
  subscribers (remove_from_topic c st x) = subscribers st
  ∧ sockets (remove_from_topic c st x) = sockets st
  ∧ maxQueueSize (remove_from_topic c st x) = maxQueueSize st
  ∧ ringBufferSize (remove_from_topic c st x) = ringBufferSize st
  ∧ backpressurePolicy (remove_from_topic c st x) = backpressurePolicy st.
Proof.
  unfold remove_from_topic.
  destruct (topics st !! x); simpl; [|done].
  by destruct (topicStats (stats st) !! x).
Qed.

Lemma remove_from_topic_stats c st x t :
  is_Some (topicStats (stats (remove_from_topic c st x)) !! t)
  ↔ is_Some (topicStats (stats st) !! t).
Proof.
  unfold remove_from_topic.
  destruct (topics st !! x); simpl; [|done].
  destruct (topicStats (stats st) !! x) eqn:E; simpl; [|done].
  destruct (decide (t = x)) as [->|].
  - rewrite lookup_insert_eq, E. split; eauto.
  - by rewrite lookup_insert_ne.
Qed.

Lemma fold_remove_topics c l st t :
  topics (foldl (remove_from_topic c) st l) !! t
  = if decide (t ∈ l) then set_tsubscribers (set_delete c) <$> topics st !! t
    else topics st !! t.
Proof.
  revert st. induction l as [|x l IH]; intros st; cbn [foldl].
  - case_decide as H; [by apply elem_of_nil in H | done].
  - rewrite IH, remove_from_topic_topics.
    pose proof (elem_of_cons l t x) as Hc.
    destruct (decide (t ∈ l)) as [?|?], (decide (t = x)) as [?|?],
      (decide (t ∈ x :: l)) as [?|?]; try (exfalso; tauto);
      simplify_eq; try done.
    destruct (topics st !! x); simpl; [|done]. by rewrite set_tsubscribers_idemp.
Qed.

Lemma fold_remove_frame c l st :
  subscribers (foldl (remove_from_topic c) st l) = subscribers st
  ∧ sockets (foldl (remove_from_topic c) st l) = sockets st
  ∧ maxQueueSize (foldl (remove_from_topic c) st l) = maxQueueSize st
  ∧ ringBufferSize (foldl (remove_from_topic c) st l) = ringBufferSize st
  ∧ backpressurePolicy (foldl (remove_from_topic c) st l) = backpressurePolicy st.
Proof.
  revert st. induction l as [|x l IH]; intros st; simpl; [done|].
  destruct (IH (remove_from_topic c st x)) as (-> & -> & -> & -> & ->).
  apply remove_from_topic_frame.
Qed.

Lemma fold_remove_stats c l st t :
  is_Some (topicStats (stats (foldl (remove_from_topic c) st l)) !! t)
  ↔ is_Some (topicStats (stats st) !! t).
Proof.
  revert st. induction l as [|x l IH]; intros st; simpl; [done|].
  by rewrite IH, remove_from_topic_stats.
Qed.

(** [removeSubscriber] deletes the record and takes the client out of the
    topics the record lists. *)
Lemma removeSubscriber_subscribers st c :
  subscribers (removeSubscriber st c) = delete c (subscribers st).
Proof.
  unfold removeSubscriber. destruct (subscribers st !! c) eqn:E; simpl.
  - by destruct (fold_remove_frame c (stopics s) st) as (-> & _).
  - by rewrite delete_id.
Qed.

Lemma removeSubscriber_topics st c t :
  topics (removeSubscriber st c) !! t
  = match subscribers st !! c with
    | Some s =>
        if decide (t ∈ stopics s)
        then set_tsubscribers (set_delete c) <$> topics st !! t
        else topics st !! t
    | None => topics st !! t
    end.
Proof.
  unfold removeSubscriber. destruct (subscribers st !! c); simpl; [|done].
  apply fold_remove_topics.
Qed.

Lemma removeSubscriber_frame st c :
  sockets (removeSubscriber st c) = sockets st
  ∧ maxQueueSize (removeSubscriber st c) = maxQueueSize st
  ∧ ringBufferSize (removeSubscriber st c) = ringBufferSize st
  ∧ backpressurePolicy (removeSubscriber st c) = backpressurePolicy st.
Proof.
  unfold removeSubscriber. destruct (subscribers st !! c); simpl; [|done].
  by destruct (fold_remove_frame c (stopics s) st) as (_ & -> & -> & -> & ->).
Qed.

Lemma removeSubscriber_stats st c t :
  is_Some (topicStats (stats (removeSubscriber st c)) !! t)
  ↔ is_Some (topicStats (stats st) !! t).
Proof.
  unfold removeSubscriber. destruct (subscribers st !! c); simpl; [|done].
  apply fold_remove_stats.
Qed.

Lemma removeSubscriber_history st c t :
  messageHistory <$> topics (removeSubscriber st c) !! t
  = messageHistory <$> topics st !! t.
Proof.
  rewrite removeSubscriber_topics.
  destruct (subscribers st !! c); [|done].
  case_decide; [|done]. by destruct (topics st !! t).
Qed.

(** ** Draining a queue into its transport *)

(** [drain] writes the first [min |q| sendBudget] events, in order, and
    leaves the rest queued. *)
Lemma drain_eq q w :
  let k := length q `min` sendBudget w in
  drain q w =
    (drop k q,
     {| readyState := readyState w; sendBudget := sendBudget w - k;
        sent := sent w ++ (f_event <$> take k q); closeCall := closeCall w |}).
Proof.
  revert w. induction q as [|m q IH]; intros [rs b snt cc]; simpl.
  - by rewrite app_nil_r, Nat.sub_0_r.
  - unfold ws_send. simpl. destruct b as [|b]; simpl.
    + by rewrite app_nil_r.
    + rewrite IH. simpl. by rewrite <- app_assoc.
Qed.

Lemma drain_length q w : length (drain q w).1 ≤ length q.
Proof. rewrite drain_eq. simpl. rewrite length_drop. lia. Qed.

Lemma drain_readyState q w : readyState (drain q w).2 = readyState w.
Proof. by rewrite drain_eq. Qed.

Lemma drain_stream q w :
  sent (drain q w).2 ++ (f_event <$> (drain q w).1) = sent w ++ (f_event <$> q).
Proof.
  rewrite drain_eq. simpl. rewrite <- app_assoc, <- fmap_app.
  by rewrite take_drop.
Qed.

Lemma delivery_refl st : delivery st st.
Proof. by split. Qed.

Lemma delivery_trans st1 st2 st3 :
  delivery st1 st2 → delivery st2 st3 → delivery st1 st3.
Proof.
  intros [] []. split; congruence.
Qed.

Lemma delivery_sockets f st : delivery st (with_sockets f st).
Proof. by split. Qed.

Lemma delivery_queue st c s q :
  subscribers st !! c = Some s →
  delivery st (with_subscribers (insert c (set_queue q s)) st).
Proof.
  intros Hs. split; try done. intros c'. simpl.
  destruct (decide (c' = c)) as [->|].
  - by rewrite lookup_insert_eq, Hs.
  - by rewrite lookup_insert_ne.
Qed.

Lemma flushSubscriberQueue_eq st c s :
  subscribers st !! c = Some s →
  readyState (socket st (ws s)) = 1 →
  flushSubscriberQueue st c =
    with_sockets (insert (ws s) (drain (queue s) (socket st (ws s))).2)
      (with_subscribers
         (insert c (set_queue (drain (queue s) (socket st (ws s))).1 s)) st).
Proof.
  intros Hs Hopen. unfold flushSubscriberQueue. rewrite Hs.
  rewrite decide_True by done. by destruct (drain _ _).
Qed.

Lemma flushSubscriberQueue_delivery st c : delivery st (flushSubscriberQueue st c).
Proof.
  unfold flushSubscriberQueue.
  destruct (subscribers st !! c) as [s|] eqn:Hs; [|apply delivery_refl].
  case_decide; [|apply delivery_refl].
  destruct (drain _ _) as [q w].
  eapply delivery_trans; [by apply (delivery_queue st c s q)|apply delivery_sockets].
Qed.

Lemma slow_consumer_delivery now st w : delivery st (slow_consumer now st w).
Proof.
  unfold slow_consumer. destruct (ws_send _ _); [apply delivery_sockets|apply delivery_refl].
Qed.

Lemma enqueueMessage_case now st c m :
  enqueue_case now st c m (enqueueMessage now st c m).
Proof.
  unfold enqueueMessage.
  destruct (subscribers st !! c) as [s|] eqn:Hs; [|by constructor].
  case_decide as Hopen; [|by econstructor].
  case_decide as Hfull.
  - destruct (backpressurePolicy st) eqn:Hp.
    + by eapply enq_drop.
    + by eapply (enq_slow now st c m s).
  - eapply enq_room; [done..|lia].
Qed.

Lemma pushed_delivery st c s q m :
  subscribers st !! c = Some s → delivery st (pushed st c s q m).
Proof.
  intros Hs. eapply delivery_trans; [by apply delivery_queue|].
  apply flushSubscriberQueue_delivery.
Qed.

(** ** Invariants of the delivery loops

    A property kept by delivery steps and by [removeSubscriber] is kept by
    [enqueueMessage]; a property kept by [enqueueMessage] is kept by the
    fan-out loop of [publish] and the replay loop of [subscribe]. *)
Section Preservation.
Variable P : PubSubSystem → Prop.

Section Enqueue.
Hypothesis P_delivery : ∀ st st', delivery st st' → P st → P st'.
Hypothesis P_removeSubscriber : ∀ st c, P st → P (removeSubscriber st c).

Lemma enqueueMessage_preserves now st c m :
  P st → P (enqueueMessage now st c m).1.
Proof.
  intros HP. destruct (enqueueMessage_case now st c m); simpl; auto.
  - apply P_removeSubscriber.
    eapply P_delivery; [apply slow_consumer_delivery|done].
  - eapply P_delivery; [by apply pushed_delivery|done].
  - eapply P_delivery; [by apply pushed_delivery|done].
Qed.
End Enqueue.

Section Loops.
Hypothesis P_enqueue : ∀ now st c m, P st → P (enqueueMessage now st c m).1.

Lemma fanout_preserves now l m st : P st → P (fanout now st l m).1.
Proof.
  revert st. induction l as [|c l IH]; intros st HP; simpl; [done|].
  pose proof (P_enqueue now st c m HP) as HP'.
  destruct (enqueueMessage now st c m) as [st' [[]|msg]]; simpl in *.
  - by apply IH.
  - specialize (IH st' HP'). by destruct (fanout now st' l m).
Qed.

Lemma replay_preserves now l c st : P st → P (replay now st c l).1.
Proof.
  revert st. induction l as [|m l IH]; intros st HP; simpl; [done|].
  pose proof (P_enqueue now st c m HP) as HP'.
  destruct (enqueueMessage now st c m) as [st' [[]|msg]]; simpl in *; auto.
Qed.
End Loops.
End Preservation.

Lemma fmap_lookup_Some {A B} (f : A → B) (o o' : option A) (a' : A) :
  f <$> o' = f <$> o → o' = Some a' → ∃ a, o = Some a ∧ f a = f a'.
Proof. intros H ->. destruct o; simplify_eq/=; eauto. Qed.

Lemma Membership_ext st st' :
  (∀ t, tsubscribers <$> topics st' !! t = tsubscribers <$> topics st !! t) →
  (∀ c, stopics <$> subscribers st' !! c = stopics <$> subscribers st !! c) →
  Membership st → Membership st'.
Proof.
  intros HT HS [Ha Hb]. split.
  - intros t tp' c Ht Hc.
    destruct (fmap_lookup_Some _ _ _ _ (HT t) Ht) as (tp & Htp & Heq).
    rewrite <- Heq in Hc. destruct (Ha t tp c Htp Hc) as (s & Hs & Hin).
    symmetry in HS.
    destruct (fmap_lookup_Some _ _ _ _ (HS c) Hs) as (s' & Hs' & Heq').
    exists s'. split; [done|]. by rewrite Heq'.
  - intros c s' t Hs Ht.
    destruct (fmap_lookup_Some _ _ _ _ (HS c) Hs) as (s & Hs0 & Heq).
    rewrite <- Heq in Ht. destruct (Hb c s t Hs0 Ht) as (tp & Htp & Hin).
    symmetry in HT.
    destruct (fmap_lookup_Some _ _ _ _ (HT t) Htp) as (tp' & Htp' & Heq').
    exists tp'. split; [done|]. by rewrite Heq'.
Qed.

Lemma delivery_stopics st st' c :
  delivery st st' →
  stopics <$> subscribers st' !! c = stopics <$> subscribers st !! c.
Proof.
  intros [_ _ _ _ _ H]. specialize (H c).
  destruct (subscribers st' !! c), (subscribers st !! c); simpl in *; congruence.
Qed.

Lemma Membership_delivery st st' :
  delivery st st' → Membership st → Membership st'.
Proof.
  intros Hd. apply Membership_ext.
  - intros t. by rewrite (dl_topics _ _ Hd).
  - intros c. by apply delivery_stopics.
Qed.

Lemma Membership_removeSubscriber st c :
  Membership st → Membership (removeSubscriber st c).
Proof.
  intros [Ha Hb].
  destruct (subscribers st !! c) as [s0|] eqn:Hc; cycle 1.
  { unfold removeSubscriber. rewrite Hc. by split. }
  split.
  - intros t tp' c' Ht Hin.
    rewrite removeSubscriber_topics, Hc in Ht.
    rewrite removeSubscriber_subscribers.
    assert (∃ tp, topics st !! t = Some tp ∧ c' ∈ tsubscribers tp ∧ c' ≠ c)
      as (tp & Htp & Hin' & Hne).
    { case_decide as Hts.
      - destruct (topics st !! t) as [tp|]; simplify_eq/=.
        apply elem_of_set_delete in Hin as [??]. eauto.
      - exists tp'. split_and!; [done..|]. intros ->.
        destruct (Ha t tp' c Ht Hin) as (s & Hs & Hin'). by simplify_eq. }
    rewrite lookup_delete_ne by done. eauto.
  - intros c' s t Hs Hin.
    rewrite removeSubscriber_subscribers in Hs.
    apply lookup_delete_Some in Hs as [Hne Hs].
    destruct (Hb c' s t Hs Hin) as (tp & Htp & Hin').
    rewrite removeSubscriber_topics, Hc, Htp.
    case_decide; simpl; eexists; (split; [done|]); [|done].
    by apply elem_of_set_delete.
Qed.

Lemma Membership_enqueueMessage now st c m :
  Membership st → Membership (enqueueMessage now st c m).1.
Proof.
  apply enqueueMessage_preserves.
  - apply Membership_delivery.
  - apply Membership_removeSubscriber.
Qed.

Lemma Membership_fanout now l m st :
  Membership st → Membership (fanout now st l m).1.
Proof. apply fanout_preserves, Membership_enqueueMessage. Qed.

Lemma Membership_replay now l c st :
  Membership st → Membership (replay now st c l).1.
Proof. apply replay_preserves, Membership_enqueueMessage. Qed.

Lemma Membership_createTopic st t :
  Membership st → Membership (createTopic st t).1.
Proof.
  intros [Ha Hb]. unfold createTopic.
  destruct (topics st !! t) eqn:Ht; simpl; [by split|].
  split; simpl.
  - intros t' tp c Ht' Hin.
    destruct (decide (t' = t)) as [->|].
    + rewrite lookup_insert_eq in Ht'. simplify_eq/=. by apply elem_of_nil in Hin.
    + rewrite lookup_insert_ne in Ht' by done. eauto.
  - intros c s t' Hs Hin.
    destruct (Hb c s t' Hs Hin) as (tp & Htp & Hin').
    exists tp. split; [|done].
    rewrite lookup_insert_ne; [done|]. intros ->. congruence.
Qed.

(** The two loops of [deleteTopic]. *)
Lemma notify_deleted_delivery t now st c : delivery st (notify_deleted t now st c).
Proof.
  unfold notify_deleted. destruct (subscribers st !! c); [|apply delivery_refl].
  case_decide; [|apply delivery_refl].
  destruct (ws_send _ _); [apply delivery_sockets|apply delivery_refl].
Qed.

Lemma fold_notify_delivery t now l st :
  delivery st (foldl (notify_deleted t now) st l).
Proof.
  revert st. induction l as [|c l IH]; intros st; simpl; [apply delivery_refl|].
  eapply delivery_trans; [apply notify_deleted_delivery|apply IH].
Qed.

Lemma detach_topic_subscribers t st x c :
  subscribers (detach_topic t st x) !! c
  = if decide (c = x) then set_stopics (set_delete t) <$> subscribers st !! c
    else subscribers st !! c.
Proof.
  unfold detach_topic. destruct (subscribers st !! x) eqn:E; simpl.
  - case_decide; subst; [by rewrite lookup_insert_eq, E|by rewrite lookup_insert_ne].
  - case_decide; subst; by rewrite ?E.
Qed.

Lemma detach_topic_frame t st x :
  topics (detach_topic t st x) = topics st
  ∧ stats (detach_topic t st x) = stats st
  ∧ sockets (detach_topic t st x) = sockets st
  ∧ maxQueueSize (detach_topic t st x) = maxQueueSize st
  ∧ ringBufferSize (detach_topic t st x) = ringBufferSize st
  ∧ backpressurePolicy (detach_topic t st x) = backpressurePolicy st.
Proof. unfold detach_topic. by destruct (subscribers st !! x). Qed.

Lemma set_stopics_idemp t (s : Subscriber) :
  set_stopics (set_delete t) (set_stopics (set_delete t) s)
  = set_stopics (set_delete t) s.
Proof. destruct s. unfold set_stopics. simpl. by rewrite set_delete_idemp. Qed.

Lemma fold_detach_subscribers t l st c :
  subscribers (foldl (detach_topic t) st l) !! c
  = if decide (c ∈ l) then set_stopics (set_delete t) <$> subscribers st !! c
    else subscribers st !! c.
Proof.
  revert st. induction l as [|x l IH]; intros st; cbn [foldl].
  - case_decide as H; [by apply elem_of_nil in H | done].
  - rewrite IH, detach_topic_subscribers.
    pose proof (elem_of_cons l c x) as Hc.
    destruct (decide (c ∈ l)) as [?|?], (decide (c = x)) as [?|?],
      (decide (c ∈ x :: l)) as [?|?]; try (exfalso; tauto);
      simplify_eq; try done.
    destruct (subscribers st !! x); simpl; [|done]. by rewrite set_stopics_idemp.
Qed.

Lemma fold_detach_frame t l st :
  topics (foldl (detach_topic t) st l) = topics st
  ∧ stats (foldl (detach_topic t) st l) = stats st
  ∧ sockets (foldl (detach_topic t) st l) = sockets st
  ∧ maxQueueSize (foldl (detach_topic t) st l) = maxQueueSize st
  ∧ ringBufferSize (foldl (detach_topic t) st l) = ringBufferSize st
  ∧ backpressurePolicy (foldl (detach_topic t) st l) = backpressurePolicy st.
Proof.
  revert st. induction l as [|x l IH]; intros st; simpl; [done|].
  destruct (IH (detach_topic t st x)) as (-> & -> & -> & -> & -> & ->).
  apply detach_topic_frame.
Qed.

Lemma Membership_deleteTopic now st t :
  Membership st → Membership (deleteTopic now st t).1.
Proof.
  intros HM. unfold deleteTopic.
  destruct (topics st !! t) as [topic|] eqn:Ht; simpl; [|done].
  set (st1 := foldl (notify_deleted t now) st (tsubscribers topic)).
  assert (delivery st st1) as Hd by apply fold_notify_delivery.
  apply (Membership_delivery _ _ Hd) in HM. destruct HM as [Ha Hb].
  rewrite <- (dl_topics _ _ Hd) in Ht. clearbody st1. clear Hd st.
  destruct (fold_detach_frame t (tsubscribers topic) st1) as (HT & _).
  split; simpl; rewrite HT.
  - intros t' tp c [Hne Ht']%lookup_delete_Some Hin.
    destruct (Ha t' tp c Ht' Hin) as (s & Hs & Hin').
    rewrite fold_detach_subscribers, Hs.
    case_decide; simpl; eexists; (split; [done|]); [|done].
    simpl. apply elem_of_set_delete. split; [congruence|done].
  - intros c s' t' Hs Hin. rewrite fold_detach_subscribers in Hs.
    assert (∃ s, subscribers st1 !! c = Some s ∧ t' ∈ stopics s ∧ t' ≠ t)
      as (s & Hs1 & Hin1 & Hne).
    { case_decide as Hcl.
      - destruct (subscribers st1 !! c) as [s|]; simplify_eq/=.
        apply elem_of_set_delete in Hin as [??]. eauto.
      - exists s'. split_and!; [done..|]. intros ->.
        destruct (Hb c s' t Hs Hin) as (tp & Htp & Hin'). by simplify_eq. }
    destruct (Hb c s t' Hs1 Hin1) as (tp & Htp & Hin').
    exists tp. by rewrite lookup_delete_ne.
Qed.

(** [join] in terms of lookups. *)
Lemma join_subscribers st c w t topic c' :
  subscribers (join st c w t topic) !! c'
  = if decide (c' = c)
    then Some (set_stopics (set_add t)
                 (default {| ws := w; stopics := []; queue := [] |}
                    (subscribers st !! c)))
    else subscribers st !! c'.
Proof.
  unfold join. simpl. destruct (subscribers st !! c) eqn:E; simpl.
  - case_decide; subst; [by rewrite lookup_alter_eq, E|by rewrite lookup_alter_ne].
  - case_decide; subst.
    + by rewrite lookup_alter_eq, lookup_insert_eq.
    + by rewrite lookup_alter_ne, lookup_insert_ne.
Qed.

Lemma join_topics st c w t topic :
  topics (join st c w t topic)
  = <[t := set_tsubscribers (set_add c) topic]> (topics st).
Proof. unfold join. by destruct (subscribers st !! c). Qed.

Lemma join_frame st c w t topic :
  sockets (join st c w t topic) = sockets st
  ∧ topicStats (stats (join st c w t topic)) = topicStats (stats st)
  ∧ maxQueueSize (join st c w t topic) = maxQueueSize st
  ∧ ringBufferSize (join st c w t topic) = ringBufferSize st
  ∧ backpressurePolicy (join st c w t topic) = backpressurePolicy st.
Proof. unfold join. by destruct (subscribers st !! c). Qed.

Lemma Membership_join st c w t topic :
  topics st !! t = Some topic →
  Membership st → Membership (join st c w t topic).
Proof.
  intros Ht [Ha Hb]. split.
  - intros t' tp' c' Ht' Hin. rewrite join_topics in Ht'.
    rewrite join_subscribers.
    destruct (decide (t' = t)) as [->|Hnet].
    + rewrite lookup_insert_eq in Ht'. simplify_eq/=.
      apply elem_of_set_add in Hin as [->|Hin].
      * rewrite decide_True by done. eexists; split; [done|].
        simpl. apply elem_of_set_add. by left.
      * destruct (Ha t topic c' Ht Hin) as (s & Hs & Hin').
        case_decide; subst; [|eauto].
        rewrite Hs. eexists; split; [done|]. simpl.
        apply elem_of_set_add. by right.
    + rewrite lookup_insert_ne in Ht' by done.
      destruct (Ha t' tp' c' Ht' Hin) as (s & Hs & Hin').
      case_decide; subst; [|eauto].
      rewrite Hs. eexists; split; [done|]. simpl.
      apply elem_of_set_add. by right.
  - intros c' s' t' Hs Hin. rewrite join_subscribers in Hs.
    rewrite join_topics.
    destruct (decide (t' = t)) as [->|Hnet].
    + rewrite lookup_insert_eq. eexists; split; [done|]. simpl.
      apply elem_of_set_add.
      case_decide; subst; [by left|right].
      destruct (Hb c' s' t Hs Hin) as (tp & Htp & Hin'). by simplify_eq.
    + rewrite lookup_insert_ne by done.
      case_decide; subst; [|eauto].
      simplify_eq/=. apply elem_of_set_add in Hin as [?|Hin]; [done|].
      destruct (subscribers st !! c) as [s|] eqn:Hs; simpl in Hin.
      * eauto.
      * by apply elem_of_nil in Hin.
Qed.

Lemma Membership_stats f st : Membership st → Membership (with_stats f st).
Proof. by apply Membership_ext. Qed.

Lemma Membership_subscribe now st c w t n :
  Membership st → Membership (subscribe now st c w t n).1.
Proof.
  intros HM. unfold subscribe.
  destruct (topics st !! t) as [topic|] eqn:Ht; simpl; [|done].
  pose proof (Membership_join st c w t topic Ht HM) as HJ.
  destruct (topicStats _ !! t); simpl; [|done].
  case_decide; simpl; [|by apply Membership_stats].
  match goal with |- context [replay ?a ?b ?c ?d] =>
    pose proof (Membership_replay a d c b (Membership_stats _ _ HJ)) as HR;
    destruct (replay a b c d) as [st' [[]|msg]] end; done.
Qed.

Lemma Membership_unsubscribe st c t :
  Membership st → Membership (unsubscribe st c t).1.
Proof.
  intros [Ha Hb]. unfold unsubscribe.
  destruct (topics st !! t) as [topic|] eqn:Ht; simpl; [|by split].
  destruct (subscribers st !! c) as [s0|] eqn:Hc; simpl; [|by split].
  match goal with |- Membership ?x =>
    assert (topics x = <[t := set_tsubscribers (set_delete c) topic]> (topics st)
            ∧ subscribers x
              = <[c := set_stopics (set_delete t) s0]> (subscribers st))
      as [HT HS] by (by destruct (topicStats _ !! t)); generalize dependent x end.
  intros st' HT HS. split; rewrite HT, HS.
  - intros t' tp' c' Ht' Hin.
    assert (∃ tp, topics st !! t' = Some tp ∧ c' ∈ tsubscribers tp
                  ∧ (t' = t → c' ≠ c)) as (tp & Htp & Hin' & Hne).
    { destruct (decide (t' = t)) as [->|].
      - rewrite lookup_insert_eq in Ht'. simplify_eq/=.
        apply elem_of_set_delete in Hin as [??]. eauto.
      - rewrite lookup_insert_ne in Ht' by done. exists tp'. by split_and!. }
    destruct (Ha t' tp c' Htp Hin') as (s & Hs & Hin'').
    destruct (decide (c' = c)) as [->|].
    + rewrite lookup_insert_eq. eexists; split; [done|]. simplify_eq/=.
      apply elem_of_set_delete. split; [|done]. intros ->. by apply Hne.
    + rewrite lookup_insert_ne by done. eauto.
  - intros c' s' t' Hs Hin.
    assert (∃ s, subscribers st !! c' = Some s ∧ t' ∈ stopics s
                 ∧ (c' = c → t' ≠ t)) as (s & Hs1 & Hin' & Hne).
    { destruct (decide (c' = c)) as [->|].
      - rewrite lookup_insert_eq in Hs. simplify_eq/=.
        apply elem_of_set_delete in Hin as [??]. eauto.
      - rewrite lookup_insert_ne in Hs by done. exists s'. by split_and!. }
    destruct (Hb c' s t' Hs1 Hin') as (tp & Htp & Hin'').
    destruct (decide (t' = t)) as [->|].
    + rewrite lookup_insert_eq. eexists; split; [done|]. simplify_eq/=.
      apply elem_of_set_delete. split; [|done]. intros ->. by apply Hne.
    + rewrite lookup_insert_ne by done. eauto.
Qed.

Lemma Membership_publish now st t m :
  Membership st → Membership (publish now st t m).1.
Proof.
  intros HM. unfold publish.
  destruct (topics st !! t) as [topic|] eqn:Ht; simpl; [|done].
  match goal with |- context [fanout ?a ?b ?c ?d] =>
    assert (Membership b) as HM1; [|
      pose proof (Membership_fanout a c d b HM1) as HF;
      destruct (fanout a b c d) as [st2 failed] ] end.
  { revert HM. apply Membership_ext; [|done]. intros t'. simpl.
    destruct (decide (t' = t)) as [->|].
    - by rewrite lookup_insert_eq, Ht.
    - by rewrite lookup_insert_ne. }
  simpl. by do 2 apply Membership_stats.
Qed.

Lemma Membership_transport st w r b : Membership st → Membership (transport st w r b).
Proof. apply Membership_delivery, delivery_sockets. Qed.

Lemma Membership_new options : Membership (new_PubSubSystem options).
Proof. split; simpl; intros ???; by rewrite lookup_empty. Qed.

Lemma Membership_step st op : Membership st → Membership (step st op).
Proof.
  destruct op; simpl.
  - apply Membership_createTopic.
  - apply Membership_deleteTopic.
  - apply Membership_subscribe.
  - apply Membership_unsubscribe.
  - apply Membership_publish.
  - apply Membership_removeSubscriber.
  - apply Membership_delivery, flushSubscriberQueue_delivery.
  - apply Membership_transport.
Qed.

Lemma Membership_run ops st : Membership st → Membership (run ops st).
Proof.
  revert st. induction ops as [|op ops IH]; intros st HM; simpl; [done|].
  apply IH, Membership_step, HM.
Qed.

(** ** The configuration never changes *)

Lemma same_config_trans st1 st2 st3 :
  same_config st1 st2 → same_config st2 st3 → same_config st1 st3.
Proof. unfold same_config. intros (?&?&?) (?&?&?). split_and!; congruence. Qed.

Lemma same_config_delivery st st' : delivery st st' → same_config st st'.
Proof. intros []. by split_and!. Qed.

Lemma same_config_removeSubscriber st c : same_config st (removeSubscriber st c).
Proof. by destruct (removeSubscriber_frame st c) as (_ & ? & ? & ?). Qed.

Lemma same_config_enqueueMessage now st c m :
  same_config st (enqueueMessage now st c m).1.
Proof.
  apply (enqueueMessage_preserves (same_config st)); [..|done].
  - intros st1 st2 Hd H1. eapply same_config_trans; [done|].
    by apply same_config_delivery.
  - intros st1 c' H1. eapply same_config_trans; [done|].
    apply same_config_removeSubscriber.
Qed.

Lemma same_config_fanout now l m st : same_config st (fanout now st l m).1.
Proof.
  apply (fanout_preserves (same_config st)); [|done].
  intros now' st1 c m' H1. eapply same_config_trans; [done|].
  apply same_config_enqueueMessage.
Qed.

Lemma same_config_replay now l c st : same_config st (replay now st c l).1.
Proof.
  apply (replay_preserves (same_config st)); [|done].
  intros now' st1 c' m' H1. eapply same_config_trans; [done|].
  apply same_config_enqueueMessage.
Qed.

Lemma same_config_createTopic st t : same_config st (createTopic st t).1.
Proof. unfold createTopic. by destruct (topics st !! t). Qed.

Lemma same_config_deleteTopic now st t : same_config st (deleteTopic now st t).1.
Proof.
  unfold deleteTopic. destruct (topics st !! t) as [topic|]; simpl; [|done].
  unfold same_config. simpl.
  destruct (fold_detach_frame t (tsubscribers topic)
              (foldl (notify_deleted t now) st (tsubscribers topic)))
    as (_ & _ & _ & -> & -> & ->).
  apply same_config_delivery, fold_notify_delivery.
Qed.

Lemma same_config_subscribe now st c w t n :
  same_config st (subscribe now st c w t n).1.
Proof.
  unfold subscribe. destruct (topics st !! t) as [topic|]; simpl; [|done].
  assert (same_config st (join st c w t topic)) as HJ.
  { by destruct (join_frame st c w t topic) as (_ & _ & ? & ? & ?). }
  destruct (topicStats _ !! t); simpl; [|done].
  case_decide; simpl; [|done].
  match goal with |- context [replay ?a ?b ?c ?d] =>
    pose proof (same_config_replay a d c b) as HR;
    destruct (replay a b c d) as [st' [[]|msg]] end;
    simpl in *; by eapply same_config_trans.
Qed.

Lemma same_config_unsubscribe st c t : same_config st (unsubscribe st c t).1.
Proof.
  unfold unsubscribe.
  destruct (topics st !! t), (subscribers st !! c); simpl; try done.
  by destruct (topicStats _ !! t).
Qed.

Lemma same_config_publish now st t m : same_config st (publish now st t m).1.
Proof.
  unfold publish. destruct (topics st !! t) as [topic|]; simpl; [|done].
  match goal with |- context [fanout ?a ?b ?c ?d] =>
    pose proof (same_config_fanout a c d b) as HF;
    destruct (fanout a b c d) as [st2 failed] end.
  done.
Qed.

Lemma same_config_step st op : same_config st (step st op).
Proof.
  destruct op; simpl.
  - apply same_config_createTopic.
  - apply same_config_deleteTopic.
  - apply same_config_subscribe.
  - apply same_config_unsubscribe.
  - apply same_config_publish.
  - apply same_config_removeSubscriber.
  - apply same_config_delivery, flushSubscriberQueue_delivery.
  - done.
Qed.

Lemma same_config_run ops st : same_config st (run ops st).
Proof.
  revert st. induction ops as [|op ops IH]; intros st; simpl; [done|].
  eapply same_config_trans; [apply same_config_step|apply IH].
Qed.

(** ** Every topic has a statistics entry *)

Lemma StatsDom_delivery st st' : delivery st st' → StatsDom st → StatsDom st'.
Proof. intros [HT HS _ _ _ _] H t. rewrite HT, HS. apply H. Qed.

Lemma removeSubscriber_topics_is_Some st c t :
  is_Some (topics (removeSubscriber st c) !! t) ↔ is_Some (topics st !! t).
Proof.
  rewrite removeSubscriber_topics. destruct (subscribers st !! c); [|done].
  case_decide; [|done]. by rewrite fmap_is_Some.
Qed.

Lemma StatsDom_removeSubscriber st c : StatsDom st → StatsDom (removeSubscriber st c).
Proof.
  intros H t. rewrite removeSubscriber_topics_is_Some, removeSubscriber_stats.
  apply H.
Qed.

Lemma StatsDom_enqueueMessage now st c m :
  StatsDom st → StatsDom (enqueueMessage now st c m).1.
Proof.
  apply enqueueMessage_preserves.
  - apply StatsDom_delivery.
  - apply StatsDom_removeSubscriber.
Qed.

Lemma StatsDom_createTopic st t : StatsDom st → StatsDom (createTopic st t).1.
Proof.
  intros H. unfold createTopic. destruct (topics st !! t) eqn:Ht; simpl; [done|].
  intros t'. simpl. destruct (decide (t' = t)) as [->|].
  - by rewrite !lookup_insert_eq.
  - rewrite !lookup_insert_ne by done. apply H.
Qed.

Lemma StatsDom_deleteTopic now st t : StatsDom st → StatsDom (deleteTopic now st t).1.
Proof.
  intros H. unfold deleteTopic.
  destruct (topics st !! t) as [topic|] eqn:Ht; simpl; [|done].
  intros t'. simpl.
  destruct (fold_detach_frame t (tsubscribers topic)
              (foldl (notify_deleted t now) st (tsubscribers topic)))
    as (-> & -> & _).
  destruct (fold_notify_delivery t now (tsubscribers topic) st) as [-> -> _ _ _ _].
  destruct (decide (t' = t)) as [->|].
  - rewrite lookup_delete_eq. by intros [??].
  - rewrite !lookup_delete_ne by done. apply H.
Qed.

Lemma StatsDom_topicStats_insert st t ts :
  StatsDom st → StatsDom (with_stats (with_topicStats (insert t ts)) st).
Proof.
  intros H t'. simpl. destruct (decide (t' = t)) as [->|].
  - by rewrite lookup_insert_eq.
  - rewrite lookup_insert_ne by done. apply H.
Qed.

Lemma StatsDom_join st c w t topic :
  topics st !! t = Some topic → StatsDom st → StatsDom (join st c w t topic).
Proof.
  intros Ht H t'. rewrite join_topics.
  destruct (join_frame st c w t topic) as (_ & -> & _).
  destruct (decide (t' = t)) as [->|].
  - intros _. apply H. by rewrite Ht.
  - rewrite lookup_insert_ne by done. apply H.
Qed.

Lemma StatsDom_subscribe now st c w t n :
  StatsDom st → StatsDom (subscribe now st c w t n).1.
Proof.
  intros H. unfold subscribe.
  destruct (topics st !! t) as [topic|] eqn:Ht; simpl; [|done].
  pose proof (StatsDom_join st c w t topic Ht H) as HJ.
  destruct (topicStats _ !! t) as [ts|]; simpl; [|done].
  match goal with |- context [with_stats ?f ?x] =>
    assert (StatsDom (with_stats f x)) as H2
      by (by apply StatsDom_topicStats_insert) end.
  case_decide; simpl; [|done].
  match goal with |- context [replay ?a ?b ?c ?d] =>
    pose proof (replay_preserves StatsDom StatsDom_enqueueMessage a d c b H2) as HR;
    destruct (replay a b c d) as [st' [[]|msg]] end; done.
Qed.

Lemma StatsDom_unsubscribe st c t : StatsDom st → StatsDom (unsubscribe st c t).1.
Proof.
  intros H. unfold unsubscribe.
  destruct (topics st !! t) as [topic|] eqn:Ht; simpl; [|done].
  destruct (subscribers st !! c) as [s|]; simpl; [|done].
  assert (is_Some (topicStats (stats st) !! t)) as [ts Hts] by (apply H; by rewrite Ht).
  rewrite Hts. intros t'. simpl. destruct (decide (t' = t)) as [->|].
  - by rewrite !lookup_insert_eq.
  - rewrite !lookup_insert_ne by done. apply H.
Qed.

Lemma StatsDom_publish now st t m : StatsDom st → StatsDom (publish now st t m).1.
Proof.
  intros H. unfold publish.
  destruct (topics st !! t) as [topic|] eqn:Ht; simpl; [|done].
  match goal with |- context [fanout ?a ?b ?c ?d] =>
    assert (StatsDom b) as H1; [|
      pose proof (fanout_preserves StatsDom StatsDom_enqueueMessage a c d b H1) as HF;
      destruct (fanout a b c d) as [st2 failed] ] end.
  { intros t'. simpl. destruct (decide (t' = t)) as [->|].
    - intros _. apply H. by rewrite Ht.
    - rewrite lookup_insert_ne by done. apply H. }
  simpl in *. intros t' Ht'. simpl.
  destruct (HF t' Ht') as [x Hx].
  destruct (decide (t' = t)) as [->|].
  - rewrite lookup_alter_eq, Hx. by eexists.
  - rewrite lookup_alter_ne by done. by eexists.
Qed.

Lemma StatsDom_step st op : StatsDom st → StatsDom (step st op).
Proof.
  destruct op; simpl.
  - apply StatsDom_createTopic.
  - apply StatsDom_deleteTopic.
  - apply StatsDom_subscribe.
  - apply StatsDom_unsubscribe.
  - apply StatsDom_publish.
  - apply StatsDom_removeSubscriber.
  - apply StatsDom_delivery, flushSubscriberQueue_delivery.
  - apply StatsDom_delivery, delivery_sockets.
Qed.

Lemma StatsDom_run ops st : StatsDom st → StatsDom (run ops st).
Proof.
  revert st. induction ops as [|op ops IH]; intros st H; simpl; [done|].
  apply IH, StatsDom_step, H.
Qed.

Lemma StatsDom_new options : StatsDom (new_PubSubSystem options).
Proof. intros t. simpl. rewrite lookup_empty. by intros [??]. Qed.

(** ** Queue bound (I4) *)

Lemma QueueBound_sockets f st : QueueBound st → QueueBound (with_sockets f st).
Proof. done. Qed.

Lemma QueueBound_stats f st : QueueBound st → QueueBound (with_stats f st).
Proof. done. Qed.

Lemma QueueBound_topics f st : QueueBound st → QueueBound (with_topics f st).
Proof. done. Qed.

Lemma QueueBound_insert st c s :
  length (queue s) ≤ maxQueueSize st →
  QueueBound st → QueueBound (with_subscribers (insert c s) st).
Proof.
  intros Hq [H1 H]. split; [done|]. intros c' s'. simpl.
  destruct (decide (c' = c)) as [->|].
  - rewrite lookup_insert_eq. by intros [= <-].
  - rewrite lookup_insert_ne by done. apply H.
Qed.

Lemma QueueBound_flushSubscriberQueue st c :
  QueueBound st → QueueBound (flushSubscriberQueue st c).
Proof.
  intros HQ. unfold flushSubscriberQueue.
  destruct (subscribers st !! c) as [s|] eqn:Hs; [|done].
  case_decide; [|done].
  pose proof (drain_length (queue s) (socket st (ws s))) as Hl.
  destruct (drain _ _) as [q w]. simpl in Hl.
  apply QueueBound_sockets, QueueBound_insert; [|done].
  simpl. destruct HQ as [_ HQ]. specialize (HQ c s Hs). lia.
Qed.

Lemma QueueBound_removeSubscriber st c :
  QueueBound st → QueueBound (removeSubscriber st c).
Proof.
  intros [H1 H].
  destruct (removeSubscriber_frame st c) as (_ & Hm & _).
  split; rewrite Hm; [done|]. intros c' s.
  rewrite removeSubscriber_subscribers. intros [_ Hs]%lookup_delete_Some. eauto.
Qed.

Lemma length_shift {A} (l : list A) : length (shift l) = length l - 1.
Proof. destruct l; simpl; lia. Qed.

Lemma QueueBound_enqueueMessage now st c m :
  QueueBound st → QueueBound (enqueueMessage now st c m).1.
Proof.
  intros HQ. destruct (enqueueMessage_case now st c m); simpl; auto.
  - by apply QueueBound_removeSubscriber.
  - apply QueueBound_removeSubscriber. unfold slow_consumer.
    destruct (ws_send _ _); [by apply QueueBound_sockets|done].
  - apply QueueBound_flushSubscriberQueue, QueueBound_insert; [|done].
    simpl. rewrite length_app, length_shift. simpl.
    destruct HQ as [? HQ]. specialize (HQ c s). naive_solver lia.
  - apply QueueBound_flushSubscriberQueue, QueueBound_insert; [|done].
    simpl. rewrite length_app. simpl. lia.
Qed.

Lemma QueueBound_createTopic st t : QueueBound st → QueueBound (createTopic st t).1.
Proof. unfold createTopic. by destruct (topics st !! t). Qed.

Lemma QueueBound_notify t now st c : QueueBound st → QueueBound (notify_deleted t now st c).
Proof.
  unfold notify_deleted. destruct (subscribers st !! c); [|done].
  case_decide; [|done]. by destruct (ws_send _ _).
Qed.

Lemma QueueBound_detach t st c : QueueBound st → QueueBound (detach_topic t st c).
Proof.
  intros HQ. unfold detach_topic.
  destruct (subscribers st !! c) as [s|] eqn:Hs; [|done].
  apply QueueBound_insert; [|done]. simpl. by apply (proj2 HQ c).
Qed.

Lemma QueueBound_foldl (f : PubSubSystem → string → PubSubSystem) l st :
  (∀ st c, QueueBound st → QueueBound (f st c)) →
  QueueBound st → QueueBound (foldl f st l).
Proof.
  intros Hf. revert st. induction l as [|c l IH]; intros st H; simpl; auto.
Qed.

Lemma QueueBound_deleteTopic now st t : QueueBound st → QueueBound (deleteTopic now st t).1.
Proof.
  intros HQ. unfold deleteTopic.
  destruct (topics st !! t) as [topic|]; simpl; [|done].
  apply QueueBound_stats, QueueBound_topics.
  apply QueueBound_foldl; [apply QueueBound_detach|].
  apply QueueBound_foldl; [apply QueueBound_notify|done].
Qed.

Lemma QueueBound_join st c w t topic :
  QueueBound st → QueueBound (join st c w t topic).
Proof.
  intros [H1 H]. split.
  - by destruct (join_frame st c w t topic) as (_ & _ & -> & _).
  - destruct (join_frame st c w t topic) as (_ & _ & -> & _).
    intros c' s'. rewrite join_subscribers. case_decide; subst; [|apply H].
    intros [= <-]. simpl.
    destruct (subscribers st !! c) as [s|] eqn:Hs; simpl; [eauto|lia].
Qed.

Lemma QueueBound_subscribe now st c w t n :
  QueueBound st → QueueBound (subscribe now st c w t n).1.
Proof.
  intros HQ. unfold subscribe.
  destruct (topics st !! t) as [topic|]; simpl; [|done].
  pose proof (QueueBound_join st c w t topic HQ) as HJ.
  destruct (topicStats _ !! t) as [ts|]; simpl; [|done].
  case_decide; simpl; [|done].
  match goal with |- context [replay ?a ?b ?c ?d] =>
    pose proof (replay_preserves QueueBound QueueBound_enqueueMessage a d c b) as HR;
    destruct (replay a b c d) as [st' [[]|msg]] end; by apply HR.
Qed.

Lemma QueueBound_unsubscribe st c t : QueueBound st → QueueBound (unsubscribe st c t).1.
Proof.
  intros HQ. unfold unsubscribe.
  destruct (topics st !! t) as [topic|]; simpl; [|done].
  destruct (subscribers st !! c) as [s|] eqn:Hs; simpl; [|done].
  assert (QueueBound (with_subscribers (insert c (set_stopics (set_delete t) s))
    (with_topics (insert t (set_tsubscribers (set_delete c) topic)) st))).
  { apply QueueBound_insert; [|done]. simpl. by apply (proj2 HQ c). }
  by destruct (topicStats _ !! t).
Qed.

Lemma QueueBound_publish now st t m : QueueBound st → QueueBound (publish now st t m).1.
Proof.
  intros HQ. unfold publish.
  destruct (topics st !! t) as [topic|]; simpl; [|done].
  match goal with |- context [fanout ?a ?b ?c ?d] =>
    pose proof (fanout_preserves QueueBound QueueBound_enqueueMessage a c d b) as HF;
    destruct (fanout a b c d) as [st2 failed] end.
  simpl in *. by apply HF.
Qed.

Lemma QueueBound_step st op : QueueBound st → QueueBound (step st op).
Proof.
  destruct op; simpl.
  - apply QueueBound_createTopic.
  - apply QueueBound_deleteTopic.
  - apply QueueBound_subscribe.
  - apply QueueBound_unsubscribe.
  - apply QueueBound_publish.
  - apply QueueBound_removeSubscriber.
  - apply QueueBound_flushSubscriberQueue.
  - done.
Qed.

Lemma QueueBound_run ops st : QueueBound st → QueueBound (run ops st).
Proof.
  revert st. induction ops as [|op ops IH]; intros st H; simpl; [done|].
  apply IH, QueueBound_step, H.
Qed.

Lemma or_default_pos x d : 1 ≤ d → 1 ≤ or_default x d.
Proof. destruct x as [[|n]|]; simpl; lia. Qed.

Lemma QueueBound_new options : QueueBound (new_PubSubSystem options).
Proof.
  split; simpl.
  - apply or_default_pos. lia.
  - intros c s. by rewrite lookup_empty.
Qed.

(** ** Replay ring (I3, P2) *)

Lemma length_suffix_of_length {A} k (l : list A) :
  length (suffix_of_length k l) = length l `min` k.
Proof. unfold suffix_of_length. rewrite length_drop. lia. Qed.

Lemma suffix_of_length_min {A} k (l : list A) :
  suffix_of_length (length l `min` k) l = suffix_of_length k l.
Proof. unfold suffix_of_length. f_equal. lia. Qed.

(** Pushing onto the ring keeps it the suffix of the stream. *)
Lemma ring_push_suffix R m (s : list Event) :
  ring_push R m (suffix_of_length R s) = suffix_of_length R (s ++ [m]).
Proof.
  unfold ring_push, suffix_of_length, shift.
  rewrite !length_app, length_drop. simpl.
  case_decide as Hlt.
  - replace (length s + 1 - R) with (S (length s - R)) by lia.
    rewrite <- drop_app_le by lia.
    generalize (length s - R). intros k. generalize (s ++ [m]). clear.
    intros l. revert k. induction l as [|x l IH]; intros [|k]; simpl; done.
  - replace (length s - R) with 0 by lia.
    replace (length s + 1 - R) with 0 by lia. by rewrite !drop_0.
Qed.

Lemma History_ext st st' g :
  ringBufferSize st' = ringBufferSize st →
  (∀ t, messageHistory <$> topics st' !! t = messageHistory <$> topics st !! t) →
  History st g → History st' g.
Proof. intros HR HT H t. by rewrite HR, HT. Qed.

Lemma History_delivery g st st' : delivery st st' → History st g → History st' g.
Proof.
  intros Hd. apply History_ext; [apply Hd|]. intros t. by rewrite (dl_topics _ _ Hd).
Qed.

Lemma History_removeSubscriber g st c : History st g → History (removeSubscriber st c) g.
Proof.
  apply History_ext; [apply removeSubscriber_frame|].
  intros t. apply removeSubscriber_history.
Qed.

Lemma History_enqueueMessage g now st c m :
  History st g → History (enqueueMessage now st c m).1 g.
Proof.
  apply (enqueueMessage_preserves (λ st, History st g)).
  - apply History_delivery.
  - apply History_removeSubscriber.
Qed.

Lemma History_tsubscribers g st t topic f :
  topics st !! t = Some topic →
  History st g → History (with_topics (insert t (set_tsubscribers f topic)) st) g.
Proof.
  intros Ht. apply History_ext; [done|]. intros t'. simpl.
  destruct (decide (t' = t)) as [->|].
  - by rewrite lookup_insert_eq, Ht.
  - by rewrite lookup_insert_ne.
Qed.

Lemma History_is_Some g st t :
  History st g → is_Some (g !! t) ↔ is_Some (topics st !! t).
Proof.
  intros H. specialize (H t).
  destruct (g !! t), (topics st !! t); simplify_eq/=; split; by eauto.
Qed.

Lemma History_step st g op : History st g → History (step st op) (stream_step g op).
Proof.
  intros H. destruct op as [t|now t|now c w t n|c t|now t m|c|c|w r b]; simpl.
  - (* createTopic *)
    unfold createTopic. pose proof (History_is_Some g st t H) as Hd.
    destruct (topics st !! t) eqn:Ht; simpl.
    + destruct (g !! t) eqn:Hg; [done|]. destruct Hd as [_ Hd].
      destruct Hd as [??]; [by eexists|done].
    + destruct (g !! t) eqn:Hg.
      { destruct Hd as [Hd _]. destruct Hd as [??]; [by eexists|done]. }
      intros t'. simpl. destruct (decide (t' = t)) as [->|].
      * by rewrite !lookup_insert_eq.
      * rewrite !lookup_insert_ne by done. apply H.
  - (* deleteTopic *)
    unfold deleteTopic. destruct (topics st !! t) as [topic|] eqn:Ht; simpl.
    + intros t'. simpl.
      destruct (fold_detach_frame t (tsubscribers topic)
                  (foldl (notify_deleted t now) st (tsubscribers topic)))
        as (-> & _ & _ & _ & -> & _).
      destruct (fold_notify_delivery t now (tsubscribers topic) st)
        as [-> _ _ -> _ _].
      destruct (decide (t' = t)) as [->|].
      * by rewrite !lookup_delete_eq.
      * rewrite !lookup_delete_ne by done. apply H.
    + rewrite delete_id; [done|].
      pose proof (History_is_Some g st t H) as Hd. rewrite Ht in Hd.
      destruct (g !! t); [|done]. destruct Hd as [Hd _].
      destruct Hd as [??]; [by eexists|done].
  - (* subscribe *)
    unfold subscribe. destruct (topics st !! t) as [topic|] eqn:Ht; simpl; [|done].
    assert (History (join st c w t topic) g) as HJ.
    { revert H. apply History_ext.
      - apply join_frame.
      - intros t'. rewrite join_topics. destruct (decide (t' = t)) as [->|].
        + by rewrite lookup_insert_eq, Ht.
        + by rewrite lookup_insert_ne. }
    destruct (topicStats _ !! t) as [ts|]; simpl; [|done].
    case_decide; simpl; [|done].
    match goal with |- context [replay ?a ?b ?c ?d] =>
      pose proof (replay_preserves (λ st, History st g)
                    (History_enqueueMessage g) a d c b) as HR;
      destruct (replay a b c d) as [st' [[]|msg]] end; by apply HR.
  - (* unsubscribe *)
    unfold unsubscribe. destruct (topics st !! t) as [topic|] eqn:Ht; simpl; [|done].
    destruct (subscribers st !! c) as [s|]; simpl; [|done].
    assert (History (with_subscribers (insert c (set_stopics (set_delete t) s))
      (with_topics (insert t (set_tsubscribers (set_delete c) topic)) st)) g) as H'.
    { by apply (History_tsubscribers g st t topic). }
    by destruct (topicStats _ !! t).
  - (* publish *)
    unfold publish. destruct (topics st !! t) as [topic|] eqn:Ht; simpl.
    + match goal with |- context [fanout ?a ?b ?c ?d] =>
        pose proof (fanout_preserves (λ st, History st (stream_step g (op_publish now t m)))
                      (History_enqueueMessage _) a c d b) as HF;
        destruct (fanout a b c d) as [st2 failed] end.
      simpl in *. apply HF. clear HF. intros t'. simpl.
      destruct (decide (t' = t)) as [->|].
      * rewrite lookup_insert_eq, lookup_alter_eq. simpl.
        specialize (H t). rewrite Ht in H. simpl in H.
        destruct (g !! t) as [s|]; simplify_eq/=.
        f_equal. rewrite H. apply ring_push_suffix.
      * rewrite lookup_insert_ne, lookup_alter_ne by done. apply H.
    + intros t'. destruct (decide (t' = t)) as [->|].
      * rewrite lookup_alter_eq. specialize (H t). rewrite Ht in H.
        rewrite Ht. by destruct (g !! t).
      * rewrite lookup_alter_ne by done. apply H.
  - by apply History_removeSubscriber.
  - eapply History_delivery; [apply flushSubscriberQueue_delivery|done].
  - done.
Qed.

Lemma History_foldl ops st g :
  History st g → History (foldl step st ops) (foldl stream_step g ops).
Proof.
  revert st g. induction ops as [|op ops IH]; intros st g H; simpl; [done|].
  apply IH, History_step, H.
Qed.

Lemma History_run options ops :
  History (run ops (new_PubSubSystem options)) (streams ops).
Proof. apply History_foldl. intros t. simpl. by rewrite !lookup_empty. Qed.

(** ** A successful enqueue, exactly *)

Lemma pushed_eq st c s q m :
  subscribers st !! c = Some s →
  readyState (socket st (ws s)) = 1 →
  pushed st c s q m =
    with_sockets (insert (ws s) (drain (q ++ [m]) (socket st (ws s))).2)
      (with_subscribers
         (insert c (set_queue (drain (q ++ [m]) (socket st (ws s))).1 s)) st).
Proof.
  intros Hs Hopen. unfold pushed.
  rewrite (flushSubscriberQueue_eq _ c (set_queue (q ++ [m]) s));
    [|simpl; by rewrite lookup_insert_eq|done].
  unfold with_sockets, with_subscribers. simpl. f_equal.
  by rewrite insert_insert_eq.
Qed.

Lemma pushed_subscriber st c s q m :
  subscribers st !! c = Some s →
  readyState (socket st (ws s)) = 1 →
  subscribers (pushed st c s q m) !! c
  = Some (set_queue (drain (q ++ [m]) (socket st (ws s))).1 s).
Proof.
  intros Hs Hopen. rewrite pushed_eq by done. simpl. by rewrite lookup_insert_eq.
Qed.

Lemma pushed_socket st c s q m :
  subscribers st !! c = Some s →
  readyState (socket st (ws s)) = 1 →
  socket (pushed st c s q m) (ws s) = (drain (q ++ [m]) (socket st (ws s))).2.
Proof.
  intros Hs Hopen. rewrite pushed_eq by done. unfold socket. simpl.
  by rewrite lookup_total_insert_eq.
Qed.

Lemma pushed_other_socket st c s q m w :
  subscribers st !! c = Some s →
  readyState (socket st (ws s)) = 1 →
  w ≠ ws s →
  socket (pushed st c s q m) w = socket st w.
Proof.
  intros Hs Hopen Hne. rewrite pushed_eq by done. unfold socket. simpl.
  by rewrite lookup_total_insert_ne.
Qed.

(** ** Replay on subscribe *)

(** [slice(-n)] takes the last [min(n, length)] elements. *)
Lemma slice_neg {A} (n : Z) (l : list A) :
  (0 < n)%Z →
  slice (- n) l = suffix_of_length (Z.to_nat n `min` length l) l.
Proof.
  intros Hn. unfold slice, suffix_of_length.
  destruct (Z.ltb_spec (- n) 0); [|lia]. f_equal. lia.
Qed.

(** As long as the transport of the record is open and the DISCONNECT
    policy cannot fire, the replay loop enqueues every event; while the
    queue has room nothing is dropped, so what the client was sent and is
    still owed grows by exactly the replayed events, in order. *)
Lemma replay_enqueues now c l st s :
  subscribers st !! c = Some s →
  readyState (socket st (ws s)) = 1 →
  backpressurePolicy st = DROP_OLDEST
    ∨ length (queue s) + length l ≤ maxQueueSize st →
  ∃ st' s',
    replay now st c l = (st', Ok ())
    ∧ enqueues now c l st st'
    ∧ subscribers st' !! c = Some s'
    ∧ ws s' = ws s ∧ stopics s' = stopics s
    ∧ readyState (socket st' (ws s)) = 1
    ∧ (∀ x, x ≠ ws s → socket st' x = socket st x)
    ∧ (length (queue s) + length l ≤ maxQueueSize st →
       sent (socket st' (ws s)) ++ (f_event <$> queue s')
       = sent (socket st (ws s)) ++ (f_event <$> (queue s ++ l))).
Proof.
  revert st s. induction l as [|m l IH]; intros st s Hs Hopen Hok; simpl.
  { exists st, s. split_and!; try done; [constructor|].
    intros _. by rewrite app_nil_r. }
  pose proof (enqueueMessage_case now st c m) as Hcase.
  pose proof (same_config_enqueueMessage now st c m) as (Hmax & _ & Hpol).
  destruct (enqueueMessage now st c m) as [st1 r] eqn:Henq.
  assert (∃ q, (q = shift (queue s) ∨ q = queue s)
               ∧ (length (queue s) < maxQueueSize st → q = queue s)
               ∧ st1 = pushed st c s q m ∧ r = Ok ()) as (q & Hq & Hroom & -> & ->).
  { inversion Hcase; simplify_eq; try congruence.
    - destruct Hok as [?|Hok]; [congruence|]. simpl in Hok. lia.
    - eexists. split_and!; [by left| |done..]. lia.
    - eexists. split_and!; [by right|done..]. }
  simpl in Hmax, Hpol.
  pose proof (pushed_subscriber st c s q m Hs Hopen) as Hs1.
  pose proof (pushed_socket st c s q m Hs Hopen) as Hw1.
  pose proof (drain_length (q ++ [m]) (socket st (ws s))) as Hlen.
  pose proof (drain_stream (q ++ [m]) (socket st (ws s))) as Hstream.
  pose proof (drain_readyState (q ++ [m]) (socket st (ws s))) as Hrs.
  destruct (drain (q ++ [m]) (socket st (ws s))) as [q1 w1]. simpl in *.
  rewrite length_app in Hlen. simpl in Hlen.
  destruct (IH (pushed st c s q m) (set_queue q1 s)) as
      (st' & s' & Hrep & Hchain & Hs' & Hws & Htop & Hopen' & Hother & Hout).
  { done. }
  { simpl. by rewrite Hw1, Hrs. }
  { rewrite Hpol, Hmax. destruct Hok as [?|Hok]; [by left|right].
    simpl. rewrite Hroom in Hlen by lia. lia. }
  exists st', s'. rewrite Hrep. split_and!; try done.
  - by econstructor.
  - intros x Hx. rewrite Hother by done. by apply pushed_other_socket.
  - intros Hfit. rewrite Hmax in Hout. simpl in Hout.
    rewrite Hroom in Hlen, Hstream by lia.
    rewrite Hout by lia. rewrite Hw1.
    rewrite fmap_app, app_assoc, Hstream.
    rewrite <- app_assoc, <- fmap_app, <- app_assoc. done.
Qed.

(** [subscribe] with [lastN > 0]: registration, then the replay of the
    last [min(lastN, |history|)] events of the history. *)
Lemma subscribe_replays now st c w t n topic :
  topics st !! t = Some topic →
  is_Some (topicStats (stats st) !! t) →
  (0 < n)%Z →
  readyState (socket st (ws (record_of st c w))) = 1 →
  backpressurePolicy st = DROP_OLDEST
    ∨ length (queue (record_of st c w)) + length (last_events n topic)
      ≤ maxQueueSize st →
  subscribe_enqueues now st c w t n (last_events n topic).
Proof.
  intros Ht [ts Hts] Hn. unfold subscribe_enqueues.
  set (s0 := record_of st c w). set (l := last_events n topic).
  intros Hopen Hok. unfold subscribe. rewrite Ht.
  destruct (join_frame st c w t topic) as (Hsock & Hstats & Hmax & _ & Hpol).
  rewrite Hstats, Hts.
  set (st1 := with_stats _ (join st c w t topic)).
  assert (subscribers st1 !! c = Some (set_stopics (set_add t) s0)) as Hs1.
  { change (subscribers st1) with (subscribers (join st c w t topic)).
    rewrite join_subscribers. by rewrite decide_True. }
  assert (sockets st1 = sockets st) as Hsock1 by done.
  assert (∀ x, socket st1 x = socket st x) as Hsocket
    by (intros x; unfold socket; by rewrite Hsock1).
  assert (maxQueueSize st1 = maxQueueSize st) as Hmax1 by exact Hmax.
  assert (backpressurePolicy st1 = backpressurePolicy st) as Hpol1 by exact Hpol.
  clearbody st1.
  destruct (replay_enqueues now c l st1 (set_stopics (set_add t) s0))
    as (st' & s' & Hrep & Hchain & Hs' & Hws & Htop & _ & Hother & Hout).
  { done. }
  { simpl. by rewrite Hsocket. }
  { rewrite Hpol1, Hmax1. done. }
  rewrite Hmax1 in Hout.
  simpl in Hws, Htop, Hother, Hout. rewrite !Hsocket in Hout.
  assert (t ∈ stopics s') as Hin.
  { rewrite Htop. apply elem_of_set_add. by left. }
  case_decide as Hd.
  - rewrite slice_neg by done. fold (last_events n topic). fold l. rewrite Hrep.
    exists st1, st', s'. split_and!; try done.
    intros x Hx. by rewrite Hother, Hsocket.
  - assert (l = []) as Hl.
    { unfold l, last_events. destruct (messageHistory topic); [done|]. simpl in Hd.
      exfalso. apply Hd. split; [done|lia]. }
    rewrite Hl in *. simpl in Hrep. injection Hrep as <-.
    exists st1, st1, s'. by split_and!.
Qed.

(** ** Topic deletion writes to the transports *)

Lemma after_frames_0 f x : after_frames 0 f x = x.
Proof.
  destruct x. unfold after_frames. simpl. by rewrite app_nil_r, Nat.sub_0_r.
Qed.

Lemma notify_deleted_subscribers t now st c :
  subscribers (notify_deleted t now st c) = subscribers st.
Proof.
  unfold notify_deleted. destruct (subscribers st !! c); [|done].
  case_decide; [|done]. by destruct (ws_send _ _).
Qed.

Lemma notify_deleted_socket t now st c w :
  socket (notify_deleted t now st c) w
  = if decide (ws <$> subscribers st !! c = Some w)
    then after_frames (notified (socket st w) 1) (f_info_topic_deleted t now)
           (socket st w)
    else socket st w.
Proof.
  unfold notify_deleted, notified.
  destruct (subscribers st !! c) as [s|] eqn:Hs; simpl; [|done].
  destruct (decide (Some (ws s) = Some w)) as [[= <-]|Hne].
  - case_decide as Hopen; [|by rewrite after_frames_0].
    unfold ws_send. destruct (socket st (ws s)) as [rs [|b] snt cc] eqn:Hx; simpl.
    + by rewrite Hx, after_frames_0.
    + unfold socket at 1. simpl. rewrite lookup_total_insert_eq.
      unfold after_frames. simpl. by rewrite Nat.sub_0_r.
  - case_decide; [|done]. destruct (ws_send _ _); [|done].
    unfold socket. simpl. rewrite lookup_total_insert_ne; [done|congruence].
Qed.

Lemma fold_notify_subscribers t now l st :
  subscribers (foldl (notify_deleted t now) st l) = subscribers st.
Proof.
  revert st. induction l as [|c l IH]; intros st; simpl; [done|].
  by rewrite IH, notify_deleted_subscribers.
Qed.

Lemma bound_to_ext st st' w l :
  subscribers st' = subscribers st → bound_to st' w l = bound_to st w l.
Proof. unfold bound_to. by intros ->. Qed.

(** Each open transport takes one frame for every notified client bound
    to it, as long as it accepts frames. *)
Lemma fold_notify_socket t now l st w :
  socket (foldl (notify_deleted t now) st l) w
  = after_frames (notified (socket st w) (bound_to st w l))
      (f_info_topic_deleted t now) (socket st w).
Proof.
  revert st. induction l as [|c l IH]; intros st; cbn [foldl].
  { unfold notified, bound_to. simpl. case_decide; by rewrite ?Nat.min_0_l, after_frames_0. }
  assert (bound_to st w (c :: l)
          = if decide (ws <$> subscribers st !! c = Some w)
            then S (bound_to st w l) else bound_to st w l) as ->.
  { unfold bound_to. rewrite filter_cons. by case_decide. }
  rewrite IH, (bound_to_ext st) by apply notify_deleted_subscribers.
  rewrite notify_deleted_socket.
  generalize (bound_to st w l). intros n.
  case_decide; [|done].
  unfold notified, after_frames.
  destruct (socket st w) as [rs b snt cc]. simpl.
  case_decide; simpl; cycle 1.
  { by rewrite !app_nil_r, !Nat.sub_0_r. }
  destruct b as [|b]; simpl.
  { rewrite !Nat.min_0_r. simpl. by rewrite !app_nil_r. }
  rewrite Nat.sub_0_r. f_equal. by rewrite <- app_assoc.
Qed.

(** ** The transport a record is bound to *)

(** [enqueueMessage] for [c] keeps the binding of [c] (or removes the
    record) and writes to no transport but the one [c] is bound to; when
    it succeeds the record is still there. *)
Lemma enqueueMessage_binding now st c m w0 :
  (∀ s, subscribers st !! c = Some s → ws s = w0) →
  let r := enqueueMessage now st c m in
  (∀ s, subscribers r.1 !! c = Some s → ws s = w0)
  ∧ (∀ x, x ≠ w0 → socket r.1 x = socket st x)
  ∧ (r.2 = Ok () → is_Some (subscribers r.1 !! c)).
Proof.
  intros HQ r. subst r.
  destruct (enqueueMessage_case now st c m)
    as [Hn|s1 H1 H2|s1 H1 H2 H3 H4|s1 H1 H2 H3 H4|s1 H1 H2 H3]; simpl.
  - done.
  - rewrite removeSubscriber_subscribers, lookup_delete_eq.
    split_and!; try done. intros x _. unfold socket.
    by destruct (removeSubscriber_frame st c) as (-> & _).
  - rewrite removeSubscriber_subscribers, lookup_delete_eq.
    split_and!; try done. intros x Hx. unfold socket.
    destruct (removeSubscriber_frame (slow_consumer now st (ws s1)) c) as (-> & _).
    unfold slow_consumer. destruct (ws_send _ _); [|done]. simpl.
    rewrite lookup_total_insert_ne; [done|]. rewrite (HQ s1 H1). congruence.
  - rewrite pushed_subscriber by done. split_and!.
    + intros s [= <-]. simpl. by apply HQ.
    + intros x Hx. apply pushed_other_socket; try done.
      rewrite (HQ s1 H1). congruence.
    + by eexists.
  - rewrite pushed_subscriber by done. split_and!.
    + intros s [= <-]. simpl. by apply HQ.
    + intros x Hx. apply pushed_other_socket; try done.
      rewrite (HQ s1 H1). congruence.
    + by eexists.
Qed.

Lemma replay_binding now c w0 l st :
  (∀ s, subscribers st !! c = Some s → ws s = w0) →
  let r := replay now st c l in
  (∀ s, subscribers r.1 !! c = Some s → ws s = w0)
  ∧ (∀ x, x ≠ w0 → socket r.1 x = socket st x)
  ∧ (r.2 = Ok () → is_Some (subscribers st !! c) → is_Some (subscribers r.1 !! c)).
Proof.
  revert st. induction l as [|m l IH]; intros st HQ; simpl; [done|].
  destruct (enqueueMessage_binding now st c m w0 HQ) as (HQ1 & Hx1 & Hok1).
  destruct (enqueueMessage now st c m) as [st1 [[]|msg]]; simpl in *; [|done].
  destruct (IH st1 HQ1) as (HQ2 & Hx2 & Hok2).
  split_and!; try done.
  - intros x Hx. by rewrite Hx2, Hx1.
  - intros Hr _. apply Hok2; [done|]. by apply Hok1.
Qed.

Lemma flushSubscriberQueue_other_socket st c s x :
  subscribers st !! c = Some s → x ≠ ws s →
  socket (flushSubscriberQueue st c) x = socket st x.
Proof.
  intros Hs Hx. unfold flushSubscriberQueue. rewrite Hs.
  case_decide; [|done]. destruct (drain _ _). unfold socket. simpl.
  by rewrite lookup_total_insert_ne.
Qed.

(** * The claims *)

(** C1.  [publish] at a topic whose only subscriber has a closed transport,
    and at a topic with one closed and one healthy subscriber.  The failed
    enqueue is reported in [failedDeliveries] and nothing is thrown, but
    [subscribersReached] is computed from the size of the subscriber set
    after the failed subscribers were removed from it, so every failure is
    subtracted twice: -1 where no enqueue succeeded, 0 where one did (the
    event reached the transport of [b]). *)
Theorem publish_subscribersReached_counts_failures_twice :
  (publish "t1" (run ops_closed_subscriber (new_PubSubSystem default_options))
     "orders" (U "U1")).2
  = Ok (published "orders" (-1) [("a", "SUBSCRIBER_DISCONNECTED")])
  ∧ (publish "t1" (run ops_closed_and_open (new_PubSubSystem default_options))
       "orders" (U "U1")).2
    = Ok (published "orders" 0 [("a", "SUBSCRIBER_DISCONNECTED")])
  ∧ sent (socket
            (publish "t1" (run ops_closed_and_open (new_PubSubSystem default_options))
               "orders" (U "U1")).1 2)
    = [f_event (E "orders" "U1" "t1")].
Proof. vm_compute. done. Qed.

(** C2, as stated, fails: with the topic [orders] and the record of [a]
    both present and [a] not joined to [orders], [unsubscribe] does not
    fail. *)
Lemma unsubscribe_not_joined_succeeds :
  let st := run ops_other_topic (new_PubSubSystem default_options) in
  ¬ joined st "a" "orders"
  ∧ (unsubscribe st "a" "orders").2 = Ok (unsubscribed "orders" "a").
Proof.
  split.
  - intros (tp & Htp & Hin). vm_compute in Htp. simplify_eq.
    by apply elem_of_nil in Hin.
  - vm_compute. reflexivity.
Qed.

(** C2, amended.  [unsubscribe(client_id, topic)] fails with
    SUBSCRIPTION_NOT_FOUND (sent to the client as TOPIC_NOT_FOUND by the
    session handler) exactly when the topic does not exist or no record
    exists for [client_id], and then changes nothing; whenever both exist
    it returns [{unsubscribed, topic, client_id}], joined or not, and the
    pair is not joined afterwards. *)
Theorem unsubscribe_fails_iff_missing st c t :
  ((unsubscribe st c t).2 = Throw "SUBSCRIPTION_NOT_FOUND"
   ↔ topics st !! t = None ∨ subscribers st !! c = None)
  ∧ ((unsubscribe st c t).2 = Ok (unsubscribed t c)
     ↔ is_Some (topics st !! t) ∧ is_Some (subscribers st !! c))
  ∧ ((unsubscribe st c t).2 = Throw "SUBSCRIPTION_NOT_FOUND"
     → (unsubscribe st c t).1 = st)
  ∧ ((unsubscribe st c t).2 = Ok (unsubscribed t c)
     → ¬ joined (unsubscribe st c t).1 c t
       ∧ ∀ s, subscribers (unsubscribe st c t).1 !! c = Some s → t ∉ stopics s)
  ∧ (∀ now w message,
       truthy (m_topic message) = Some t →
       truthy (m_client_id message) = Some c →
       (unsubscribe st c t).2 = Throw "SUBSCRIPTION_NOT_FOUND" →
       handleUnsubscribe now st w message
       = sendError now st w "TOPIC_NOT_FOUND" "SUBSCRIPTION_NOT_FOUND"
           (m_request_id message)).
Proof.
  split_and!.
  - unfold unsubscribe.
    destruct (topics st !! t), (subscribers st !! c); simpl;
      (split; [intros H|intros [H|H]]); try done; auto.
  - unfold unsubscribe.
    destruct (topics st !! t), (subscribers st !! c); simpl;
      split; try done; try (by intros [[??] [??]]); eauto.
  - unfold unsubscribe.
    by destruct (topics st !! t), (subscribers st !! c).
  - unfold unsubscribe. unfold joined.
    destruct (topics st !! t) as [topic|], (subscribers st !! c) as [s|];
      simpl; try done.
    intros _.
    match goal with |- context [topics ?x !! t] =>
      assert (topics x !! t = Some (set_tsubscribers (set_delete c) topic)
              ∧ subscribers x !! c = Some (set_stopics (set_delete t) s))
        as [-> ->]
        by (destruct (topicStats _ !! t); simpl; by rewrite !lookup_insert_eq) end.
    split.
    + intros (tp & [= <-] & Hin). simpl in Hin.
      apply elem_of_set_delete in Hin. tauto.
    + intros s' [= <-]. simpl. rewrite elem_of_set_delete. tauto.
  - intros now w message Ht Hc Hr. unfold handleUnsubscribe.
    rewrite Ht, Hc. destruct (unsubscribe st c t) as [st' r] eqn:E.
    simpl in Hr. subst r. simpl.
    replace st' with st; [done|].
    unfold unsubscribe in E.
    by destruct (topics st !! t), (subscribers st !! c); simplify_eq.
Qed.

Lemma unsubscribe_fails_iff_missing_witness :
  let st := run ops_other_topic (new_PubSubSystem default_options) in
  (unsubscribe st "a" "nowhere").2 = Throw "SUBSCRIPTION_NOT_FOUND"
  ∧ (unsubscribe st "a" "other").2 = Ok (unsubscribed "other" "a").
Proof.
  split.
  - apply (proj1 (unsubscribe_fails_iff_missing _ "a" "nowhere")).
    left. vm_compute. reflexivity.
  - apply (proj1 (proj2 (unsubscribe_fails_iff_missing _ "a" "other"))).
    split; vm_compute; by eexists.
Defined.

(** C3.  A client subscribes under its own [client_id] and its transport
    closes.  The close listener calls [removeSubscriber] with the identity
    the server generated for the connection, under which no record was ever
    registered: the record of [a] stays, bound to the closed transport, and
    [a] stays in the subscriber set of the topic. *)
Theorem close_leaves_client_record :
  subscribers session_then_close !! "a"
  = Some {| ws := 1; stopics := ["orders"]; queue := [] |}
  ∧ readyState (socket session_then_close 1) = 3
  ∧ topics session_then_close !! "orders"
    = Some {| tsubscribers := ["a"]; messageHistory := [] |}.
Proof. vm_compute. done. Qed.

(** C4, as stated, fails: a subscriber joined over a connection that is
    open but stalled.  [deleteTopic] puts nothing on its outbound queue;
    the [topic_deleted] frame is written to the transport directly and,
    the write throwing, is lost. *)
Lemma deleteTopic_enqueues_nothing :
  let st := run ops_stalled_subscriber (new_PubSubSystem default_options) in
  let st' := (deleteTopic "t1" st "orders").1 in
  joined st "a" "orders"
  ∧ subscribers st' !! "a" = Some {| ws := 1; stopics := []; queue := [] |}
  ∧ sent (socket st' 1) = [].
Proof.
  split_and!.
  - eexists. split; [vm_compute; reflexivity|]. simpl. set_solver.
  - vm_compute. reflexivity.
  - vm_compute. reflexivity.
Qed.

(** C4, amended.  [delete_topic(name)] on an existing topic, in one step:
    writes a [topic_deleted] info frame straight to the transport of every
    joined subscriber whose transport is open, one frame per joined
    subscriber bound to it and no more than the transport accepts (a send
    that throws is ignored); touches no outbound queue, applies no
    backpressure policy, removes no record and closes no transport;
    removes the topic name from the topic set of every joined subscriber;
    then discards the topic.  Afterwards [publish] to that name fails with
    TOPIC_NOT_FOUND and changes nothing. *)
Theorem deleteTopic_notifies_directly now st t topic :
  topics st !! t = Some topic →
  let st' := (deleteTopic now st t).1 in
  (deleteTopic now st t).2 = Ok (deleted t)
  ∧ (∀ w, socket st' w
          = after_frames
              (notified (socket st w) (bound_to st w (tsubscribers topic)))
              (f_info_topic_deleted t now) (socket st w))
  ∧ (∀ c, subscribers st' !! c
          = if decide (c ∈ tsubscribers topic)
            then set_stopics (set_delete t) <$> subscribers st !! c
            else subscribers st !! c)
  ∧ topics st' = delete t (topics st)
  ∧ (∀ now' m, publish now' st' t m = (st', Throw "TOPIC_NOT_FOUND")).
Proof.
  intros Ht st'. unfold st', deleteTopic. rewrite Ht. simpl.
  set (st1 := foldl (notify_deleted t now) st (tsubscribers topic)).
  destruct (fold_detach_frame t (tsubscribers topic) st1) as (HT & _ & HS & _).
  assert (topics st1 = topics st) as HT1
    by apply (dl_topics _ _ (fold_notify_delivery t now _ st)).
  split_and!.
  - done.
  - intros w. unfold socket at 1. simpl. rewrite HS.
    apply fold_notify_socket.
  - intros c. rewrite fold_detach_subscribers.
    unfold st1. by rewrite fold_notify_subscribers.
  - by rewrite HT, HT1.
  - intros now' m. unfold publish. simpl. by rewrite lookup_delete_eq.
Qed.

Lemma deleteTopic_notifies_directly_witness :
  let st := run ops_two_on_one_socket (new_PubSubSystem default_options) in
  sent (socket (deleteTopic "t1" st "orders").1 1)
  = [f_info_topic_deleted "orders" "t1"; f_info_topic_deleted "orders" "t1"].
Proof.
  intros st.
  rewrite (proj1 (proj2 (deleteTopic_notifies_directly "t1" st "orders"
             {| tsubscribers := ["a"; "b"]; messageHistory := [] |} eq_refl)) 1).
  vm_compute. reflexivity.
Defined.

(** C5, as stated, fails: constructed with [ringBufferSize = 0], the
    history of a topic holds the event just published, and a subscriber
    joining with [last_n = 1] is sent it. *)
Lemma ring_size_zero_keeps_history :
  let st := run ops_one_publish (new_PubSubSystem options_ring0) in
  messageHistory <$> topics st !! "orders" = Some [E "orders" "U1" "t1"]
  ∧ sent (socket (subscribe "t2" st "c" 1 "orders" 1).1 1)
    = [f_event (E "orders" "U1" "t1")].
Proof. vm_compute. done. Qed.

(** C5, amended.  When the system is constructed with [ring_buffer_size]
    configured to 0, both constructors take the 0 for a missing option and
    fall back to the default capacity 100.  Replay is not disabled: after
    any sequence of operations the history of every topic is the suffix of
    its publish stream of length [min(publishes, 100)], and [subscribe]
    with [last_n > 0] replays its last [min(last_n, |history|)] events
    whenever its enqueues are not refused. *)
Theorem ring_buffer_size_zero_is_default options ops :
  opt_ringBufferSize options = Some 0 →
  let st := run ops (new_PubSubSystem options) in
  ringBufferSize st = 100
  ∧ ringBufferSize (run ops (new_PubSubServer options)) = 100
  ∧ (∀ t topic,
       topics st !! t = Some topic →
       ∃ stream,
         streams ops !! t = Some stream
         ∧ messageHistory topic
           = suffix_of_length (length stream `min` 100) stream)
  ∧ (∀ now c w t n topic,
       topics st !! t = Some topic →
       (0 < n)%Z →
       readyState (socket st (ws (record_of st c w))) = 1 →
       backpressurePolicy st = DROP_OLDEST
         ∨ length (queue (record_of st c w)) + length (last_events n topic)
           ≤ maxQueueSize st →
       subscribe_enqueues now st c w t n (last_events n topic)).
Proof.
  intros H0 st.
  assert (ringBufferSize st = 100) as HR.
  { unfold st.
    destruct (same_config_run ops (new_PubSubSystem options)) as (_ & -> & _).
    simpl. by rewrite H0. }
  split_and!.
  - done.
  - destruct (same_config_run ops (new_PubSubServer options)) as (_ & -> & _).
    simpl. by rewrite H0.
  - intros t topic Ht. pose proof (History_run options ops t) as H.
    fold st in H. rewrite Ht, HR in H. simpl in H.
    destruct (streams ops !! t) as [stream|]; simplify_eq/=.
    exists stream. by rewrite suffix_of_length_min.
  - intros now c w t n topic Ht Hn Hopen Hok. apply subscribe_replays; try done.
    apply (StatsDom_run ops _ (StatsDom_new options)). by eexists.
Qed.

Lemma ring_buffer_size_zero_is_default_witness :
  ringBufferSize (run ops_one_publish (new_PubSubSystem options_ring0)) = 100.
Proof.
  apply (ring_buffer_size_zero_is_default options_ring0 ops_one_publish).
  reflexivity.
Defined.

(** C6, as stated, fails: the topic exists, the transport is open and
    [last_n = 2], but the queue holds one event, the transport is stalled
    and the policy is DISCONNECT; the second replayed event is refused,
    the subscriber is removed and [subscribe] throws. *)
Lemma subscribe_replay_refused :
  let st := run ops_history_stalled (new_PubSubSystem options_disconnect1) in
  let r := subscribe "t4" st "c" 1 "orders" 2 in
  is_Some (topics st !! "orders")
  ∧ readyState (socket st 1) = 1
  ∧ r.2 = Throw "SLOW_CONSUMER"
  ∧ subscribers r.1 !! "c" = None
  ∧ sent (socket r.1 1) = [].
Proof. vm_compute. split_and!; by eauto. Qed.

(** C6, amended.  For every [subscribe(client_id, transport, topic,
    last_n)] with [last_n > 0] on an existing topic, when the transport
    bound to the subscriber record (the supplied one for a new record) is
    open and the DISCONNECT policy cannot fire during the replay (the
    policy is DROP_OLDEST, or the queue has room for the replayed events),
    [subscribe] succeeds and exactly the last [min(last_n, |history|)]
    events of the history are enqueued for the subscriber, in publish
    order; when the queue has room they extend, in that order, what the
    client has been sent and is still owed. *)
Theorem subscribe_replays_last_n options ops now c w t n topic :
  let st := run ops (new_PubSubSystem options) in
  topics st !! t = Some topic →
  (0 < n)%Z →
  readyState (socket st (ws (record_of st c w))) = 1 →
  backpressurePolicy st = DROP_OLDEST
    ∨ length (queue (record_of st c w)) + length (last_events n topic)
      ≤ maxQueueSize st →
  subscribe_enqueues now st c w t n (last_events n topic).
Proof.
  intros st Ht Hn Hopen Hok. apply subscribe_replays; try done.
  apply (StatsDom_run ops _ (StatsDom_new options)). by eexists.
Qed.

Lemma subscribe_replays_last_n_witness :
  let st := run ops_history_open (new_PubSubSystem default_options) in
  subscribe_enqueues "t4" st "c" 1 "orders" 2
    [E "orders" "U2" "t2"; E "orders" "U3" "t3"].
Proof.
  apply (subscribe_replays_last_n default_options ops_history_open "t4" "c" 1
           "orders" 2
           {| tsubscribers := [];
              messageHistory := [E "orders" "U1" "t1"; E "orders" "U2" "t2";
                                 E "orders" "U3" "t3"] |}).
  - vm_compute. reflexivity.
  - lia.
  - vm_compute. reflexivity.
  - left. vm_compute. reflexivity.
Defined.

(** C7 (I1, P1).  After any sequence of registry operations on a freshly
    constructed system, for every topic [t] and subscriber [s]:
    [s] is in [t.subscribers] if and only if [t]'s name is in [s.topics]. *)
Theorem bidirectional_membership options ops t topic c s :
  topics (run ops (new_PubSubSystem options)) !! t = Some topic →
  subscribers (run ops (new_PubSubSystem options)) !! c = Some s →
  c ∈ tsubscribers topic ↔ t ∈ stopics s.
Proof.
  intros Ht Hs.
  destruct (Membership_run ops _ (Membership_new options)) as [Ha Hb].
  split.
  - intros Hin. destruct (Ha t topic c Ht Hin) as (s' & Hs' & Hin'). by simplify_eq.
  - intros Hin. destruct (Hb c s t Hs Hin) as (tp & Htp & Hin'). by simplify_eq.
Qed.

Lemma bidirectional_membership_witness :
  "a" ∈ ["a"] ↔ "orders" ∈ ["orders"].
Proof.
  apply (bidirectional_membership default_options ops_one_subscriber
           "orders" {| tsubscribers := ["a"]; messageHistory := [] |}
           "a" {| ws := 1; stopics := ["orders"]; queue := [] |});
    vm_compute; reflexivity.
Defined.

(** C8 (I3, P2).  After any sequence of operations, the history of every
    topic is no longer than [ringBufferSize] and equals the suffix of the
    topic's publish stream of length [min(publishes, ringBufferSize)], in
    publish order. *)
Theorem bounded_replay_history options ops t topic :
  let st := run ops (new_PubSubSystem options) in
  topics st !! t = Some topic →
  ∃ stream,
    streams ops !! t = Some stream
    ∧ length (messageHistory topic) ≤ ringBufferSize st
    ∧ messageHistory topic
      = suffix_of_length (length stream `min` ringBufferSize st) stream.
Proof.
  intros st Ht. pose proof (History_run options ops t) as H.
  fold st in H. rewrite Ht in H. simpl in H.
  destruct (streams ops !! t) as [stream|]; simplify_eq/=.
  exists stream. split; [done|]. rewrite suffix_of_length_min. split; [|done].
  rewrite H, length_suffix_of_length. lia.
Qed.

Lemma bounded_replay_history_witness :
  ∃ stream,
    streams ops_three_publishes !! "orders" = Some stream
    ∧ length [E "orders" "U2" "t2"; E "orders" "U3" "t3"] ≤ 2
    ∧ [E "orders" "U2" "t2"; E "orders" "U3" "t3"]
      = suffix_of_length (length stream `min` 2) stream.
Proof.
  apply (bounded_replay_history options_ring2 ops_three_publishes "orders"
           {| tsubscribers := [];
              messageHistory := [E "orders" "U2" "t2"; E "orders" "U3" "t3"] |}).
  vm_compute. reflexivity.
Defined.

(** C9, as stated, fails: under DROP_OLDEST a subscriber whose queue is at
    capacity and whose transport is no longer open is removed by the
    enqueue, which throws SUBSCRIBER_DISCONNECTED before the policy is
    consulted. *)
Lemma drop_oldest_closed_transport_removes :
  let st := run ops_stalled_then_closed (new_PubSubSystem options_queue2) in
  let r := enqueueMessage "t3" st "a" (E "orders" "E3" "t3") in
  backpressurePolicy st = DROP_OLDEST
  ∧ maxQueueSize st = 2
  ∧ queue <$> subscribers st !! "a"
    = Some [E "orders" "E1" "t1"; E "orders" "E2" "t2"]
  ∧ r.2 = Throw "SUBSCRIBER_DISCONNECTED"
  ∧ subscribers r.1 !! "a" = None.
Proof. vm_compute. done. Qed.

(** C9, amended (DROP_OLDEST, I4).  Under DROP_OLDEST, enqueuing an event
    for a subscriber whose transport is open and whose queue is at
    capacity succeeds, removes the head of the queue and appends the event
    (the drain that follows then writes a prefix of that queue to the
    transport); the record stays, with its transport still open and not
    closed by the server, and the topics are untouched.  After any sequence
    of operations no queue is longer than [maxQueueSize]. *)
Theorem drop_oldest_keeps_subscriber :
  (∀ now st c m s,
     backpressurePolicy st = DROP_OLDEST →
     subscribers st !! c = Some s →
     readyState (socket st (ws s)) = 1 →
     maxQueueSize st ≤ length (queue s) →
     let q := shift (queue s) ++ [m] in
     let k := length q `min` sendBudget (socket st (ws s)) in
     let st' := (enqueueMessage now st c m).1 in
     (enqueueMessage now st c m).2 = Ok ()
     ∧ subscribers st' !! c = Some (set_queue (drop k q) s)
     ∧ sent (socket st' (ws s)) = sent (socket st (ws s)) ++ (f_event <$> take k q)
     ∧ readyState (socket st' (ws s)) = 1
     ∧ closeCall (socket st' (ws s)) = closeCall (socket st (ws s))
     ∧ topics st' = topics st)
  ∧ (∀ options ops c s,
       let st := run ops (new_PubSubSystem options) in
       subscribers st !! c = Some s → length (queue s) ≤ maxQueueSize st).
Proof.
  split.
  - intros now st c m s Hp Hs Hopen Hfull q k st'. subst st'.
    destruct (enqueueMessage_case now st c m)
      as [Hn|s1 H1 H2|s1 H1 H2 H3 H4|s1 H1 H2 H3 H4|s1 H1 H2 H3];
      simplify_eq/=; try congruence; try lia.
    rewrite pushed_subscriber, pushed_socket by done.
    assert (topics (pushed st c s (shift (queue s)) m) = topics st) as ->
      by (by apply pushed_delivery).
    rewrite drain_eq. simpl. by rewrite Hopen.
  - intros options ops c s st Hs.
    by apply (proj2 (QueueBound_run ops _ (QueueBound_new options)) c).
Qed.

Lemma drop_oldest_keeps_subscriber_witness :
  let st := run ops_stalled (new_PubSubSystem options_queue2) in
  let st' := (enqueueMessage "t3" st "a" (E "orders" "E3" "t3")).1 in
  subscribers st' !! "a"
  = Some {| ws := 1; stopics := ["orders"];
            queue := [E "orders" "E2" "t2"; E "orders" "E3" "t3"] |}
  ∧ length [E "orders" "E1" "t1"; E "orders" "E2" "t2"] ≤ 2.
Proof.
  split.
  - apply (proj1 drop_oldest_keeps_subscriber "t3"
             (run ops_stalled (new_PubSubSystem options_queue2)) "a"
             (E "orders" "E3" "t3")
             {| ws := 1; stopics := ["orders"];
                queue := [E "orders" "E1" "t1"; E "orders" "E2" "t2"] |});
      vm_compute; (reflexivity || lia).
  - apply (proj2 drop_oldest_keeps_subscriber options_queue2 ops_stalled "a"
             {| ws := 1; stopics := ["orders"];
                queue := [E "orders" "E1" "t1"; E "orders" "E2" "t2"] |}).
    vm_compute. reflexivity.
Defined.

(** C10.  If a record for [client_id] exists, [subscribe] ignores its
    transport argument: the call does the same whatever transport is
    supplied; the record, as long as it exists (it does when the call
    succeeds), stays bound to its original transport; and neither the
    replay of this call nor any later enqueue or flush for that client
    writes to a transport other than the original one. *)
Theorem subscribe_keeps_transport_binding now st c s w w' t n :
  subscribers st !! c = Some s →
  let r := subscribe now st c w t n in
  subscribe now st c w' t n = r
  ∧ (∀ s', subscribers r.1 !! c = Some s' → ws s' = ws s)
  ∧ (r.2 = Ok (subscribed t c) →
     ∃ s', subscribers r.1 !! c = Some s' ∧ ws s' = ws s)
  ∧ (∀ x, x ≠ ws s → socket r.1 x = socket st x)
  ∧ (∀ now' m x, x ≠ ws s →
       socket (enqueueMessage now' r.1 c m).1 x = socket r.1 x
       ∧ socket (flushSubscriberQueue r.1 c) x = socket r.1 x).
Proof.
  intros Hs r.
  assert (subscribe now st c w' t n = r) as Hw.
  { unfold r, subscribe, join. by rewrite Hs. }
  assert ((∀ s', subscribers r.1 !! c = Some s' → ws s' = ws s)
          ∧ (r.2 = Ok (subscribed t c) → is_Some (subscribers r.1 !! c))
          ∧ (∀ x, x ≠ ws s → socket r.1 x = socket st x)) as (HQ & Hok & Hx).
  { unfold r, subscribe.
    destruct (topics st !! t) as [topic|]; simpl.
    2:{ split_and!; [intros s'; rewrite Hs; by intros [= <-]|done..]. }
    assert (subscribers (join st c w t topic) !! c
            = Some (set_stopics (set_add t) s)) as HJ.
    { rewrite join_subscribers, decide_True by done. by rewrite Hs. }
    assert (sockets (join st c w t topic) = sockets st) as HS
      by apply join_frame.
    destruct (topicStats _ !! t) as [ts|]; cbn [fst snd].
    2:{ split_and!; [rewrite HJ; by intros s' [= <-]|done|].
        intros x _. unfold socket. by rewrite HS. }
    set (st2 := with_stats _ (join st c w t topic)).
    assert (subscribers st2 !! c = Some (set_stopics (set_add t) s)) as H2
      by exact HJ.
    assert (∀ x, socket st2 x = socket st x) as Hsock
      by (intros x; unfold socket; by rewrite <- HS).
    clearbody st2.
    case_decide; cbn [fst snd].
    2:{ split_and!; [rewrite H2; by intros s' [= <-]|by rewrite H2|done]. }
    match goal with |- context [replay ?a ?b ?c ?d] =>
      destruct (replay_binding a c (ws s) d b) as (HQ & Hx & Hok);
        [rewrite H2; by intros s' [= <-]|];
      destruct (replay a b c d) as [st3 [[]|msg]] end; simpl in *.
    - split_and!; [done| |intros x Hne; by rewrite Hx, Hsock].
      intros _. apply Hok; [done|by rewrite H2].
    - split_and!; [done|done|intros x Hne; by rewrite Hx, Hsock]. }
  split_and!; try done.
  - intros Hr. destruct (Hok Hr) as [s' Hs']. eauto.
  - intros now' m x Hne. split.
    + by apply (enqueueMessage_binding now' r.1 c m (ws s) HQ).
    + destruct (subscribers r.1 !! c) as [s'|] eqn:Hs'.
      * apply (flushSubscriberQueue_other_socket _ _ s'); [done|].
        by rewrite (HQ s').
      * unfold flushSubscriberQueue. by rewrite Hs'.
Qed.

Lemma subscribe_keeps_transport_binding_witness :
  let st := run ops_registered_then_history (new_PubSubSystem default_options) in
  subscribe "t4" st "a" 2 "orders" 2 = subscribe "t4" st "a" 1 "orders" 2
  ∧ socket (subscribe "t4" st "a" 2 "orders" 2).1 2 = socket st 2.
Proof.
  intros st.
  destruct (subscribe_keeps_transport_binding "t4" st "a"
              {| ws := 1; stopics := ["other"]; queue := [] |} 1 2 "orders" 2)
    as (H1 & _ & _ & H4 & _).
  { vm_compute. reflexivity. }
  split.
  - exact H1.
  - rewrite H1. apply H4. simpl. lia.
Defined.

(** * Further properties of the registry *)

(** ** Sets hold no duplicates *)

Lemma NoDupSets_ext st st' :
  (∀ t, tsubscribers <$> topics st' !! t = tsubscribers <$> topics st !! t) →
  (∀ c, stopics <$> subscribers st' !! c = stopics <$> subscribers st !! c) →
  NoDupSets st → NoDupSets st'.
Proof.
  intros HT HS [Ha Hb]. split.
  - intros t tp' Ht.
    destruct (fmap_lookup_Some _ _ _ _ (HT t) Ht) as (tp & Htp & Heq).
    rewrite <- Heq. eauto.
  - intros c s' Hs.
    destruct (fmap_lookup_Some _ _ _ _ (HS c) Hs) as (s & Hs0 & Heq).
    rewrite <- Heq. eauto.
Qed.

Lemma NoDupSets_delivery st st' : delivery st st' → NoDupSets st → NoDupSets st'.
Proof.
  intros Hd. apply NoDupSets_ext.
  - intros t. by rewrite (dl_topics _ _ Hd).
  - intros c. by apply delivery_stopics.
Qed.

Lemma NoDupSets_removeSubscriber st c :
  NoDupSets st → NoDupSets (removeSubscriber st c).
Proof.
  intros [Ha Hb]. split.
  - intros t tp'. rewrite removeSubscriber_topics.
    destruct (subscribers st !! c); [|by eauto].
    case_decide; [|by eauto].
    destruct (topics st !! t) as [tp|] eqn:Ht; intros [= <-].
    simpl. apply NoDup_set_delete. eauto.
  - intros c' s. rewrite removeSubscriber_subscribers.
    intros [_ Hs]%lookup_delete_Some. eauto.
Qed.

Lemma NoDupSets_enqueueMessage now st c m :
  NoDupSets st → NoDupSets (enqueueMessage now st c m).1.
Proof.
  apply enqueueMessage_preserves.
  - apply NoDupSets_delivery.
  - apply NoDupSets_removeSubscriber.
Qed.

Lemma NoDupSets_step st op : NoDupSets st → NoDupSets (step st op).
Proof.
  intros HN. pose proof HN as [Ha Hb].
  destruct op as [t|now t|now c w t n|c t|now t m|c|c|w r b]; simpl.
  - unfold createTopic. destruct (topics st !! t) eqn:Ht; simpl; [done|].
    split; simpl; [|done]. intros t' tp.
    destruct (decide (t' = t)) as [->|].
    + rewrite lookup_insert_eq. intros [= <-]. constructor.
    + rewrite lookup_insert_ne by done. eauto.
  - unfold deleteTopic. destruct (topics st !! t) as [topic|] eqn:Ht; simpl; [|done].
    set (st1 := foldl (notify_deleted t now) st (tsubscribers topic)).
    assert (NoDupSets st1) as [Ha1 Hb1].
    { eapply NoDupSets_delivery; [apply fold_notify_delivery|done]. }
    destruct (fold_detach_frame t (tsubscribers topic) st1) as (HT & _).
    split; simpl.
    + rewrite HT. intros t' tp [_ Ht']%lookup_delete_Some. eauto.
    + intros c s. rewrite fold_detach_subscribers.
      case_decide; [|by eauto].
      destruct (subscribers st1 !! c) as [s1|] eqn:Hs1; intros [= <-].
      simpl. apply NoDup_set_delete. eauto.
  - unfold subscribe. destruct (topics st !! t) as [topic|] eqn:Ht; simpl; [|done].
    assert (NoDupSets (join st c w t topic)) as HJ.
    { split.
      - intros t' tp. rewrite join_topics.
        destruct (decide (t' = t)) as [->|].
        + rewrite lookup_insert_eq. intros [= <-]. simpl.
          apply NoDup_set_add. eauto.
        + rewrite lookup_insert_ne by done. eauto.
      - intros c' s. rewrite join_subscribers. case_decide; [|by eauto].
        intros [= <-]. simpl. apply NoDup_set_add.
        destruct (subscribers st !! c) eqn:Hc; simpl; [eauto|constructor]. }
    destruct (topicStats _ !! t) as [ts|]; cbn [fst snd]; [|done].
    case_decide; cbn [fst snd]; [|done].
    match goal with |- context [replay ?a ?b ?c ?d] =>
      pose proof (replay_preserves NoDupSets NoDupSets_enqueueMessage a d c b) as HR;
      destruct (replay a b c d) as [st' [[]|msg]] end; by apply HR.
  - unfold unsubscribe. destruct (topics st !! t) as [topic|] eqn:Ht; simpl; [|done].
    destruct (subscribers st !! c) as [s|] eqn:Hs; simpl; [|done].
    match goal with |- NoDupSets ?x =>
      assert (topics x = <[t := set_tsubscribers (set_delete c) topic]> (topics st)
              ∧ subscribers x
                = <[c := set_stopics (set_delete t) s]> (subscribers st))
        as [HT HS] by (by destruct (topicStats _ !! t)); generalize dependent x end.
    intros st' HT HS. split; rewrite ?HT, ?HS.
    + intros t' tp. destruct (decide (t' = t)) as [->|].
      * rewrite lookup_insert_eq. intros [= <-]. simpl.
        apply NoDup_set_delete. eauto.
      * rewrite lookup_insert_ne by done. eauto.
    + intros c' s'. destruct (decide (c' = c)) as [->|].
      * rewrite lookup_insert_eq. intros [= <-]. simpl.
        apply NoDup_set_delete. eauto.
      * rewrite lookup_insert_ne by done. eauto.
  - unfold publish. destruct (topics st !! t) as [topic|] eqn:Ht; simpl; [|done].
    match goal with |- context [fanout ?a ?b ?c ?d] =>
      assert (NoDupSets b) as H1; [|
        pose proof (fanout_preserves NoDupSets NoDupSets_enqueueMessage a c d b H1) as HF;
        destruct (fanout a b c d) as [st2 failed] ] end.
    { revert HN. apply NoDupSets_ext; [|done]. intros t'. simpl.
      destruct (decide (t' = t)) as [->|].
      - by rewrite lookup_insert_eq, Ht.
      - by rewrite lookup_insert_ne. }
    done.
  - by apply NoDupSets_removeSubscriber.
  - eapply NoDupSets_delivery; [apply flushSubscriberQueue_delivery|done].
  - done.
Qed.

Lemma NoDupSets_run ops st : NoDupSets st → NoDupSets (run ops st).
Proof.
  revert st. induction ops as [|op ops IH]; intros st H; simpl; [done|].
  apply IH, NoDupSets_step, H.
Qed.

Lemma NoDupSets_new options : NoDupSets (new_PubSubSystem options).
Proof. split; simpl; intros ??; by rewrite lookup_empty. Qed.

(** ** Statistics follow the registry *)

Lemma foldl_preserves {A} (P : PubSubSystem → Prop)
    (f : PubSubSystem → A → PubSubSystem) l st :
  (∀ st x, P st → P (f st x)) → P st → P (foldl f st l).
Proof.
  intros Hf. revert st. induction l as [|x l IH]; intros st H; simpl; auto.
Qed.

Lemma StatsAgree_delivery g st st' : delivery st st' → StatsAgree st g → StatsAgree st' g.
Proof. intros [HT HS _ _ _ _] H t. rewrite HT, HS. apply H. Qed.

Lemma StatsAgree_remove_from_topic g c st x :
  StatsAgree st g → StatsAgree (remove_from_topic c st x) g.
Proof.
  intros H t. unfold remove_from_topic.
  destruct (topics st !! x) as [topic|] eqn:Hx; [|apply H].
  pose proof (H x) as Hsx. rewrite Hx in Hsx.
  destruct (g !! x) as [s|] eqn:Hg.
  - cbn [stats with_topics]. rewrite Hsx. simpl.
    destruct (decide (t = x)) as [->|].
    + by rewrite !lookup_insert_eq, Hg.
    + rewrite !lookup_insert_ne by done. apply H.
  - cbn [stats with_topics]. rewrite Hsx. simpl.
    destruct (decide (t = x)) as [->|].
    + by rewrite lookup_insert_eq, Hg, Hsx.
    + rewrite lookup_insert_ne by done. apply H.
Qed.

Lemma StatsAgree_removeSubscriber g st c :
  StatsAgree st g → StatsAgree (removeSubscriber st c) g.
Proof.
  intros H. unfold removeSubscriber. destruct (subscribers st !! c) as [s|]; [|done].
  simpl. apply (foldl_preserves (λ st, StatsAgree st g) (remove_from_topic c));
    [|done].
  intros st' x. apply StatsAgree_remove_from_topic.
Qed.

Lemma StatsAgree_enqueueMessage g now st c m :
  StatsAgree st g → StatsAgree (enqueueMessage now st c m).1 g.
Proof.
  apply (enqueueMessage_preserves (λ st, StatsAgree st g)).
  - apply StatsAgree_delivery.
  - apply StatsAgree_removeSubscriber.
Qed.

Lemma StatsAgree_step st g op :
  History st g → StatsAgree st g →
  StatsAgree (step st op) (stream_step g op).
Proof.
  intros HH H.
  destruct op as [t|now t|now c w t n|c t|now t m|c|c|w r b]; simpl.
  - (* createTopic *)
    unfold createTopic. pose proof (History_is_Some g st t HH) as Hd.
    destruct (topics st !! t) eqn:Ht; simpl.
    + destruct (g !! t) eqn:Hg; [done|]. destruct Hd as [_ Hd].
      destruct Hd as [??]; [by eexists|done].
    + destruct (g !! t) eqn:Hg.
      { destruct Hd as [Hd _]. destruct Hd as [??]; [by eexists|done]. }
      intros t'. simpl. destruct (decide (t' = t)) as [->|].
      * by rewrite !lookup_insert_eq.
      * rewrite !lookup_insert_ne by done. apply H.
  - (* deleteTopic *)
    unfold deleteTopic. destruct (topics st !! t) as [topic|] eqn:Ht; simpl.
    + intros t'. simpl.
      destruct (fold_detach_frame t (tsubscribers topic)
                  (foldl (notify_deleted t now) st (tsubscribers topic)))
        as (-> & -> & _).
      destruct (fold_notify_delivery t now (tsubscribers topic) st)
        as [-> -> _ _ _ _].
      destruct (decide (t' = t)) as [->|].
      * by rewrite !lookup_delete_eq.
      * rewrite !lookup_delete_ne by done. apply H.
    + rewrite delete_id; [done|].
      pose proof (History_is_Some g st t HH) as Hd. rewrite Ht in Hd.
      destruct (g !! t); [|done]. destruct Hd as [Hd _].
      destruct Hd as [??]; [by eexists|done].
  - (* subscribe *)
    unfold subscribe. destruct (topics st !! t) as [topic|] eqn:Ht;
      cbn [fst snd]; [|done].
    destruct (join_frame st c w t topic) as (_ & Hstats & _).
    rewrite Hstats. pose proof (H t) as Hst. rewrite Ht in Hst.
    destruct (topicStats (stats st) !! t) as [ts|] eqn:Hts; cbn [fst snd].
    2:{ intros t'. rewrite Hstats, join_topics.
        destruct (decide (t' = t)) as [->|].
        - rewrite lookup_insert_eq, Hts. by destruct (g !! t).
        - rewrite lookup_insert_ne by done. apply H. }
    match goal with |- context [with_stats ?f ?x] =>
      assert (StatsAgree (with_stats f x) g) as H2 end.
    { intros t'. cbn [stats with_stats topicStats with_topicStats topics].
      rewrite Hstats, join_topics.
      destruct (decide (t' = t)) as [->|].
      - rewrite !lookup_insert_eq.
        destruct (g !! t); simplify_eq/=. done.
      - rewrite !lookup_insert_ne by done. apply H. }
    case_decide; cbn [fst snd]; [|done].
    match goal with |- context [replay ?a ?b ?c ?d] =>
      pose proof (replay_preserves (λ st, StatsAgree st g)
                    (StatsAgree_enqueueMessage g) a d c b) as HR;
      destruct (replay a b c d) as [st' [[]|msg]] end; by apply HR.
  - (* unsubscribe *)
    unfold unsubscribe. destruct (topics st !! t) as [topic|] eqn:Ht; simpl; [|done].
    destruct (subscribers st !! c) as [s|]; simpl; [|done].
    pose proof (H t) as Hst. rewrite Ht in Hst.
    destruct (topicStats (stats st) !! t) as [ts|] eqn:Hts; intros t'; simpl.
    + destruct (decide (t' = t)) as [->|].
      * rewrite !lookup_insert_eq. destruct (g !! t); simplify_eq/=. done.
      * rewrite !lookup_insert_ne by done. apply H.
    + destruct (decide (t' = t)) as [->|].
      * rewrite lookup_insert_eq, Hts. by destruct (g !! t).
      * rewrite lookup_insert_ne by done. apply H.
  - (* publish *)
    unfold publish. destruct (topics st !! t) as [topic|] eqn:Ht; simpl.
    + match goal with |- context [fanout ?a ?b ?c ?d] =>
        assert (StatsAgree b g) as H1; [|
          pose proof (fanout_preserves (λ st, StatsAgree st g)
                        (StatsAgree_enqueueMessage g) a c d b H1) as HF;
          destruct (fanout a b c d) as [st2 failed] ] end.
      { intros t'. simpl. destruct (decide (t' = t)) as [->|].
        - rewrite lookup_insert_eq. specialize (H t). by rewrite Ht in H.
        - rewrite lookup_insert_ne by done. apply H. }
      simpl in *. intros t'. simpl. specialize (HF t').
      destruct (decide (t' = t)) as [->|].
      * rewrite !lookup_alter_eq, HF.
        destruct (topics st2 !! t), (g !! t); simpl; try done.
        by rewrite length_app, Nat.add_1_r.
      * by rewrite !lookup_alter_ne.
    + intros t'. destruct (decide (t' = t)) as [->|].
      * rewrite lookup_alter_eq. specialize (H t). rewrite Ht in H.
        rewrite Ht. done.
      * rewrite lookup_alter_ne by done. apply H.
  - by apply StatsAgree_removeSubscriber.
  - eapply StatsAgree_delivery; [apply flushSubscriberQueue_delivery|done].
  - done.
Qed.

Lemma StatsAgree_foldl ops st g :
  History st g → StatsAgree st g →
  StatsAgree (foldl step st ops) (foldl stream_step g ops).
Proof.
  revert st g. induction ops as [|op ops IH]; intros st g HH H; simpl; [done|].
  apply IH; [by apply History_step|by apply StatsAgree_step].
Qed.

Lemma StatsAgree_run options ops :
  StatsAgree (run ops (new_PubSubSystem options)) (streams ops).
Proof.
  apply StatsAgree_foldl; intros t; simpl; by rewrite !lookup_empty.
Qed.


(** X2.  [unsubscribe] and [deleteTopic] never remove a subscriber record:
    whatever their outcome, the clients that have a record are the same
    before and after, so the subscriber count of [getHealth] is the same,
    also for a client that has left its last topic. *)
Theorem unsubscribe_deleteTopic_keep_records st c t now startTime clock :
  dom (subscribers (unsubscribe st c t).1) = dom (subscribers st)
  ∧ dom (subscribers (deleteTopic now st t).1) = dom (subscribers st)
  ∧ health_subscribers (getHealth startTime clock (unsubscribe st c t).1)
    = health_subscribers (getHealth startTime clock st)
  ∧ health_subscribers (getHealth startTime clock (deleteTopic now st t).1)
    = health_subscribers (getHealth startTime clock st).
Proof.
  assert (dom (subscribers (unsubscribe st c t).1) = dom (subscribers st)) as H1.
  { unfold unsubscribe.
    destruct (topics st !! t) as [topic|]; [|done].
    destruct (subscribers st !! c) as [s|] eqn:Hs; [|done].
    cbn [fst]. 
    match goal with |- dom (subscribers ?x) = _ =>
      assert (subscribers x = <[c := set_stopics (set_delete t) s]> (subscribers st))
        as -> by (by destruct (topicStats _ !! t)) end.
    apply dom_insert_lookup_L. by eexists. }
  assert (dom (subscribers (deleteTopic now st t).1) = dom (subscribers st)) as H2.
  { unfold deleteTopic. destruct (topics st !! t) as [topic|]; [|done].
    cbn [fst subscribers with_stats with_topics].
    apply set_eq. intros x. rewrite !elem_of_dom, fold_detach_subscribers.
    rewrite fold_notify_subscribers.
    case_decide; [|done]. by rewrite fmap_is_Some. }
  split_and!; try done.
  - unfold getHealth. simpl. by rewrite <- !size_dom, H1.
  - unfold getHealth. simpl. by rewrite <- !size_dom, H2.
Qed.

(** ** One enqueue *)

Lemma slow_consumer_subscribers now st w :
  subscribers (slow_consumer now st w) = subscribers st.
Proof. unfold slow_consumer. by destruct (ws_send _ _). Qed.

Lemma enqueueMessage_other_record now st c m c' :
  c' ≠ c →
  subscribers (enqueueMessage now st c m).1 !! c' = subscribers st !! c'.
Proof.
  intros Hne.
  destruct (enqueueMessage_case now st c m)
    as [Hn|s1 H1 H2|s1 H1 H2 H3 H4|s1 H1 H2 H3 H4|s1 H1 H2 H3]; simpl.
  - done.
  - by rewrite removeSubscriber_subscribers, lookup_delete_ne.
  - by rewrite removeSubscriber_subscribers, lookup_delete_ne,
      slow_consumer_subscribers.
  - rewrite pushed_eq by done. simpl. by rewrite lookup_insert_ne.
  - rewrite pushed_eq by done. simpl. by rewrite lookup_insert_ne.
Qed.

Lemma bindings_kept_refl st : bindings_kept st st.
Proof. intros c s Hs. eauto. Qed.

Lemma bindings_kept_trans st1 st2 st3 :
  bindings_kept st1 st2 → bindings_kept st2 st3 → bindings_kept st1 st3.
Proof.
  intros H12 H23 c s3 Hs3.
  destruct (H23 c s3 Hs3) as (s2 & Hs2 & Hw2).
  destruct (H12 c s2 Hs2) as (s1 & Hs1 & Hw1).
  exists s1. split; [done|congruence].
Qed.

Lemma bindings_kept_delivery st st' : delivery st st' → bindings_kept st st'.
Proof.
  intros Hd c s' Hs'. pose proof (dl_records _ _ Hd c) as H.
  rewrite Hs' in H. destruct (subscribers st !! c) as [s|]; simplify_eq/=.
  eauto.
Qed.

Lemma bindings_kept_removeSubscriber st c : bindings_kept st (removeSubscriber st c).
Proof.
  intros c' s'. rewrite removeSubscriber_subscribers.
  intros [_ Hs]%lookup_delete_Some. eauto.
Qed.

Lemma bindings_kept_enqueueMessage now st c m :
  bindings_kept st (enqueueMessage now st c m).1.
Proof.
  apply (enqueueMessage_preserves (bindings_kept st)); [..|apply bindings_kept_refl].
  - intros st1 st2 Hd H1. eapply bindings_kept_trans; [done|].
    by apply bindings_kept_delivery.
  - intros st1 c' H1. eapply bindings_kept_trans; [done|].
    apply bindings_kept_removeSubscriber.
Qed.

(** X3.  [enqueueMessage] succeeds exactly when the client has a record
    whose transport is open and the DISCONNECT policy does not fire (the
    queue is below capacity or the policy is DROP_OLDEST), and then the
    record is still there.  When it throws, the error is one of
    SUBSCRIBER_NOT_FOUND, SUBSCRIBER_DISCONNECTED and SLOW_CONSUMER and the
    client has no record afterwards.  It never touches the record of
    another client. *)
Theorem enqueueMessage_outcome now st c m :
  let r := enqueueMessage now st c m in
  (r.2 = Ok ()
   ↔ ∃ s, subscribers st !! c = Some s
          ∧ readyState (socket st (ws s)) = 1
          ∧ (length (queue s) < maxQueueSize st
             ∨ backpressurePolicy st = DROP_OLDEST))
  ∧ (r.2 = Ok () → is_Some (subscribers r.1 !! c))
  ∧ (∀ msg, r.2 = Throw msg →
       subscribers r.1 !! c = None
       ∧ msg ∈ ["SUBSCRIBER_NOT_FOUND"; "SUBSCRIBER_DISCONNECTED"; "SLOW_CONSUMER"])
  ∧ (∀ c', c' ≠ c → subscribers r.1 !! c' = subscribers st !! c').
Proof.
  intros r. split_and!; [..|intros c' Hne; by apply enqueueMessage_other_record].
  all: subst r;
    destruct (enqueueMessage_case now st c m)
      as [Hn|s1 H1 H2|s1 H1 H2 H3 H4|s1 H1 H2 H3 H4|s1 H1 H2 H3]; simpl.
  - split; [done|]. intros (s & Hs & _). congruence.
  - split; [done|]. intros (s & Hs & Ho & _). congruence.
  - split; [done|]. intros (s & Hs & Ho & [Hr|Hp]); simplify_eq; [lia|congruence].
  - split; [|done]. intros _. exists s1. auto.
  - split; [|done]. intros _. exists s1. auto.
  - done.
  - done.
  - done.
  - intros _. rewrite pushed_subscriber by done. by eexists.
  - intros _. rewrite pushed_subscriber by done. by eexists.
  - intros msg [= <-]. split; [done|]. repeat constructor.
  - intros msg [= <-]. rewrite removeSubscriber_subscribers, lookup_delete_eq.
    split; [done|]. repeat constructor.
  - intros msg [= <-]. rewrite removeSubscriber_subscribers, lookup_delete_eq.
    split; [done|]. repeat constructor.
  - done.
  - done.
Qed.

(** X4.  Under DISCONNECT, enqueuing an event for a subscriber whose
    transport is open and whose queue is at capacity throws SLOW_CONSUMER
    and removes the record, queue and all; the event is not delivered.  If
    the transport accepts one more frame it is sent the SLOW_CONSUMER error
    and closed with code 1008; if that send throws the transport is left
    as it was, open.  No other record and no other transport is touched. *)
Theorem disconnect_removes_slow_consumer now st c m s :
  backpressurePolicy st = DISCONNECT →
  subscribers st !! c = Some s →
  readyState (socket st (ws s)) = 1 →
  maxQueueSize st ≤ length (queue s) →
  let r := enqueueMessage now st c m in
  r.2 = Throw "SLOW_CONSUMER"
  ∧ subscribers r.1 !! c = None
  ∧ socket r.1 (ws s)
    = match sendBudget (socket st (ws s)) with
      | 0 => socket st (ws s)
      | S b =>
          {| readyState := 2; sendBudget := b;
             sent := sent (socket st (ws s))
                     ++ [f_error None "SLOW_CONSUMER" "Subscriber queue overflow" now];
             closeCall := Some (1008, "SLOW_CONSUMER") |}
      end
  ∧ (∀ x, x ≠ ws s → socket r.1 x = socket st x)
  ∧ (∀ c', c' ≠ c → subscribers r.1 !! c' = subscribers st !! c').
Proof.
  intros Hp Hs Hopen Hfull r.
  split_and!; [..|intros c' Hne; by apply enqueueMessage_other_record].
  all: subst r;
    destruct (enqueueMessage_case now st c m)
      as [Hn|s1 H1 H2|s1 H1 H2 H3 H4|s1 H1 H2 H3 H4|s1 H1 H2 H3];
    simplify_eq/=; try congruence; try lia.
  - by rewrite removeSubscriber_subscribers, lookup_delete_eq.
  - unfold socket at 1.
    destruct (removeSubscriber_frame (slow_consumer now st (ws s)) c) as (-> & _).
    unfold slow_consumer, ws_send.
    destruct (sendBudget (socket st (ws s))); [done|]. simpl.
    by rewrite lookup_total_insert_eq.
  - intros x Hx. unfold socket at 1.
    destruct (removeSubscriber_frame (slow_consumer now st (ws s)) c) as (-> & _).
    unfold slow_consumer. destruct (ws_send _ _); [|done]. simpl.
    by rewrite lookup_total_insert_ne.
Qed.

Lemma disconnect_removes_slow_consumer_witness :
  let st := run (ops_full_queue 5) (new_PubSubSystem options_disconnect1) in
  let r := enqueueMessage "t2" st "a" (E "orders" "E2" "t2") in
  closeCall (socket r.1 1) = Some (1008, "SLOW_CONSUMER")
  ∧ subscribers r.1 !! "a" = None.
Proof.
  intros st r.
  destruct (disconnect_removes_slow_consumer "t2" st "a" (E "orders" "E2" "t2")
              {| ws := 1; stopics := ["orders"]; queue := [E "orders" "E1" "t1"] |})
    as (_ & H2 & H3 & _).
  - vm_compute. reflexivity.
  - vm_compute. reflexivity.
  - vm_compute. reflexivity.
  - vm_compute. lia.
  - split; [|exact H2]. unfold r. simpl in H3. rewrite H3. vm_compute. reflexivity.
Defined.

(** ** The fan-out loop *)

Lemma absent_enqueueMessage c now st c' m :
  subscribers st !! c = None →
  subscribers (enqueueMessage now st c' m).1 !! c = None.
Proof.
  apply (enqueueMessage_preserves (λ st, subscribers st !! c = None)).
  - intros st1 st2 Hd H. pose proof (dl_records _ _ Hd c) as Hr.
    rewrite H in Hr. by destruct (subscribers st2 !! c).
  - intros st1 c0 H. rewrite removeSubscriber_subscribers.
    apply lookup_delete_None. by right.
Qed.

Lemma absent_fanout c now l m st :
  subscribers st !! c = None → subscribers (fanout now st l m).1 !! c = None.
Proof.
  apply (fanout_preserves (λ st, subscribers st !! c = None)).
  intros now' st' c' m'. apply absent_enqueueMessage.
Qed.

Lemma fanout_other_record now l m st c :
  c ∉ l → subscribers (fanout now st l m).1 !! c = subscribers st !! c.
Proof.
  revert st. induction l as [|c' l IH]; intros st Hc; simpl; [done|].
  apply not_elem_of_cons in Hc as [Hne Hc].
  pose proof (enqueueMessage_other_record now st c' m c Hne) as H1.
  destruct (enqueueMessage now st c' m) as [st1 [[]|msg]]; simpl in *.
  - by rewrite IH.
  - specialize (IH st1 Hc). destruct (fanout now st1 l m). simpl in *.
    by rewrite IH.
Qed.

Lemma filter_not_in_nil (l : list string) :
  filter (λ c, c ∉ ([] : list string)) l = l.
Proof.
  induction l as [|x l IH]; [done|]. rewrite filter_cons.
  rewrite decide_True by apply not_elem_of_nil. by rewrite IH.
Qed.

(** After the loop the subscriber set of the topic has lost exactly the
    clients whose enqueue failed, which have no record any more; the
    clients whose enqueue succeeded still have theirs. *)
Lemma fanout_outcome now m t l st tp :
  Membership st →
  topics st !! t = Some tp →
  (∀ c, c ∈ l → c ∈ tsubscribers tp) →
  NoDup l →
  let r := fanout now st l m in
  ∃ tp',
    topics r.1 !! t = Some tp'
    ∧ tsubscribers tp' = filter (λ c, c ∉ r.2.*1) (tsubscribers tp)
    ∧ messageHistory tp' = messageHistory tp
    ∧ r.2.*1 `sublist_of` l
    ∧ (∀ c, c ∈ r.2.*1 → subscribers r.1 !! c = None)
    ∧ (∀ c, c ∈ l → c ∉ r.2.*1 → is_Some (subscribers r.1 !! c)).
Proof.
  revert st tp. induction l as [|c l IH]; intros st tp HM Ht Hsub Hnd; simpl.
  { exists tp. rewrite filter_not_in_nil.
    split_and!; try done; intros c Hc; by apply elem_of_nil in Hc. }
  apply NoDup_cons in Hnd as [Hcl Hnd].
  assert (c ∈ tsubscribers tp) as Hc by (apply Hsub; left).
  destruct (mem_topic _ HM t tp c Ht Hc) as (s & Hs & Hts).
  assert (∀ stX, delivery st stX →
            let st1 := removeSubscriber stX c in
            ∀ msg,
            let r := (let '(st'', failedDeliveries) := fanout now st1 l m in
                      (st'', (c, msg) :: failedDeliveries)) in
            ∃ tp',
              topics r.1 !! t = Some tp'
              ∧ tsubscribers tp' = filter (λ c, c ∉ r.2.*1) (tsubscribers tp)
              ∧ messageHistory tp' = messageHistory tp
              ∧ r.2.*1 `sublist_of` c :: l
              ∧ (∀ c0, c0 ∈ r.2.*1 → subscribers r.1 !! c0 = None)
              ∧ (∀ c0, c0 ∈ c :: l → c0 ∉ r.2.*1 → is_Some (subscribers r.1 !! c0)))
    as Hremove.
  { intros stX Hd st1 msg.
    assert (Membership st1) as HM1.
    { apply Membership_removeSubscriber. by eapply Membership_delivery. }
    assert (∃ sX, subscribers stX !! c = Some sX ∧ stopics sX = stopics s)
      as (sX & HsX & HtX).
    { pose proof (dl_records _ _ Hd c) as Hr. rewrite Hs in Hr.
      destruct (subscribers stX !! c) as [sX|]; simplify_eq/=. eauto. }
    assert (topics st1 !! t = Some (set_tsubscribers (set_delete c) tp)) as Ht1.
    { unfold st1. rewrite removeSubscriber_topics, HsX, HtX.
      rewrite decide_True by done. by rewrite (dl_topics _ _ Hd), Ht. }
    destruct (IH st1 _ HM1 Ht1) as (tp' & Ht' & Hf & Hh & Hsl & Hgone & Hkept).
    { intros c0 Hc0. simpl. apply elem_of_set_delete. split; [|by apply Hsub; right].
      intros ->. done. }
    { done. }
    assert (subscribers (fanout now st1 l m).1 !! c = None) as Hcgone.
    { apply absent_fanout. unfold st1.
      by rewrite removeSubscriber_subscribers, lookup_delete_eq. }
    destruct (fanout now st1 l m) as [st'' failed]. simpl in *.
    exists tp'. split_and!; try done.
    - rewrite Hf. unfold set_delete. rewrite list_filter_filter.
      apply list_filter_iff. intros x. rewrite not_elem_of_cons. tauto.
    - by apply sublist_skip.
    - intros c0 [->|Hc0]%elem_of_cons; [done|by apply Hgone].
    - intros c0 Hc0 Hn. apply not_elem_of_cons in Hn as [Hne Hn].
      apply elem_of_cons in Hc0 as [?|Hc0]; [done|]. by apply Hkept. }
  pose proof (enqueueMessage_case now st c m) as Hcase.
  destruct (enqueueMessage now st c m) as [st1 res].
  inversion Hcase as [Hn|s1 H1 H2|s1 H1 H2 H3 H4|s1 H1 H2 H3 H4|s1 H1 H2 H3];
    subst; simplify_eq.
  - apply (Hremove st (delivery_refl st)).
  - apply (Hremove _ (slow_consumer_delivery now st (ws s))).
  - assert (delivery st (pushed st c s (shift (queue s)) m)) as Hd
      by (by apply pushed_delivery).
    destruct (IH (pushed st c s (shift (queue s)) m) tp)
      as (tp' & Ht' & Hf & Hh & Hsl & Hgone & Hkept); try done.
    { by eapply Membership_delivery. }
    { by rewrite (dl_topics _ _ Hd). }
    { intros c0 Hc0. apply Hsub. by right. }
    exists tp'. split_and!; try done.
    + by apply sublist_cons.
    + intros c0 [->|Hc0]%elem_of_cons Hn; [|by apply Hkept].
      rewrite fanout_other_record by done.
      rewrite pushed_subscriber by done. by eexists.
  - assert (delivery st (pushed st c s (queue s) m)) as Hd
      by (by apply pushed_delivery).
    destruct (IH (pushed st c s (queue s) m) tp)
      as (tp' & Ht' & Hf & Hh & Hsl & Hgone & Hkept); try done.
    { by eapply Membership_delivery. }
    { by rewrite (dl_topics _ _ Hd). }
    { intros c0 Hc0. apply Hsub. by right. }
    exists tp'. split_and!; try done.
    + by apply sublist_cons.
    + intros c0 [->|Hc0]%elem_of_cons Hn; [|by apply Hkept].
      rewrite fanout_other_record by done.
      rewrite pushed_subscriber by done. by eexists.
Qed.

Lemma filter_not_in_length (L F : list string) :
  NoDup L → F `sublist_of` L →
  length (filter (λ c, c ∉ F) L) + length F = length L.
Proof.
  intros Hnd Hsub. induction Hsub as [|x F L Hsub IH|x F L Hsub IH].
  - done.
  - apply NoDup_cons in Hnd as [Hx Hnd]. rewrite filter_cons.
    rewrite decide_False by (intros H; apply H; left). simpl.
    rewrite <- (IH Hnd), Nat.add_succ_r. do 3 f_equal.
    clear IH Hsub Hnd. induction L as [|y L IHL]; [done|].
    apply not_elem_of_cons in Hx as [Hne Hx]. rewrite !filter_cons.
    rewrite (IHL Hx).
    destruct (decide (y ∈ F)) as [HyF|HyF].
    + rewrite decide_False by (intros H; apply H; by right).
      by rewrite decide_False by (intros H; by apply H).
    + rewrite decide_True by (by intros [?|?]%elem_of_cons).
      by rewrite decide_True.
  - apply NoDup_cons in Hnd as [Hx Hnd]. rewrite filter_cons.
    rewrite decide_True; [simpl; by rewrite (IH Hnd)|].
    intros HxF. apply Hx. by eapply elem_of_sublist.
Qed.

(** X5.  After any sequence of operations, [publish] on an existing topic
    returns [published]; the clients it reports in [failedDeliveries] are
    subscribers of the topic, in the order of the subscriber set, and each
    of them has been removed: it has no record and is no longer in the
    set.  The other subscribers stay, in order, and still have a record;
    failed and remaining add up to the subscribers there were, and
    [subscribersReached] is the number remaining minus the number failed.
    The event is pushed on the history ring. *)
Theorem publish_removes_failed options ops now t m topic :
  let st := run ops (new_PubSubSystem options) in
  topics st !! t = Some topic →
  ∃ st' failed topic',
    publish now st t m
    = (st', Ok (published t
                  (Z.of_nat (length (tsubscribers topic')) - Z.of_nat (length failed))
                  failed))
    ∧ topics st' !! t = Some topic'
    ∧ tsubscribers topic' = filter (λ c, c ∉ failed.*1) (tsubscribers topic)
    ∧ length (tsubscribers topic') + length failed = length (tsubscribers topic)
    ∧ failed.*1 `sublist_of` tsubscribers topic
    ∧ (∀ c, c ∈ failed.*1 → subscribers st' !! c = None)
    ∧ (∀ c, c ∈ tsubscribers topic' → is_Some (subscribers st' !! c))
    ∧ messageHistory topic'
      = ring_push (ringBufferSize st)
          {| ev_topic := t; ev_message := m; ev_ts := now |}
          (messageHistory topic).
Proof.
  intros st Ht.
  pose proof (Membership_run ops _ (Membership_new options)) as HM. fold st in HM.
  pose proof (NoDupSets_run ops _ (NoDupSets_new options)) as [HN _]. fold st in HN.
  pose proof (HN t topic Ht) as Hnd.
  unfold publish. rewrite Ht.
  set (ev := {| ev_topic := t; ev_message := m; ev_ts := now |}).
  set (tp1 := set_messageHistory (ring_push (ringBufferSize st) ev) topic).
  set (st1 := with_topics (insert t tp1) st).
  assert (Membership st1) as HM1.
  { revert HM. apply Membership_ext; [|done]. intros t'. simpl.
    destruct (decide (t' = t)) as [->|].
    - by rewrite lookup_insert_eq, Ht.
    - by rewrite lookup_insert_ne. }
  assert (topics st1 !! t = Some tp1) as Ht1 by (simpl; by rewrite lookup_insert_eq).
  destruct (fanout_outcome now ev t (tsubscribers topic) st1 tp1 HM1 Ht1)
    as (tp' & Ht' & Hf & Hh & Hsl & Hgone & Hkept); [done..|].
  pose proof (Membership_fanout now (tsubscribers topic) ev st1 HM1) as HM2.
  destruct (fanout now st1 (tsubscribers topic) ev) as [st2 failed].
  simpl in Ht', Hf, Hsl, Hgone, Hkept, HM2.
  rewrite Ht'. eexists _, failed, tp'. split; [reflexivity|].
  simpl. split_and!; try done.
  - rewrite Hf, <- (length_fmap fst failed). by apply filter_not_in_length.
  - intros c Hc. destruct (mem_topic _ HM2 t tp' c Ht' Hc) as (s & -> & _).
    by eexists.
Qed.

Lemma publish_removes_failed_witness :
  let st := run ops_closed_and_open (new_PubSubSystem default_options) in
  ∃ st' failed topic',
    publish "t1" st "orders" (U "U1")
    = (st', Ok (published "orders"
                  (Z.of_nat (length (tsubscribers topic')) - Z.of_nat (length failed))
                  failed))
    ∧ length (tsubscribers topic') + length failed = 2.
Proof.
  intros st.
  destruct (publish_removes_failed default_options ops_closed_and_open "t1"
              "orders" (U "U1")
              {| tsubscribers := ["a"; "b"]; messageHistory := [] |})
    as (st' & failed & topic' & H1 & _ & _ & H4 & _).
  - vm_compute. reflexivity.
  - exists st', failed, topic'. split; [exact H1|exact H4].
Defined.

Lemma bindings_kept_fanout now l m st : bindings_kept st (fanout now st l m).1.
Proof.
  apply (fanout_preserves (bindings_kept st)); [|apply bindings_kept_refl].
  intros now' st1 c m' H1. eapply bindings_kept_trans; [done|].
  apply bindings_kept_enqueueMessage.
Qed.

(** The loop writes to no transport but those its clients are bound to. *)
Lemma fanout_other_socket now l m st x :
  (∀ c s, c ∈ l → subscribers st !! c = Some s → ws s ≠ x) →
  socket (fanout now st l m).1 x = socket st x.
Proof.
  revert st. induction l as [|c l IH]; intros st Hx; simpl; [done|].
  assert (socket (enqueueMessage now st c m).1 x = socket st x) as H1.
  { destruct (subscribers st !! c) as [s|] eqn:Hs.
    - apply (enqueueMessage_binding now st c m (ws s)).
      + intros s'. rewrite Hs. by intros [= <-].
      + intros ->. eapply Hx; [by left|done..].
    - apply (enqueueMessage_binding now st c m (S x)).
      + intros s'. by rewrite Hs.
      + lia. }
  pose proof (bindings_kept_enqueueMessage now st c m) as Hb.
  destruct (enqueueMessage now st c m) as [st1 res]. simpl in *.
  assert (socket (fanout now st1 l m).1 x = socket st1 x) as H2.
  { apply IH. intros c' s' Hc' Hs'. destruct (Hb c' s' Hs') as (s & Hs & <-).
    eapply Hx; [by right|done]. }
  destruct res as [[]|msg]; [congruence|].
  destruct (fanout now st1 l m). simpl in *. congruence.
Qed.

Lemma fanout_app_state now l1 l2 m st :
  (fanout now st (l1 ++ l2) m).1 = (fanout now (fanout now st l1 m).1 l2 m).1.
Proof.
  revert st. induction l1 as [|c l1 IH]; intros st; simpl; [done|].
  destruct (enqueueMessage now st c m) as [st1 [[]|msg]].
  - apply IH.
  - specialize (IH st1). destruct (fanout now st1 (l1 ++ l2) m).
    destruct (fanout now st1 l1 m). done.
Qed.

Lemma fanout_other_history now l m st t :
  messageHistory <$> topics (fanout now st l m).1 !! t
  = messageHistory <$> topics st !! t.
Proof.
  apply (fanout_preserves
           (λ st', messageHistory <$> topics st' !! t
                   = messageHistory <$> topics st !! t)); [|done].
  intros now' st1 c m' H1. rewrite <- H1.
  apply (enqueueMessage_preserves
           (λ st', messageHistory <$> topics st' !! t
                   = messageHistory <$> topics st1 !! t)); [..|done].
  - intros sta stb Hd Ha. by rewrite (dl_topics _ _ Hd).
  - intros sta c' Ha. by rewrite removeSubscriber_history.
Qed.

(** X6 (isolation).  [publish] to a topic leaves alone every client that
    is not a subscriber of that topic: its record, queue included, is the
    same afterwards; no frame is written to a transport to which no
    subscriber of the topic is bound; and the history of every other topic
    is the same. *)
Theorem publish_isolation now st t m topic :
  topics st !! t = Some topic →
  let st' := (publish now st t m).1 in
  (∀ c, c ∉ tsubscribers topic → subscribers st' !! c = subscribers st !! c)
  ∧ (∀ x, (∀ c s, c ∈ tsubscribers topic → subscribers st !! c = Some s →
                  ws s ≠ x) →
          socket st' x = socket st x)
  ∧ (∀ t', t' ≠ t →
           messageHistory <$> topics st' !! t' = messageHistory <$> topics st !! t').
Proof.
  intros Ht st'. subst st'. unfold publish. rewrite Ht.
  set (ev := {| ev_topic := t; ev_message := m; ev_ts := now |}).
  set (st1 := with_topics _ st).
  pose proof (fanout_other_record now (tsubscribers topic) ev st1) as H1.
  pose proof (fanout_other_socket now (tsubscribers topic) ev st1) as H2.
  pose proof (fanout_other_history now (tsubscribers topic) ev st1) as H3.
  destruct (fanout now st1 (tsubscribers topic) ev) as [st2 failed].
  simpl in *. split_and!.
  - intros c Hc. by apply H1.
  - intros x Hx. by apply H2.
  - intros t' Hne. by rewrite H3, lookup_insert_ne.
Qed.

Lemma publish_isolation_witness :
  let st := run ops_two_topics (new_PubSubSystem default_options) in
  subscribers (publish "t1" st "orders" (U "U1")).1 !! "b" = subscribers st !! "b"
  ∧ socket (publish "t1" st "orders" (U "U1")).1 2 = socket st 2.
Proof.
  intros st.
  destruct (publish_isolation "t1" st "orders" (U "U1")
              {| tsubscribers := ["a"]; messageHistory := [] |})
    as (H1 & H2 & _).
  - vm_compute. reflexivity.
  - split.
    + apply H1. simpl. intros [?|H]%elem_of_cons; [done|by apply elem_of_nil in H].
    + apply H2. simpl. intros c s [->|H]%elem_of_cons; [|by apply elem_of_nil in H].
      vm_compute. intros [= <-]. simpl. lia.
Defined.

(** X7 (fan-out).  After any sequence of operations, [publish] delivers the
    event exactly once to every subscriber of the topic whose transport is
    open, whose queue has room and whose transport no other subscriber of
    the topic shares: what that client has been sent and is still owed
    grows by the one event, at the end, whatever happens to the other
    subscribers. *)
Theorem publish_delivers_once options ops now t m topic c s :
  let st := run ops (new_PubSubSystem options) in
  topics st !! t = Some topic →
  c ∈ tsubscribers topic →
  subscribers st !! c = Some s →
  readyState (socket st (ws s)) = 1 →
  length (queue s) < maxQueueSize st →
  (∀ c' s', c' ∈ tsubscribers topic → c' ≠ c →
            subscribers st !! c' = Some s' → ws s' ≠ ws s) →
  let st' := (publish now st t m).1 in
  ∃ s',
    subscribers st' !! c = Some s'
    ∧ ws s' = ws s
    ∧ sent (socket st' (ws s)) ++ (f_event <$> queue s')
      = sent (socket st (ws s))
        ++ (f_event <$> queue s ++ [{| ev_topic := t; ev_message := m; ev_ts := now |}]).
Proof.
  intros st Ht Hc Hs Hopen Hroom Hprivate st'. subst st'.
  pose proof (NoDupSets_run ops _ (NoDupSets_new options)) as [HN _]. fold st in HN.
  pose proof (HN t topic Ht) as Hnd. clear HN.
  unfold publish. rewrite Ht.
  set (ev := {| ev_topic := t; ev_message := m; ev_ts := now |}).
  set (st1 := with_topics _ st).
  assert (subscribers st1 = subscribers st) as HS1 by done.
  assert (∀ x, socket st1 x = socket st x) as HW1 by done.
  assert (maxQueueSize st1 = maxQueueSize st) as HQ1 by done.
  clearbody st1.
  apply list_elem_of_split in Hc as (l1 & l2 & Hl). rewrite Hl in Hnd, Hprivate |- *.
  apply NoDup_app in Hnd as (_ & Hl1 & Hnd2).
  apply NoDup_cons in Hnd2 as [Hl2 _].
  assert (c ∉ l1) as Hcl1 by (intros H; eapply Hl1; [done|by left]).
  assert ((fanout now st1 (l1 ++ c :: l2) ev).1
          = (fanout now (fanout now st1 l1 ev).1 (c :: l2) ev).1) as Happ
    by apply fanout_app_state.
  destruct (fanout now st1 (l1 ++ c :: l2) ev) as [st2 failed]. simpl in Happ.
  cbn [fst subscribers sockets with_stats].
  change (socket (with_stats _ (with_stats _ st2)) (ws s)) with (socket st2 (ws s)).
  subst st2.
  (* the subscribers before [c] *)
  pose proof (fanout_other_record now l1 ev st1 c Hcl1) as Hrec1.
  pose proof (bindings_kept_fanout now l1 ev st1) as Hb1.
  destruct (same_config_fanout now l1 ev st1) as (Hq1 & _).
  assert (socket (fanout now st1 l1 ev).1 (ws s) = socket st1 (ws s)) as Hsock1.
  { apply fanout_other_socket. intros c' s' Hc' Hs'.
    apply (Hprivate c' s'); [apply elem_of_app; by left| |by rewrite <- HS1].
    intros ->. done. }
  set (sta := (fanout now st1 l1 ev).1) in *. clearbody sta.
  rewrite HS1, Hs in Hrec1. rewrite HW1 in Hsock1. rewrite HQ1 in Hq1.
  (* [c] itself *)
  simpl.
  pose proof (enqueueMessage_case now sta c ev) as Hcase.
  pose proof (bindings_kept_enqueueMessage now sta c ev) as Hb2.
  destruct (enqueueMessage now sta c ev) as [stb res].
  inversion Hcase as [Hn|s1 H1 H2|s1 H1 H2 H3 H4|s1 H1 H2 H3 H4|s1 H1 H2 H3];
    subst; simplify_eq; try congruence; try lia.
  simpl in Hb2.
  pose proof (pushed_subscriber sta c s (queue s) ev Hrec1) as Hrecb.
  pose proof (pushed_socket sta c s (queue s) ev Hrec1) as Hsockb.
  rewrite Hsock1 in Hrecb, Hsockb. specialize (Hrecb Hopen). specialize (Hsockb Hopen).
  pose proof (drain_stream (queue s ++ [ev]) (socket st (ws s))) as Hstream.
  set (stb := pushed sta c s (queue s) ev) in *. clearbody stb.
  (* the subscribers after [c] *)
  pose proof (fanout_other_record now l2 ev stb c Hl2) as Hrec2.
  assert (socket (fanout now stb l2 ev).1 (ws s) = socket stb (ws s)) as Hsock2.
  { apply fanout_other_socket. intros c' s' Hc' Hs'.
    destruct (Hb2 c' s' Hs') as (sa & Hsa & <-).
    destruct (Hb1 c' sa Hsa) as (s0 & Hs0 & <-).
    apply (Hprivate c' s0);
      [apply elem_of_app; right; by right| |by rewrite <- HS1].
    intros ->. done. }
  rewrite Hrec2, Hrecb, Hsock2, Hsockb.
  eexists. split; [done|]. split; [done|]. simpl. exact Hstream.
Qed.

Lemma publish_delivers_once_witness :
  let st := run ops_closed_and_open (new_PubSubSystem default_options) in
  let s := {| ws := 2; stopics := ["orders"]; queue := [] |} in
  ∃ s', subscribers (publish "t1" st "orders" (U "U1")).1 !! "b" = Some s'
        ∧ ws s' = ws s
        ∧ sent (socket (publish "t1" st "orders" (U "U1")).1 (ws s))
          ++ (f_event <$> queue s')
          = sent (socket st (ws s))
            ++ (f_event <$> queue s
                ++ [{| ev_topic := "orders"; ev_message := U "U1"; ev_ts := "t1" |}]).
Proof.
  intros st s.
  apply (publish_delivers_once default_options ops_closed_and_open "t1" "orders"
           (U "U1") {| tsubscribers := ["a"; "b"]; messageHistory := [] |}
           "b" s).
  - vm_compute. reflexivity.
  - cbn [tsubscribers]. right. left.
  - vm_compute. reflexivity.
  - vm_compute. reflexivity.
  - vm_compute. lia.
  - cbn [tsubscribers].
    intros c' s' [->|[->|H]%elem_of_cons]%elem_of_cons Hne;
      [|done|by apply elem_of_nil in H].
    vm_compute. intros [= <-]. cbn [ws]. lia.
Defined.

(** ** Flushing *)

Lemma drain_drained q w : drain (drain q w).1 (drain q w).2 = drain q w.
Proof.
  rewrite (drain_eq q w). cbn [fst snd].
  rewrite drain_eq. cbn [readyState sendBudget sent closeCall].
  rewrite length_drop.
  replace ((length q - length q `min` sendBudget w)
             `min` (sendBudget w - length q `min` sendBudget w)) with 0 by lia.
  by rewrite drop_0, Nat.sub_0_r, app_nil_r.
Qed.

(** X8.  [flushSubscriberQueue] changes nothing when the client has no
    record or its transport is not open.  Otherwise it writes the first
    [min(|queue|, frames the transport accepts)] events of the queue to the
    transport, in queue order, and leaves the rest queued, in order: no
    event is lost, duplicated or reordered.  It touches nothing but that
    queue and that transport, and flushing again right away does nothing. *)
Theorem flushSubscriberQueue_fifo st c :
  let st' := flushSubscriberQueue st c in
  (subscribers st !! c = None → st' = st)
  ∧ (∀ s, subscribers st !! c = Some s →
          readyState (socket st (ws s)) ≠ 1 → st' = st)
  ∧ (∀ s, subscribers st !! c = Some s →
          readyState (socket st (ws s)) = 1 →
          let k := length (queue s) `min` sendBudget (socket st (ws s)) in
          subscribers st' !! c = Some (set_queue (drop k (queue s)) s)
          ∧ sent (socket st' (ws s))
            = sent (socket st (ws s)) ++ (f_event <$> take k (queue s))
          ∧ (∀ x, x ≠ ws s → socket st' x = socket st x))
  ∧ (∀ c', c' ≠ c → subscribers st' !! c' = subscribers st !! c')
  ∧ delivery st st'
  ∧ flushSubscriberQueue st' c = st'.
Proof.
  intros st'. subst st'. split_and!.
  - intros Hs. unfold flushSubscriberQueue. by rewrite Hs.
  - intros s Hs Hopen. unfold flushSubscriberQueue. rewrite Hs.
    by rewrite decide_False.
  - intros s Hs Hopen k. rewrite (flushSubscriberQueue_eq st c s) by done.
    rewrite drain_eq. cbn [fst snd]. split_and!.
    + cbn [subscribers with_sockets with_subscribers]. by rewrite lookup_insert_eq.
    + unfold socket at 1. cbn [sockets with_sockets].
      by rewrite lookup_total_insert_eq.
    + intros x Hx. unfold socket. cbn [sockets with_sockets with_subscribers].
      by rewrite lookup_total_insert_ne.
  - intros c' Hne. unfold flushSubscriberQueue.
    destruct (subscribers st !! c) as [s|]; [|done].
    case_decide; [|done]. destruct (drain _ _). simpl.
    by rewrite lookup_insert_ne.
  - apply flushSubscriberQueue_delivery.
  - destruct (subscribers st !! c) as [s|] eqn:Hs; cycle 1.
    { unfold flushSubscriberQueue. by rewrite !Hs. }
    destruct (decide (readyState (socket st (ws s)) = 1)) as [Hopen|Hclosed]; cycle 1.
    { unfold flushSubscriberQueue. rewrite !Hs. rewrite !decide_False by done.
      by rewrite Hs, decide_False. }
    rewrite (flushSubscriberQueue_eq st c s) by done.
    set (st1 := with_sockets _ _).
    assert (subscribers st1 !! c
            = Some (set_queue (drain (queue s) (socket st (ws s))).1 s)) as H1
      by (simpl; by rewrite lookup_insert_eq).
    assert (socket st1 (ws s) = (drain (queue s) (socket st (ws s))).2) as H2
      by (unfold socket; simpl; by rewrite lookup_total_insert_eq).
    rewrite (flushSubscriberQueue_eq st1 c _ H1); cycle 1.
    { cbn [ws set_queue]. by rewrite H2, drain_readyState. }
    cbn [ws queue set_queue]. rewrite H2, drain_drained.
    unfold st1, with_sockets, with_subscribers. simpl.
    by rewrite !insert_insert_eq.
Qed.

Lemma flushSubscriberQueue_fifo_witness :
  let st := transport (run ops_stalled (new_PubSubSystem options_queue2)) 1 1 1 in
  subscribers (flushSubscriberQueue st "a") !! "a"
  = Some {| ws := 1; stopics := ["orders"]; queue := [E "orders" "E2" "t2"] |}.
Proof.
  intros st.
  apply (proj1 (proj2 (proj2 (flushSubscriberQueue_fifo st "a")))
           {| ws := 1; stopics := ["orders"];
              queue := [E "orders" "E1" "t1"; E "orders" "E2" "t2"] |});
    vm_compute; reflexivity.
Defined.

(** ** Topics come and go *)

Lemma PubSubSystem_eq st st' :
  maxQueueSize st' = maxQueueSize st →
  ringBufferSize st' = ringBufferSize st →
  backpressurePolicy st' = backpressurePolicy st →
  topics st' = topics st →
  subscribers st' = subscribers st →
  totalMessages (stats st') = totalMessages (stats st) →
  totalSubscribers (stats st') = totalSubscribers (stats st) →
  topicStats (stats st') = topicStats (stats st) →
  sockets st' = sockets st →
  st' = st.
Proof.
  destruct st as [? ? ? ? ? [? ? ?] ?], st' as [? ? ? ? ? [? ? ?] ?]. simpl.
  by intros -> -> -> -> -> -> -> -> ->.
Qed.

(** X9.  After any sequence of operations, creating a topic whose name is
    free and deleting it again gives back the state there was, exactly:
    both calls succeed and nothing else is touched. *)
Theorem createTopic_deleteTopic_roundtrip options ops now t :
  let st := run ops (new_PubSubSystem options) in
  topics st !! t = None →
  (createTopic st t).2 = Ok (created t)
  ∧ deleteTopic now (createTopic st t).1 t = (st, Ok (deleted t)).
Proof.
  intros st Ht.
  pose proof (StatsAgree_run options ops t) as Hstats. fold st in Hstats.
  rewrite Ht in Hstats.
  unfold createTopic. rewrite Ht. split; [done|]. cbn [fst].
  unfold deleteTopic. cbn [topics with_stats with_topics].
  rewrite lookup_insert_eq. cbn [tsubscribers foldl]. f_equal.
  apply PubSubSystem_eq; simpl; try done.
  - by rewrite delete_insert_eq, delete_id.
  - by rewrite delete_insert_eq, delete_id.
Qed.

Lemma createTopic_deleteTopic_roundtrip_witness :
  let st := run ops_one_subscriber (new_PubSubSystem default_options) in
  deleteTopic "t1" (createTopic st "other").1 "other" = (st, Ok (deleted "other")).
Proof.
  apply (createTopic_deleteTopic_roundtrip default_options ops_one_subscriber
           "t1" "other").
  vm_compute. reflexivity.
Defined.



(** ** Subscribing again, and leaving *)

Lemma set_add_in x (s : list string) : x ∈ s → set_add x s = s.
Proof. intros H. unfold set_add. by rewrite decide_True. Qed.

(** X11.  After any sequence of operations, subscribing a client to a
    topic it is already joined to, without replay ([last_n <= 0]), succeeds
    and changes nothing at all: membership, statistics, queues and
    transports are as they were, whatever transport is passed. *)
Theorem subscribe_again_is_noop options ops now c w t n topic :
  let st := run ops (new_PubSubSystem options) in
  topics st !! t = Some topic →
  c ∈ tsubscribers topic →
  (n ≤ 0)%Z →
  subscribe now st c w t n = (st, Ok (subscribed t c)).
Proof.
  intros st Ht Hc Hn.
  pose proof (Membership_run ops _ (Membership_new options)) as HM. fold st in HM.
  pose proof (StatsAgree_run options ops t) as Hstats. fold st in Hstats.
  destruct (mem_topic _ HM t topic c Ht Hc) as (s & Hs & Hts).
  assert (is_Some (streams ops !! t)) as [stream Hstream].
  { apply (History_is_Some _ _ t (History_run options ops)). fold st. by eexists. }
  rewrite Ht, Hstream in Hstats.
  clearbody st. unfold subscribe. rewrite Ht.
  assert (join st c w t topic = st) as ->.
  { unfold join. rewrite Hs. apply PubSubSystem_eq; try done.
    - cbn [topics with_topics with_subscribers]. unfold set_tsubscribers.
      rewrite set_add_in by done. apply insert_id. rewrite Ht. by destruct topic.
    - cbn [subscribers with_topics with_subscribers].
      apply alter_id. intros s'. rewrite Hs. intros [= <-].
      unfold set_stopics. rewrite set_add_in by done. by destruct s. }
  destruct (topicStats (stats st) !! t) as [ts|] eqn:Hts'.
  2:{ done. }
  rewrite decide_False by lia. f_equal.
  apply PubSubSystem_eq; try done.
  cbn [stats with_stats topicStats with_topicStats].
  apply insert_id. rewrite Hts'. f_equal.
  rewrite set_add_in by done. by simplify_eq/=.
Qed.

Lemma subscribe_again_is_noop_witness :
  let st := run ops_one_subscriber (new_PubSubSystem default_options) in
  subscribe "t1" st "a" 7 "orders" 0 = (st, Ok (subscribed "orders" "a")).
Proof.
  apply (subscribe_again_is_noop default_options ops_one_subscriber "t1" "a" 7
           "orders" 0 {| tsubscribers := ["a"]; messageHistory := [] |}).
  - vm_compute. reflexivity.
  - simpl. left.
  - lia.
Defined.

(** X12.  After any sequence of operations, [removeSubscriber] of a client
    deletes its record, queue included, and takes the client out of the
    subscriber set of every topic, so that no topic lists it any more; it
    leaves the histories, the other records and all transports as they
    were (it does not close the client's transport), and doing it again,
    or for a client that has no record, changes nothing. *)
Theorem removeSubscriber_detaches options ops c :
  let st := run ops (new_PubSubSystem options) in
  let st' := removeSubscriber st c in
  subscribers st' !! c = None
  ∧ (∀ t topic, topics st' !! t = Some topic → c ∉ tsubscribers topic)
  ∧ (∀ t, topics st' !! t
          = set_tsubscribers (set_delete c) <$> topics st !! t)
  ∧ (∀ c', c' ≠ c → subscribers st' !! c' = subscribers st !! c')
  ∧ sockets st' = sockets st
  ∧ removeSubscriber st' c = st'
  ∧ (subscribers st !! c = None → st' = st).
Proof.
  intros st st'.
  pose proof (Membership_run ops _ (Membership_new options)) as HM. fold st in HM.
  assert (subscribers st' !! c = None) as Hgone.
  { unfold st'. by rewrite removeSubscriber_subscribers, lookup_delete_eq. }
  split_and!.
  - done.
  - intros t topic Ht Hin.
    destruct (mem_topic _ (Membership_removeSubscriber st c HM) t topic c Ht Hin)
      as (s & Hs & _).
    fold st' in Hs. congruence.
  - intros t. unfold st'. rewrite removeSubscriber_topics.
    destruct (subscribers st !! c) as [s|] eqn:Hs.
    + case_decide as Hin; [done|].
      destruct (topics st !! t) as [topic|] eqn:Ht; [|done]. simpl. f_equal.
      destruct topic as [subs hist]. unfold set_tsubscribers. simpl. f_equal.
      symmetry. apply set_delete_notin. intros Hc.
      destruct (mem_topic _ HM t _ c Ht Hc) as (s' & Hs' & Hin'). by simplify_eq.
    + destruct (topics st !! t) as [topic|] eqn:Ht; [|done]. simpl. f_equal.
      destruct topic as [subs hist]. unfold set_tsubscribers. simpl. f_equal.
      symmetry. apply set_delete_notin. intros Hc.
      destruct (mem_topic _ HM t _ c Ht Hc) as (s' & Hs' & Hin'). by simplify_eq.
  - intros c' Hne. unfold st'.
    by rewrite removeSubscriber_subscribers, lookup_delete_ne.
  - apply removeSubscriber_frame.
  - unfold removeSubscriber at 1. by rewrite Hgone.
  - intros Hs. unfold st', removeSubscriber. by rewrite Hs.
Qed.

(** * Further properties of the session handler *)

(** ** Message identifiers *)

Lemma get_None_length str i : String.get i str = None ↔ String.length str ≤ i.
Proof.
  revert i. induction str as [|c str IH]; intros [|i]; simpl;
    try (split; [intros; lia | done]).
  - split; [done | lia].
  - rewrite IH. lia.
Qed.

Lemma test_length regex str :
  test regex str = true → String.length str = length regex.
Proof.
  revert str. induction regex as [|class regex IH]; intros [|c str]; simpl;
    try done.
  intros [_ H]%andb_prop. by rewrite (IH str H).
Qed.

Lemma test_get regex str i class c :
  test regex str = true →
  regex !! i = Some class → String.get i str = Some c → class c = true.
Proof.
  revert str i. induction regex as [|class' regex IH]; intros [|c' str] i; simpl;
    try done.
  intros [Hc H]%andb_prop. destruct i as [|i]; simpl.
  - by intros [= <-] [= <-].
  - by apply IH.
Qed.

Lemma test_map f regex str :
  Forall (λ class, ∀ c, class (f c) = class c) regex →
  test regex (map_string f str) = test regex str.
Proof.
  intros Hf. revert str. induction Hf as [|class regex Hc Hf IH]; intros [|c str];
    simpl; try done.
  by rewrite Hc, IH.
Qed.

Lemma classes_ignore_case f :
  (f = lower ∨ f = upper) →
  Forall (λ class : Ascii.ascii → bool, ∀ c, class (f c) = class c) uuidRegex.
Proof.
  intros Hf.
  assert (∀ class, class ∈ [hex_class; dash_class; version_class; variant_class] →
                   ∀ c, class (f c) = class c) as Hall.
  { intros class Hin c.
    assert (f c = lower c ∨ f c = upper c) as [-> | ->]
      by (destruct Hf as [-> | ->]; auto).
    all: repeat (apply elem_of_cons in Hin as [->|Hin]);
      try (by apply elem_of_nil in Hin);
      destruct c as [[] [] [] [] [] [] [] []]; vm_compute; reflexivity. }
  apply Forall_forall. intros class Hin. apply Hall.
  unfold uuidRegex in Hin.
  repeat (apply elem_of_app in Hin as [Hin|Hin]);
    repeat (apply elem_of_replicate in Hin as [-> _]);
    repeat (apply list_elem_of_singleton in Hin as ->);
    repeat constructor.
Qed.

Lemma dash_class_eq c : dash_class c = true → c = dash.
Proof. destruct c as [[] [] [] [] [] [] [] []]; by vm_compute. Qed.

(** X13.  A string that [isValidUUID] accepts has exactly 36 characters,
    with [-] at positions 8, 13, 18 and 23, a version digit [1]-[5] at
    position 14, one of [8 9 a b A B] at position 19 and a hexadecimal
    digit everywhere else; and whether a string is accepted does not depend
    on the case of its letters. *)
Theorem isValidUUID_shape str :
  (isValidUUID str = true →
   String.length str = 36
   ∧ (∀ i, i ∈ [8; 13; 18; 23] → String.get i str = Some dash)
   ∧ (∃ v, String.get 14 str = Some v ∧ version_class v = true)
   ∧ (∃ r, String.get 19 str = Some r ∧ variant_class r = true)
   ∧ (∀ i c, i ∉ [8; 13; 14; 18; 19; 23] → String.get i str = Some c →
             hex_class c = true))
  ∧ isValidUUID (map_string lower str) = isValidUUID str
  ∧ isValidUUID (map_string upper str) = isValidUUID str.
Proof.
  split_and!.
  - intros H. unfold isValidUUID in H.
    pose proof (test_length _ _ H) as Hlen.
    change (length uuidRegex) with 36 in Hlen.
    assert (∀ i class, uuidRegex !! i = Some class →
                       ∃ c, String.get i str = Some c ∧ class c = true) as Hget.
    { intros i class Hi. destruct (String.get i str) as [c|] eqn:E.
      - exists c. split; [done|]. by apply (test_get _ _ _ _ _ H Hi).
      - apply lookup_lt_Some in Hi. change (length uuidRegex) with 36 in Hi.
        apply get_None_length in E. lia. }
    split_and!.
    + done.
    + intros i Hi.
      assert (uuidRegex !! i = Some dash_class) as Hc.
      { repeat (apply elem_of_cons in Hi as [->|Hi]); try done.
        by apply elem_of_nil in Hi. }
      destruct (Hget _ _ Hc) as (c & -> & Hd). by rewrite (dash_class_eq c Hd).
    + by apply (Hget 14 version_class).
    + by apply (Hget 19 variant_class).
    + intros i c Hi E.
      assert (i < 36) as Hlt.
      { destruct (decide (i < 36)); [done|].
        assert (String.get i str = None) as E'; [|congruence].
        apply get_None_length. lia. }
      assert (uuidRegex !! i = Some hex_class) as Hc.
      { do 36 (destruct i as [|i];
               [first [done | exfalso; apply Hi; repeat constructor]|]).
        lia. }
      destruct (Hget _ _ Hc) as (c' & E' & Hd). congruence.
  - apply test_map, classes_ignore_case. by left.
  - apply test_map, classes_ignore_case. by right.
Qed.

Lemma isValidUUID_shape_witness :
  String.length sample_uuid = 36
  ∧ isValidUUID (map_string lower sample_uuid) = isValidUUID sample_uuid.
Proof.
  split.
  - apply (proj1 (isValidUUID_shape sample_uuid)). vm_compute. reflexivity.
  - apply (proj1 (proj2 (isValidUUID_shape sample_uuid))).
Defined.

(** ** What a frame can change *)

Lemma truthy_Some x s : truthy x = Some s → x = Some s ∧ s ≠ "".
Proof. destruct x as [[|]|]; simpl; intros [= <-]; done. Qed.

Lemma registry_try_send st w f : registry (try_send st w f) = registry st.
Proof. unfold try_send. by destruct (ws_send _ _). Qed.

Lemma registry_reply now w known topic rid r :
  registry (reply now w known topic rid r) = registry r.1.
Proof.
  destruct r as [st [a|msg]]; simpl.
  - destruct (ws_send _ _); [done|]. apply registry_try_send.
  - apply registry_try_send.
Qed.

(** X14.  An inbound frame changes the registry (topics, subscriber
    records, statistics) only if it is a JSON object that names an existing
    topic and is a [subscribe] with a [client_id], an [unsubscribe] by a
    [client_id] that has a record, or a [publish] whose message has no [id]
    or a valid UUID as [id].  Every other frame (not JSON, [null], a missing
    or unknown type, [ping], a missing field, an unknown topic) leaves the
    registry as it was. *)
Theorem handleMessage_registry now st w data :
  registry (handleMessage now st w data) ≠ registry st →
  ∃ message topic,
    data = json_value message
    ∧ m_topic message = Some topic
    ∧ is_Some (topics st !! topic)
    ∧ (m_type message = Some "subscribe"
         ∧ is_Some (truthy (m_client_id message))
       ∨ m_type message = Some "unsubscribe"
         ∧ (∃ c, m_client_id message = Some c ∧ is_Some (subscribers st !! c))
       ∨ m_type message = Some "publish"
         ∧ ∃ msg, m_message message = Some msg
                  ∧ (id msg = "" ∨ isValidUUID (id msg) = true)).
Proof.
  unfold handleMessage, sendError. intros H.
  destruct data as [| |message]; try (by rewrite registry_try_send in H).
  destruct (truthy (m_type message)) as [type|] eqn:Htype;
    [|by rewrite registry_try_send in H].
  apply truthy_Some in Htype as [Htype _].
  exists message.
  match type of H with context [if ?b then _ else _] =>
    destruct b eqn:Hid end; [by rewrite registry_try_send in H|].
  destruct (decide (type = "subscribe")) as [->|Hsub].
  { unfold handleSubscribe, sendError in H.
    destruct (truthy (m_topic message)) as [topic|] eqn:Htopic;
      [|by rewrite registry_try_send in H].
    destruct (truthy (m_client_id message)) as [c|] eqn:Hc;
      [|by rewrite registry_try_send in H].
    rewrite registry_reply in H.
    apply truthy_Some in Htopic as [Htopic _]. exists topic.
    destruct (topics st !! topic) eqn:Ht.
    - split_and!; [done..|]. left. by split.
    - unfold subscribe in H. by rewrite Ht in H. }
  destruct (decide (type = "unsubscribe")) as [->|Hunsub].
  { unfold handleUnsubscribe, sendError in H.
    destruct (truthy (m_topic message)) as [topic|] eqn:Htopic;
      [|by rewrite registry_try_send in H].
    destruct (truthy (m_client_id message)) as [c|] eqn:Hc;
      [|by rewrite registry_try_send in H].
    rewrite registry_reply in H.
    apply truthy_Some in Htopic as [Htopic _]. apply truthy_Some in Hc as [Hc _].
    exists topic. unfold unsubscribe in H.
    destruct (topics st !! topic) eqn:Ht; [|done].
    destruct (subscribers st !! c) eqn:Hs; [|done].
    split_and!; [done..|]. right. left. split; [done|]. exists c. by rewrite Hs. }
  destruct (decide (type = "publish")) as [->|Hpub].
  { unfold handlePublish, sendError in H.
    destruct (truthy (m_topic message)) as [topic|] eqn:Htopic;
      [|by rewrite registry_try_send in H].
    destruct (m_message message) as [msg|] eqn:Hmsg;
      [|by rewrite registry_try_send in H].
    rewrite registry_reply in H.
    apply truthy_Some in Htopic as [Htopic _]. exists topic.
    destruct (topics st !! topic) eqn:Ht.
    - split_and!; [done..|]. right. right. split; [done|]. exists msg.
      split; [done|]. rewrite bool_decide_eq_true_2 in Hid by done.
      simpl in Hid. destruct (decide (id msg = "")) as [?|Hne]; [by left|right].
      rewrite bool_decide_eq_false_2 in Hid by done. simpl in Hid.
      by destruct (isValidUUID (id msg)).
    - unfold publish in H. by rewrite Ht in H. }
  unfold handlePing in H.
  destruct (decide (type = "ping")); by rewrite registry_try_send in H.
Qed.

Lemma handleMessage_registry_witness :
  let st := run ops_one_subscriber (new_PubSubSystem default_options) in
  ∃ message topic,
    json_value (publish_request "orders" (U "")) = json_value message
    ∧ m_topic message = Some topic
    ∧ is_Some (topics st !! topic).
Proof.
  intros st.
  destruct (handleMessage_registry "t9" st 1
              (json_value (publish_request "orders" (U ""))))
    as (message & topic & H1 & H2 & H3 & _).
  - intros H. apply (f_equal (λ r, totalMessages r.2)) in H.
    vm_compute in H. discriminate.
  - by exists message, topic.
Defined.

(** X15.  A [subscribe], [unsubscribe] or [publish] request that is well
    formed but names a topic that does not exist, and an [unsubscribe] by a
    client that has no record, change nothing but the requester's
    transport: they are answered with one error frame whose code is
    TOPIC_NOT_FOUND; for [unsubscribe] the message of that frame is
    SUBSCRIPTION_NOT_FOUND. *)
Theorem handleMessage_unknown_topic now st w message type topic :
  type ∈ ["subscribe"; "unsubscribe"; "publish"] →
  m_type message = Some type →
  truthy (m_topic message) = Some topic →
  (type ≠ "publish" → is_Some (truthy (m_client_id message))) →
  (type = "publish" →
   ∃ msg, m_message message = Some msg
          ∧ (id msg = "" ∨ isValidUUID (id msg) = true)) →
  (topics st !! topic = None
   ∨ type = "unsubscribe"
     ∧ ∃ c, truthy (m_client_id message) = Some c ∧ subscribers st !! c = None) →
  handleMessage now st w (json_value message)
  = try_send st w
      (f_error (m_request_id message) "TOPIC_NOT_FOUND"
         (if decide (type = "unsubscribe")
          then "SUBSCRIPTION_NOT_FOUND" else "TOPIC_NOT_FOUND") now).
Proof.
  intros Hin Htype Htopic Hc Hmsg Hmiss. unfold handleMessage. rewrite Htype.
  repeat (apply elem_of_cons in Hin as [->|Hin]); [| | |by apply elem_of_nil in Hin].
  - cbn [truthy]. destruct (m_message message); simpl;
      unfold handleSubscribe; rewrite Htopic;
      destruct (Hc ltac:(done)) as [c ->];
      (destruct Hmiss as [Ht|[[=] _]]);
      unfold subscribe; by rewrite Ht.
  - cbn [truthy]. destruct (m_message message); simpl;
      unfold handleUnsubscribe; rewrite Htopic;
      destruct (Hc ltac:(done)) as [c Hcc]; rewrite Hcc;
      unfold unsubscribe;
      (destruct Hmiss as [Ht|(_ & c' & Hc' & Hs)];
       [rewrite Ht; done|]);
      rewrite Hcc in Hc'; injection Hc' as <-; rewrite Hs;
      by destruct (topics st !! topic).
  - cbn [truthy]. destruct (Hmsg eq_refl) as (msg & Hm & Hid). rewrite Hm.
    assert (negb (bool_decide (id msg = "")) && negb (isValidUUID (id msg)) = false)
      as Hv.
    { destruct Hid as [-> | ->]; [done|]. by rewrite andb_false_r. }
    rewrite bool_decide_eq_true_2 by done. cbn [andb]. rewrite Hv.
    simpl. unfold handlePublish. rewrite Htopic, Hm.
    destruct Hmiss as [Ht|[[=] _]]. unfold publish. by rewrite Ht.
Qed.

Lemma handleMessage_unknown_topic_witness :
  let st := run ops_one_subscriber (new_PubSubSystem default_options) in
  handleMessage "t9" st 1 (json_value (unsubscribe_request "orders" "nobody"))
  = try_send st 1 (f_error (Some "r3") "TOPIC_NOT_FOUND" "SUBSCRIPTION_NOT_FOUND" "t9").
Proof.
  intros st.
  apply (handleMessage_unknown_topic "t9" st 1
           (unsubscribe_request "orders" "nobody") "unsubscribe" "orders").
  - right. left.
  - reflexivity.
  - reflexivity.
  - intros _. by eexists.
  - intros [=].
  - right. split; [reflexivity|]. exists "nobody". split; vm_compute; reflexivity.
Defined.

(** * Further properties of the transports and counters *)

(** ** Transports that are not open *)

Lemma enqueueMessage_not_open now st c m w :
  readyState (socket st w) ≠ 1 →
  socket (enqueueMessage now st c m).1 w = socket st w.
Proof.
  intros Hw. destruct (subscribers st !! c) as [s|] eqn:Hs.
  - destruct (decide (w = ws s)) as [->|Hne].
    + unfold enqueueMessage. rewrite Hs, decide_False by done. simpl.
      unfold socket. by destruct (removeSubscriber_frame st c) as (-> & _).
    + apply (enqueueMessage_binding now st c m (ws s)); [|done].
      intros s'. rewrite Hs. by intros [= <-].
  - unfold enqueueMessage. by rewrite Hs.
Qed.

Lemma flushSubscriberQueue_not_open st c w :
  readyState (socket st w) ≠ 1 → socket (flushSubscriberQueue st c) w = socket st w.
Proof.
  intros Hw. unfold flushSubscriberQueue.
  destruct (subscribers st !! c) as [s|]; [|done].
  case_decide as Hopen; [|done]. destruct (drain _ _) as [q x].
  unfold socket at 1. simpl. rewrite lookup_total_insert_ne; [done|].
  intros E. by rewrite E in Hopen.
Qed.

Lemma enqueueMessage_keeps_not_open w x :
  readyState x ≠ 1 →
  ∀ now st c m, socket st w = x → socket (enqueueMessage now st c m).1 w = x.
Proof. intros Hx now st c m <-. by apply enqueueMessage_not_open. Qed.

(** X16.  No operation of the registry writes to, or closes, a transport
    that is not open: whatever [createTopic], [deleteTopic], [subscribe],
    [unsubscribe], [publish], [removeSubscriber] or [flushSubscriberQueue]
    does, a transport whose [readyState] is not OPEN is afterwards exactly
    as it was. *)
Theorem not_open_transport_untouched st op w :
  (∀ x r b, op ≠ op_transport x r b) →
  readyState (socket st w) ≠ 1 →
  socket (step st op) w = socket st w.
Proof.
  intros Hop Hw.
  destruct op as [t|now t|now c w0 t n|c t|now t m|c|c|x r b]; simpl.
  - unfold createTopic. by destruct (topics st !! t).
  - unfold deleteTopic. destruct (topics st !! t) as [topic|]; simpl; [|done].
    unfold socket at 1. simpl.
    destruct (fold_detach_frame t (tsubscribers topic)
                (foldl (notify_deleted t now) st (tsubscribers topic)))
      as (_ & _ & -> & _).
    fold (socket (foldl (notify_deleted t now) st (tsubscribers topic)) w).
    rewrite fold_notify_socket. unfold notified.
    rewrite decide_False by done. apply after_frames_0.
  - unfold subscribe. destruct (topics st !! t) as [topic|]; cbn [fst]; [|done].
    destruct (join_frame st c w0 t topic) as (Hsock & _).
    destruct (topicStats _ !! t) as [ts|]; cbn [fst];
      [|unfold socket; by rewrite Hsock].
    match goal with |- context [replay ?a ?b ?c ?d] =>
      assert (socket b w = socket st w) as H1
        by (unfold socket; cbn [sockets with_stats]; by rewrite Hsock);
      pose proof (replay_preserves (λ st', socket st' w = socket st w)
                    (enqueueMessage_keeps_not_open w (socket st w) Hw) a d c b H1)
        as HR
    end.
    case_decide; cbn [fst]; [|done].
    by destruct (replay _ _ _ _) as [st' [[]|msg]].
  - unfold unsubscribe. destruct (topics st !! t) as [topic|]; [|done].
    destruct (subscribers st !! c) as [s|]; [|done]. cbn [fst].
    by destruct (topicStats _ !! t).
  - unfold publish. destruct (topics st !! t) as [topic|]; [|done].
    match goal with |- context [fanout ?a ?b ?c ?d] =>
      assert (socket b w = socket st w) as H1 by done;
      pose proof (fanout_preserves (λ st', socket st' w = socket st w)
                    (enqueueMessage_keeps_not_open w (socket st w) Hw) a c d b H1)
        as HF;
      destruct (fanout a b c d) as [st2 failed]
    end.
    done.
  - unfold socket. by destruct (removeSubscriber_frame st c) as (-> & _).
  - by apply flushSubscriberQueue_not_open.
  - by destruct (Hop x r b).
Qed.

Lemma not_open_transport_untouched_witness :
  let st := run ops_closed_and_open (new_PubSubSystem default_options) in
  socket (step st (op_publish "t5" "orders" (U "U5"))) 1 = socket st 1.
Proof.
  intros st. apply not_open_transport_untouched.
  - intros x r b. discriminate.
  - vm_compute. discriminate.
Defined.

(** ** The subscriber counter *)

Lemma size_ext {A B} (m' : gmap string A) (m : gmap string B) :
  (∀ c, is_Some (m' !! c) ↔ is_Some (m !! c)) → size m' = size m.
Proof.
  intros H. rewrite <- !(size_dom (D := gset string)). f_equal.
  apply set_eq. intros c. by rewrite !elem_of_dom.
Qed.

Lemma Counted_ext st st' :
  totalSubscribers (stats st') = totalSubscribers (stats st) →
  (∀ c, is_Some (subscribers st' !! c) ↔ is_Some (subscribers st !! c)) →
  Counted st → Counted st'.
Proof. unfold Counted. intros -> H ->. by rewrite (size_ext _ _ H). Qed.

Lemma Counted_delivery st st' : delivery st st' → Counted st → Counted st'.
Proof.
  intros [_ Hs _ _ _ Hr]. apply Counted_ext; [by rewrite Hs|].
  intros c. specialize (Hr c). rewrite <- !(fmap_is_Some (λ s, (ws s, stopics s))).
  by rewrite Hr.
Qed.

Lemma remove_from_topic_total c st x :
  totalSubscribers (stats (remove_from_topic c st x)) = totalSubscribers (stats st).
Proof.
  unfold remove_from_topic. destruct (topics st !! x); [|done]. simpl.
  by destruct (topicStats (stats st) !! x).
Qed.

Lemma Counted_removeSubscriber st c : Counted st → Counted (removeSubscriber st c).
Proof.
  unfold Counted. intros H. pose proof (removeSubscriber_subscribers st c) as Hs.
  rewrite Hs. unfold removeSubscriber in *.
  destruct (subscribers st !! c) as [s|] eqn:Hc; [|by rewrite delete_id in *].
  simpl.
  assert (totalSubscribers (stats (foldl (remove_from_topic c) st (stopics s)))
          = totalSubscribers (stats st)) as ->.
  { apply (foldl_preserves
             (λ st', totalSubscribers (stats st') = totalSubscribers (stats st)));
      [|done].
    intros st' x <-. apply remove_from_topic_total. }
  rewrite H, map_size_delete_Some by done.
  pose proof (map_size_ne_0_lookup_2 (subscribers st) c ltac:(done)). lia.
Qed.

Lemma Counted_enqueueMessage now st c m :
  Counted st → Counted (enqueueMessage now st c m).1.
Proof.
  apply enqueueMessage_preserves.
  - apply Counted_delivery.
  - apply Counted_removeSubscriber.
Qed.

Lemma Counted_join st c w t topic : Counted st → Counted (join st c w t topic).
Proof.
  unfold Counted. intros H.
  assert (∀ x : Subscriber, ∀ c',
            is_Some (subscribers (join st c w t topic) !! c')
            ↔ is_Some (<[c := x]> (subscribers st) !! c')) as Hdom.
  { intros x c'. rewrite join_subscribers. case_decide as Hc; subst.
    - by rewrite lookup_insert_eq.
    - by rewrite lookup_insert_ne. }
  rewrite (size_ext _ _ (Hdom {| ws := w; stopics := []; queue := [] |})).
  unfold join. destruct (subscribers st !! c) as [s|] eqn:Hc; simpl.
  - by rewrite H, map_size_insert_Some.
  - rewrite H, map_size_insert_None by done. lia.
Qed.

Lemma Counted_step st op : Counted st → Counted (step st op).
Proof.
  intros HC.
  destruct op as [t|now t|now c w t n|c t|now t m|c|c|w r b]; simpl.
  - unfold createTopic. by destruct (topics st !! t).
  - unfold deleteTopic. destruct (topics st !! t) as [topic|]; simpl; [|done].
    set (st1 := foldl (notify_deleted t now) st (tsubscribers topic)).
    assert (Counted st1) as H1.
    { eapply Counted_delivery; [apply fold_notify_delivery|done]. }
    revert H1. apply Counted_ext; simpl.
    + by destruct (fold_detach_frame t (tsubscribers topic) st1) as (_ & -> & _).
    + intros c. rewrite fold_detach_subscribers. case_decide; [|done].
      apply fmap_is_Some.
  - unfold subscribe. destruct (topics st !! t) as [topic|]; cbn [fst]; [|done].
    pose proof (Counted_join st c w t topic HC) as HJ.
    destruct (topicStats _ !! t) as [ts|]; cbn [fst]; [|done].
    case_decide; cbn [fst]; [|done].
    match goal with |- context [replay ?a ?b ?c ?d] =>
      pose proof (replay_preserves Counted Counted_enqueueMessage a d c b) as HR;
      destruct (replay a b c d) as [st' [[]|msg]] end; by apply HR.
  - unfold unsubscribe. destruct (topics st !! t) as [topic|]; [|done].
    destruct (subscribers st !! c) as [s|] eqn:Hs; [|done]. cbn [fst].
    revert HC. apply Counted_ext.
    + by destruct (topicStats _ !! t).
    + intros c'.
      assert (∀ x, subscribers
                (match topicStats (stats st) !! t with
                 | Some ts =>
                     with_stats (with_topicStats (insert t
                       (set_nsubscribers
                          (length (tsubscribers
                             (set_tsubscribers (set_delete c) topic))) ts))) x
                 | None => x
                 end) = subscribers x) as Hx
        by (intros x; by destruct (topicStats _ !! t)).
      simpl. rewrite Hx. simpl. destruct (decide (c' = c)) as [->|].
      * rewrite lookup_insert_eq, Hs. split; by eexists.
      * by rewrite lookup_insert_ne.
  - unfold publish. destruct (topics st !! t) as [topic|]; [|done].
    match goal with |- context [fanout ?a ?b ?c ?d] =>
      assert (Counted b) as H1 by done;
      pose proof (fanout_preserves Counted Counted_enqueueMessage a c d b H1) as HF;
      destruct (fanout a b c d) as [st2 failed]
    end.
    done.
  - by apply Counted_removeSubscriber.
  - eapply Counted_delivery; [apply flushSubscriberQueue_delivery|done].
  - done.
Qed.

(** X17.  After any sequence of operations the counter
    [stats.totalSubscribers] is the number of subscriber records, the number
    [getHealth] reports as [subscribers]: it never drifts and never goes
    negative. *)
Theorem totalSubscribers_counts_records options ops startTime now :
  let st := run ops (new_PubSubSystem options) in
  totalSubscribers (stats st)
  = Z.of_nat (health_subscribers (getHealth startTime now st)).
Proof.
  intros st. subst st. unfold run. simpl.
  apply (foldl_preserves Counted step); [apply Counted_step|].
  unfold Counted. simpl. by rewrite map_size_empty.
Qed.

(** * Further properties of the shutdown *)

Lemma flush_open_eq st c : flush_open st c = flushSubscriberQueue st c.
Proof.
  unfold flush_open, flushSubscriberQueue.
  destruct (subscribers st !! c); [|done]. by case_decide.
Qed.

Lemma fold_flush_delivery l st : delivery st (foldl flush_open st l).
Proof.
  revert st. induction l as [|c l IH]; intros st; simpl; [apply delivery_refl|].
  eapply delivery_trans; [|apply IH].
  rewrite flush_open_eq. apply flushSubscriberQueue_delivery.
Qed.

Lemma close_open_delivery st c : delivery st (close_open st c).
Proof.
  unfold close_open. destruct (subscribers st !! c); [|apply delivery_refl].
  case_decide; [apply delivery_sockets|apply delivery_refl].
Qed.

Lemma fold_close_delivery l st : delivery st (foldl close_open st l).
Proof.
  revert st. induction l as [|c l IH]; intros st; simpl; [apply delivery_refl|].
  eapply delivery_trans; [apply close_open_delivery|apply IH].
Qed.

Lemma delivery_ws st st' c :
  delivery st st' → ws <$> subscribers st' !! c = ws <$> subscribers st !! c.
Proof.
  intros [_ _ _ _ _ H]. specialize (H c).
  destruct (subscribers st' !! c), (subscribers st !! c); simpl in *; congruence.
Qed.

Lemma flushSubscriberQueue_readyState st c w :
  readyState (socket (flushSubscriberQueue st c) w) = readyState (socket st w).
Proof.
  unfold flushSubscriberQueue. destruct (subscribers st !! c) as [s|]; [|done].
  case_decide as Hopen; [|done].
  pose proof (drain_readyState (queue s) (socket st (ws s))) as Hd.
  destruct (drain _ _) as [q x]. unfold socket at 1. simpl in *.
  destruct (decide (w = ws s)) as [->|].
  - by rewrite lookup_total_insert_eq.
  - by rewrite lookup_total_insert_ne.
Qed.

Lemma fold_flush_readyState l st w :
  readyState (socket (foldl flush_open st l) w) = readyState (socket st w).
Proof.
  revert st. induction l as [|c l IH]; intros st; simpl; [done|].
  by rewrite IH, flush_open_eq, flushSubscriberQueue_readyState.
Qed.

Lemma fold_flush_not_open l st w :
  readyState (socket st w) ≠ 1 → socket (foldl flush_open st l) w = socket st w.
Proof.
  revert st. induction l as [|c l IH]; intros st Hw; simpl; [done|].
  rewrite IH; rewrite flush_open_eq.
  - by apply flushSubscriberQueue_not_open.
  - by rewrite flushSubscriberQueue_readyState.
Qed.

(** The first loop, for a client that shares its transport with no other
    client of the list. *)
Lemma fold_flush_private c l st s :
  subscribers st !! c = Some s →
  readyState (socket st (ws s)) = 1 →
  (∀ c' s', c' ∈ l → c' ≠ c → subscribers st !! c' = Some s' → ws s' ≠ ws s) →
  let st' := foldl flush_open st l in
  let d := drain (queue s) (socket st (ws s)) in
  if decide (c ∈ l)
  then socket st' (ws s) = d.2 ∧ subscribers st' !! c = Some (set_queue d.1 s)
  else socket st' (ws s) = socket st (ws s) ∧ subscribers st' !! c = Some s.
Proof.
  revert st s. induction l as [|c' l IH]; intros st s Hs Hopen Hpriv; cbn [foldl].
  { rewrite decide_False; [done|]. apply not_elem_of_nil. }
  rewrite flush_open_eq.
  destruct (decide (c' = c)) as [->|Hne].
  - rewrite decide_True by left.
    set (d := drain (queue s) (socket st (ws s))).
    set (st1 := flushSubscriberQueue st c).
    assert (subscribers st1 !! c = Some (set_queue d.1 s)) as Hs1.
    { unfold st1. rewrite (flushSubscriberQueue_eq st c s Hs Hopen). simpl.
      by rewrite lookup_insert_eq. }
    assert (socket st1 (ws s) = d.2) as Hw1.
    { unfold st1. rewrite (flushSubscriberQueue_eq st c s Hs Hopen).
      unfold socket. simpl. by rewrite lookup_total_insert_eq. }
    assert (readyState (socket st1 (ws s)) = 1) as Hopen1.
    { unfold st1. by rewrite flushSubscriberQueue_readyState. }
    specialize (IH st1 (set_queue d.1 s) Hs1 Hopen1). cbn [ws set_queue queue] in IH.
    rewrite Hw1 in IH.
    assert (drain d.1 d.2 = d) as Hdd by apply drain_drained.
    rewrite !Hdd in IH.
    assert (set_queue d.1 (set_queue d.1 s) = set_queue d.1 s) as Hq by done.
    rewrite Hq in IH.
    assert (∀ c' s', c' ∈ l → c' ≠ c → subscribers st1 !! c' = Some s' →
                     ws s' ≠ ws s) as Hpriv1.
    { intros c' s' Hin Hne Hs'.
      pose proof (delivery_ws st st1 c' (flushSubscriberQueue_delivery st c)) as Hws.
      rewrite Hs' in Hws. destruct (subscribers st !! c') as [s0|] eqn:Hs0; [|done].
      simpl in Hws. injection Hws as Hws. rewrite Hws.
      apply (Hpriv c' s0); [by right|done..]. }
    specialize (IH Hpriv1). by destruct (decide (c ∈ l)).
  - set (st1 := flushSubscriberQueue st c').
    assert (subscribers st1 !! c = Some s) as Hs1.
    { unfold st1, flushSubscriberQueue.
      destruct (subscribers st !! c') as [s'|]; [|done].
      destruct (decide (readyState (socket st (ws s')) = 1)); [|done].
      destruct (drain _ _). simpl. by rewrite lookup_insert_ne. }
    assert (socket st1 (ws s) = socket st (ws s)) as Hw1.
    { unfold st1. destruct (subscribers st !! c') as [s'|] eqn:Hs'.
      - apply (flushSubscriberQueue_other_socket st c' s'); [done|].
        intros E. apply (Hpriv c' s'); [by left|done..].
      - unfold flushSubscriberQueue. by rewrite Hs'. }
    assert (∀ c0 s', c0 ∈ l → c0 ≠ c → subscribers st1 !! c0 = Some s' →
                     ws s' ≠ ws s) as Hpriv1.
    { intros c0 s' Hin Hne0 Hs'.
      pose proof (delivery_ws st st1 c0 (flushSubscriberQueue_delivery st c')) as Hws.
      rewrite Hs' in Hws. destruct (subscribers st !! c0) as [s0|] eqn:Hs0; [|done].
      simpl in Hws. injection Hws as Hws. rewrite Hws.
      apply (Hpriv c0 s0); [by right|done..]. }
    specialize (IH st1 s Hs1). rewrite Hw1 in IH. specialize (IH Hopen Hpriv1).
    cbn zeta in IH.
    pose proof (elem_of_cons l c c') as Hc.
    assert (c ≠ c') as Hne' by congruence.
    destruct (decide (c ∈ l)), (decide (c ∈ c' :: l)); try done; exfalso; tauto.
Qed.

Lemma socket_insert_eq st w x : socket (with_sockets (insert w x) st) w = x.
Proof. unfold socket. simpl. by rewrite lookup_total_insert_eq. Qed.

Lemma socket_insert_ne st w w' x :
  w' ≠ w → socket (with_sockets (insert w x) st) w' = socket st w'.
Proof. intros H. unfold socket. simpl. by rewrite lookup_total_insert_ne. Qed.

Lemma close_open_subscribers st c : subscribers (close_open st c) = subscribers st.
Proof.
  unfold close_open. destruct (subscribers st !! c); [|done]. by case_decide.
Qed.

(** The second loop: an open transport is closed for the first client of
    the list that is bound to it. *)
Lemma fold_close_socket l st w :
  socket (foldl close_open st l) w
  = if decide (readyState (socket st w) = 1 ∧ 0 < bound_to st w l)
    then ws_close 1001 "Server shutting down" (socket st w)
    else socket st w.
Proof.
  revert st. induction l as [|c l IH]; intros st; cbn [foldl].
  { rewrite decide_False; [done|]. unfold bound_to. simpl. lia. }
  rewrite IH, (bound_to_ext st (close_open st c)) by apply close_open_subscribers.
  assert (bound_to st w (c :: l)
          = if decide (ws <$> subscribers st !! c = Some w)
            then S (bound_to st w l) else bound_to st w l) as ->.
  { unfold bound_to. rewrite filter_cons. by case_decide. }
  unfold close_open.
  destruct (subscribers st !! c) as [s|] eqn:Hs; simpl.
  - destruct (decide (Some (ws s) = Some w)) as [[= Hw]|Hne].
    + rewrite Hw.
      destruct (decide (readyState (socket st w) = 1)) as [Hopen|Hclosed].
      * rewrite socket_insert_eq. cbn [readyState ws_close].
        rewrite decide_False by lia. rewrite decide_True; [done|]. split; [done|lia].
      * rewrite decide_False by tauto. by rewrite decide_False by tauto.
    + assert (w ≠ ws s) as Hne' by congruence.
      destruct (decide (readyState (socket st (ws s)) = 1)); [|done].
      by rewrite socket_insert_ne.
  - done.
Qed.

(** X18.  [gracefulShutdown] leaves the registry as it is: no record and no
    topic is removed and only queues and transports change.  It touches no
    transport that is not open.  Every open transport that a record is bound
    to has been asked to close with code 1001 when it returns.  A client
    that shares its open transport with no other client has had its queue
    flushed first: the events the transport accepted were written in queue
    order before the close, and the rest stays in the queue of the record. *)
Theorem gracefulShutdown_flushes_then_closes order st :
  let st' := gracefulShutdown order st in
  delivery st st'
  ∧ (∀ w, readyState (socket st w) ≠ 1 → socket st' w = socket st w)
  ∧ (∀ c s, c ∈ order → subscribers st !! c = Some s →
            readyState (socket st (ws s)) = 1 →
            readyState (socket st' (ws s)) = 2
            ∧ closeCall (socket st' (ws s)) = Some (1001, "Server shutting down"))
  ∧ (∀ c s, c ∈ order → subscribers st !! c = Some s →
            readyState (socket st (ws s)) = 1 →
            (∀ c' s', c' ∈ order → c' ≠ c → subscribers st !! c' = Some s' →
                      ws s' ≠ ws s) →
            let d := drain (queue s) (socket st (ws s)) in
            socket st' (ws s) = ws_close 1001 "Server shutting down" d.2
            ∧ subscribers st' !! c = Some (set_queue d.1 s)).
Proof.
  intros st'. unfold gracefulShutdown in st'.
  set (mid := foldl flush_open st order) in *.
  assert (delivery st mid) as Hmid by apply fold_flush_delivery.
  assert (∀ c s, c ∈ order → subscribers st !! c = Some s →
                 0 < bound_to mid (ws s) order) as Hbound.
  { intros c s Hin Hs. unfold bound_to.
    assert (c ∈ filter (λ c, ws <$> subscribers mid !! c = Some (ws s)) order) as Hf.
    { apply list_elem_of_filter. split; [|done].
      by rewrite (delivery_ws st mid c Hmid), Hs. }
    destruct (filter _ order); [by apply elem_of_nil in Hf|simpl; lia]. }
  assert (∀ w, readyState (socket mid w) = readyState (socket st w)) as Hrs
    by (intros w; apply fold_flush_readyState).
  assert (∀ l x, subscribers (foldl close_open x l) = subscribers x) as Hsub.
  { induction l as [|c0 l IH]; intros x; simpl; [done|].
    by rewrite IH, close_open_subscribers. }
  split_and!.
  - eapply delivery_trans; [apply Hmid|apply fold_close_delivery].
  - intros w Hw. unfold st'. rewrite fold_close_socket.
    rewrite decide_False by (rewrite Hrs; tauto).
    by apply fold_flush_not_open.
  - intros c s Hin Hs Hopen. unfold st'. rewrite fold_close_socket.
    rewrite decide_True; [done|]. split; [by rewrite Hrs|by apply (Hbound c)].
  - intros c s Hin Hs Hopen Hpriv d. unfold st'.
    rewrite fold_close_socket.
    rewrite decide_True by (split; [by rewrite Hrs|by apply (Hbound c)]).
    pose proof (fold_flush_private c order st s Hs Hopen Hpriv) as Hf.
    cbn zeta in Hf. rewrite decide_True in Hf by done. fold mid in Hf.
    destruct Hf as [Hw Hc]. by rewrite Hw, Hsub.
Qed.

Lemma gracefulShutdown_flushes_then_closes_witness :
  let st := transport (run ops_stalled (new_PubSubSystem options_queue2)) 1 1 1 in
  let st' := gracefulShutdown ["a"] st in
  readyState (socket st' 1) = 2
  ∧ closeCall (socket st' 1) = Some (1001, "Server shutting down").
Proof.
  intros st st'.
  apply (proj1 (proj2 (proj2 (gracefulShutdown_flushes_then_closes ["a"] st))) "a"
           {| ws := 1; stopics := ["orders"];
              queue := [E "orders" "E1" "t1"; E "orders" "E2" "t2"] |}).
  - by left.
  - vm_compute. reflexivity.
  - vm_compute. reflexivity.
Defined.

(** * Further properties of a healthy session *)

(** The replay loop on a transport that accepts every frame: each event is
    written at once and the queue stays empty. *)
Lemma replay_healthy now c l st s :
  subscribers st !! c = Some s →
  queue s = [] →
  readyState (socket st (ws s)) = 1 →
  length l ≤ sendBudget (socket st (ws s)) →
  1 ≤ maxQueueSize st →
  ∃ st',
    replay now st c l = (st', Ok ())
    ∧ topics st' = topics st
    ∧ subscribers st' = subscribers st
    ∧ socket st' (ws s) = (drain l (socket st (ws s))).2.
Proof.
  revert st. induction l as [|m l IH]; intros st Hs Hq Hopen Hb Hmax.
  { exists st. by simpl. }
  cbn [replay]. unfold enqueueMessage. rewrite Hs.
  rewrite decide_True by done. rewrite decide_False by (rewrite Hq; simpl; lia).
  cbn zeta.
  change (flushSubscriberQueue _ c) with (pushed st c s (queue s) m).
  rewrite pushed_eq by done. rewrite Hq. cbn [app drain].
  unfold ws_send at 1 2.
  destruct (sendBudget (socket st (ws s))) as [|b] eqn:Hbudget; [simpl in Hb; lia|].
  set (x1 := {| readyState := readyState (socket st (ws s)); sendBudget := b;
                sent := sent (socket st (ws s)) ++ [f_event m];
                closeCall := closeCall (socket st (ws s)) |}).
  cbn [fst snd drain].
  assert (set_queue [] s = s) as -> by (destruct s; simpl in *; by subst).
  set (st1 := with_sockets _ _).
  assert (subscribers st1 = subscribers st) as HS1.
  { unfold st1. simpl. by apply insert_id. }
  assert (socket st1 (ws s) = x1) as HW1 by apply socket_insert_eq.
  destruct (IH st1) as (st' & Hr & HT & HS & HW).
  - by rewrite HS1.
  - done.
  - by rewrite HW1.
  - rewrite HW1. simpl in *. lia.
  - done.
  - exists st'. rewrite Hr. split_and!; [done|by rewrite HT|by rewrite HS, HS1|].
    rewrite HW, HW1. unfold ws_send. rewrite Hbudget. by fold x1.
Qed.

Lemma last_events_nil n topic :
  ¬ ((0 < n)%Z ∧ 0 < length (messageHistory topic)) → last_events n topic = [].
Proof.
  intros H. unfold last_events, suffix_of_length.
  destruct (decide (0 < n)%Z).
  - destruct (messageHistory topic); [done|]. simpl in H. lia.
  - replace (Z.to_nat n) with 0 by lia. rewrite Nat.min_0_l, Nat.sub_0_r.
    by rewrite drop_all.
Qed.

(** X19.  After any sequence of operations, a [subscribe] request for an
    existing topic by a client that has no record yet, on an open transport
    that accepts the frames, is served in this order: the last
    [min(last_n, |history|)] events of the topic are written to the
    transport, oldest first, and then the acknowledgement.  The client is
    registered on that transport with an empty queue and joined to the
    topic, whose history is unchanged. *)
Theorem handleMessage_subscribe_replay_then_ack options ops now w message t c topic :
  let st := run ops (new_PubSubSystem options) in
  let l := last_events (default 0%Z (m_last_n message)) topic in
  m_type message = Some "subscribe" →
  truthy (m_topic message) = Some t →
  truthy (m_client_id message) = Some c →
  topics st !! t = Some topic →
  subscribers st !! c = None →
  readyState (socket st w) = 1 →
  length l < sendBudget (socket st w) →
  let st' := handleMessage now st w (json_value message) in
  sent (socket st' w)
  = sent (socket st w) ++ (f_event <$> l) ++ [f_ack (m_request_id message) t now]
  ∧ subscribers st' !! c = Some {| ws := w; stopics := [t]; queue := [] |}
  ∧ ∃ topic',
      topics st' !! t = Some topic'
      ∧ c ∈ tsubscribers topic'
      ∧ messageHistory topic' = messageHistory topic.
Proof.
  intros st l Htype Htopic Hc Ht Hnew Hopen Hbudget st'.
  pose proof (StatsDom_run ops _ (StatsDom_new options) t) as Hstats.
  fold st in Hstats. destruct Hstats as [ts Hts]; [by eexists|].
  pose proof (QueueBound_run ops _ (QueueBound_new options)) as [Hmax _].
  fold st in Hmax.
  assert (st' = reply now w "TOPIC_NOT_FOUND" t (m_request_id message)
                  (subscribe now st c w t (default 0%Z (m_last_n message)))) as ->.
  { unfold st', handleMessage. rewrite Htype. cbn [truthy].
    destruct (m_message message); simpl; unfold handleSubscribe;
      by rewrite Htopic, Hc. }
  clearbody st.
  set (n := default 0%Z (m_last_n message)) in *.
  set (s0 := {| ws := w; stopics := [t]; queue := [] |}).
  assert (∃ st3,
            subscribe now st c w t n = (st3, Ok (subscribed t c))
            ∧ topics st3 = <[t := set_tsubscribers (set_add c) topic]> (topics st)
            ∧ subscribers st3 !! c = Some s0
            ∧ socket st3 w = (drain l (socket st w)).2) as (st3 & -> & HT & HS & HW).
  { unfold subscribe. rewrite Ht.
    destruct (join_frame st c w t topic) as (Hsock & Hstats & Hmaxj & _).
    rewrite Hstats, Hts.
    set (st2 := with_stats _ (join st c w t topic)).
    assert (topics st2 = <[t := set_tsubscribers (set_add c) topic]> (topics st))
      as HT2 by apply join_topics.
    assert (subscribers st2 !! c = Some s0) as HS2.
    { change (subscribers st2) with (subscribers (join st c w t topic)).
      rewrite join_subscribers, decide_True, Hnew by done. simpl.
      unfold s0, set_stopics, set_add. simpl.
      by rewrite ?decide_False by apply not_elem_of_nil. }
    assert (socket st2 w = socket st w) as HW2
      by (unfold socket; cbn [sockets with_stats st2]; by rewrite Hsock).
    assert (maxQueueSize st2 = maxQueueSize st) as HM2 by exact Hmaxj.
    clearbody st2.
    destruct (decide ((0 < n)%Z ∧ 0 < length (messageHistory topic))) as [Hn|Hn].
    - rewrite slice_neg by tauto. fold (last_events n topic). fold l.
      destruct (replay_healthy now c l st2 s0) as (st3 & -> & HT3 & HS3 & HW3);
        try done.
      + cbn [ws s0]. by rewrite HW2.
      + cbn [ws s0]. rewrite HW2. lia.
      + lia.
      + exists st3. split_and!; [done|by rewrite HT3|by rewrite HS3|].
        cbn [ws s0] in HW3. by rewrite HW3, HW2.
    - exists st2. split_and!; [done..|].
      unfold l. rewrite (last_events_nil n topic Hn). by simpl. }
  cbn [reply].
  assert (∃ b, sendBudget (socket st3 w) = S b) as [b Hb].
  { rewrite HW, drain_eq. cbn [snd sendBudget].
    exists (sendBudget (socket st w) - length l `min` sendBudget (socket st w) - 1).
    lia. }
  unfold ws_send. rewrite Hb. split_and!.
  - rewrite socket_insert_eq. cbn [sent]. rewrite HW, drain_eq. cbn [snd sent].
    rewrite Nat.min_l, firstn_all by lia. by rewrite <- app_assoc.
  - done.
  - exists (set_tsubscribers (set_add c) topic). cbn [topics with_sockets].
    rewrite HT, lookup_insert_eq. split_and!; [done| |done].
    simpl. unfold set_add. case_decide; [done|].
    apply elem_of_app. right. by left.
Qed.

Lemma handleMessage_subscribe_replay_then_ack_witness :
  let st := run ops_history_open (new_PubSubSystem options_ring2) in
  let message := subscribe_request "orders" "a" (Some 5%Z) in
  subscribers (handleMessage "t4" st 1 (json_value message)) !! "a"
  = Some {| ws := 1; stopics := ["orders"]; queue := [] |}.
Proof.
  intros st message.
  apply (proj1 (proj2 (handleMessage_subscribe_replay_then_ack
                         options_ring2 ops_history_open "t4" 1 message "orders" "a"
                         {| tsubscribers := [];
                            messageHistory := [E "orders" "U2" "t2";
                                               E "orders" "U3" "t3"] |}
                         eq_refl eq_refl eq_refl eq_refl eq_refl eq_refl
                         ltac:(vm_compute; lia)))).
Defined.
